(** * Journal By Text: the authentication gateway, the client auth hook and
      the journal service, embedded and verified.

    The development follows three source files:
    - [supabase/functions/secure-auth/index.ts]  (module [SecureAuth]),
    - [src/hooks/useAuth.tsx]                    (modules [UseAuth] and
                                                  [UseAuthSession]),
    - [src/services/journalService.ts]           (modules [JournalService]
                                                  and [JournalServiceDelete]),
    and two callers of the hook, the route guard (module [ProtectedRoute])
    and the sign-up form (module [SignUpForm]).

    JavaScript strings are sequences of UTF-16 code units, regular
    expressions are data interpreted by a derivative matcher, and effectful
    code runs in a small state-and-exception monad over an explicit world. *)

From Stdlib Require Import ZArith NArith List Bool Lia String Ascii DecimalString Sorted.
Import ListNotations.

Set Implicit Arguments.

(* ===================================================================== *)
(** * Part I: definitions                                                 *)
(* ===================================================================== *)

(** ** JavaScript strings *)

Module Js.

(** A code unit; a string's [length] counts code units. *)
Definition char := N.
Definition jsstring := list char.

(** String literals of the source, written as Rocq strings. *)
Definition lit (s : string) : jsstring :=
  List.map N_of_ascii (list_ascii_of_string s).

Fixpoint eqb (a b : jsstring) : bool :=
  match a, b with
  | [], [] => true
  | x :: a', y :: b' => N.eqb x y && eqb a' b'
  | _, _ => false
  end.

(** [s.length] *)
Definition length (s : jsstring) : Z := Z.of_nat (List.length s).

(** Truthiness of a string value that may be [undefined]/[null]:
    only a present, non-empty string is truthy. *)
Definition truthy (o : option jsstring) : bool :=
  match o with
  | Some (_ :: _) => true
  | _ => false
  end.

(** [a || b] on a possibly missing string with a string default. *)
Definition or_else (o : option jsstring) (d : jsstring) : jsstring :=
  match o with
  | Some (c :: s) => c :: s
  | _ => d
  end.

Definition in_range (lo hi c : N) : bool := N.leb lo c && N.leb c hi.

Definition is_upper (c : char) : bool := in_range 65 90 c.     (* [A-Z] *)
Definition is_lower (c : char) : bool := in_range 97 122 c.    (* [a-z] *)
Definition is_digit (c : char) : bool := in_range 48 57 c.     (* \d    *)

(** [\s], which is also what [trim] strips: WhiteSpace and
    LineTerminator code units. *)
Definition is_space (c : char) : bool :=
  in_range 9 13 c || N.eqb c 32 || N.eqb c 160 || N.eqb c 5760
  || in_range 8192 8202 c || N.eqb c 8232 || N.eqb c 8233
  || N.eqb c 8239 || N.eqb c 8287 || N.eqb c 12288 || N.eqb c 65279.

Fixpoint drop_while (p : char -> bool) (s : jsstring) : jsstring :=
  match s with
  | [] => []
  | c :: s' => if p c then drop_while p s' else s
  end.

(** [s.trim()] *)
Definition trim (s : jsstring) : jsstring :=
  rev (drop_while is_space (rev (drop_while is_space s))).

(** [s.split(sep)] for a one-unit separator; never empty. *)
Fixpoint split (sep : char) (s : jsstring) : list jsstring :=
  match s with
  | [] => [[]]
  | c :: s' =>
      if N.eqb c sep then [] :: split sep s'
      else match split sep s' with
           | [] => [[c]]
           | w :: ws => (c :: w) :: ws
           end
  end.

(** [s.replace(/\D/g, '')] and its kin: keep the units satisfying [p]. *)
Definition keep (p : char -> bool) (s : jsstring) : jsstring :=
  List.filter p s.

End Js.

(** ** Regular expressions *)

Module Regex.
Import Js.

Inductive regex : Type :=
| Void : regex
| Eps : regex
| Cls : (char -> bool) -> regex          (* a character class *)
| Cat : regex -> regex -> regex
| Alt : regex -> regex -> regex
| Star : regex -> regex.

Definition Plus (r : regex) : regex := Cat r (Star r).   (* r+ *)
Definition Any : regex := Star (Cls (fun _ => true)).

Fixpoint nullable (r : regex) : bool :=
  match r with
  | Void => false
  | Eps => true
  | Cls _ => false
  | Cat a b => nullable a && nullable b
  | Alt a b => nullable a || nullable b
  | Star _ => true
  end.

Fixpoint deriv (c : char) (r : regex) : regex :=
  match r with
  | Void => Void
  | Eps => Void
  | Cls p => if p c then Eps else Void
  | Cat a b =>
      if nullable a then Alt (Cat (deriv c a) b) (deriv c b)
      else Cat (deriv c a) b
  | Alt a b => Alt (deriv c a) (deriv c b)
  | Star a => Cat (deriv c a) (Star a)
  end.

(** Whole-string match: what [/^r$/.test(s)] decides. *)
Fixpoint matches (r : regex) (s : jsstring) : bool :=
  match s with
  | [] => nullable r
  | c :: s' => matches (deriv c r) s'
  end.

(** [/r/.test(s)] for a pattern without anchors: some substring matches. *)
Definition search (r : regex) (s : jsstring) : bool :=
  matches (Cat Any (Cat r Any)) s.

(** The language of a pattern, as a relation. *)
Inductive Lang : regex -> jsstring -> Prop :=
| LEps : Lang Eps []
| LCls : forall (p : char -> bool) c, p c = true -> Lang (Cls p) [c]
| LCat : forall a b s t, Lang a s -> Lang b t -> Lang (Cat a b) (s ++ t)
| LAltL : forall a b s, Lang a s -> Lang (Alt a b) s
| LAltR : forall a b s, Lang b s -> Lang (Alt a b) s
| LStar0 : forall a, Lang (Star a) []
| LStarS : forall a s t, Lang a s -> Lang (Star a) t -> Lang (Star a) (s ++ t).

End Regex.

(** ** Effects: state, trace and exceptions *)

Module Effect.
Import Js.

(** What a [throw] carries. *)
Inductive Exn : Type :=
| TypeError : Exn                      (* e.g. reading a property of null *)
| Error : jsstring -> Exn.             (* an error object with a message *)

Inductive Outcome (A : Type) : Type :=
| Return : A -> Outcome A
| Throw : Exn -> Outcome A.
Arguments Return {A} _.
Arguments Throw {A} _.

(** A computation over a world [W]: effects performed before a [throw]
    stay performed. *)
Definition JS (W A : Type) : Type := W -> W * Outcome A.

Definition ret {W A} (a : A) : JS W A := fun w => (w, Return a).

Definition bind {W A B} (m : JS W A) (k : A -> JS W B) : JS W B :=
  fun w =>
    match m w with
    | (w', Return a) => k a w'
    | (w', Throw e) => (w', Throw e)
    end.

Definition throw {W A} (e : Exn) : JS W A := fun w => (w, Throw e).

(** [try { m } catch (e) { h e }] *)
Definition try_catch {W A} (m : JS W A) (h : Exn -> JS W A) : JS W A :=
  fun w =>
    match m w with
    | (w', Return a) => (w', Return a)
    | (w', Throw e) => h e w'
    end.

Definition modify {W} (f : W -> W) : JS W unit := fun w => (f w, Return tt).
Definition gets {W A} (f : W -> A) : JS W A := fun w => (w, Return (f w)).

(** [for (const x of xs) { body x }] *)
Fixpoint for_each {W A} (body : A -> JS W unit) (xs : list A) : JS W unit :=
  match xs with
  | [] => ret tt
  | x :: xs' => bind (body x) (fun _ => for_each body xs')
  end.

(** [await Promise.all(xs.map(async x => f x))]. The callbacks are
    started in list order and their results are collected in list order;
    the effects of one callback are recorded before those of the next. *)
Fixpoint map_all {W A B} (f : A -> JS W B) (xs : list A) : JS W (list B) :=
  match xs with
  | [] => ret []
  | x :: xs' =>
      bind (f x) (fun y => bind (map_all f xs') (fun ys => ret (y :: ys)))
  end.

End Effect.

Declare Scope js_scope.
Delimit Scope js_scope with js.
Notation "x <- m ;; k" := (Effect.bind m (fun x => k))
  (at level 61, m at next level, right associativity) : js_scope.
Notation "m ;; k" := (Effect.bind m (fun _ => k))
  (at level 61, right associativity) : js_scope.

(** ** JSON values, as the gateway serialises them *)

Module Json.
Import Js.

#[warnings="-register-all"]
Inductive value : Type :=
| Null : value
| Bool : bool -> value
| Num : Z -> value
| Str : jsstring -> value
| Obj : list (jsstring * value) -> value.

(** [o.key], [undefined] when absent or when [o] is not an object. *)
Fixpoint lookup (key : jsstring) (fields : list (jsstring * value))
  : option value :=
  match fields with
  | [] => None
  | (k, v) :: fs => if Js.eqb k key then Some v else lookup key fs
  end.

Definition get (key : jsstring) (o : value) : option value :=
  match o with
  | Obj fields => lookup key fields
  | _ => None
  end.

(** Truthiness of a property read. *)
Definition truthy (o : option value) : bool :=
  match o with
  | None | Some Null | Some (Bool false) | Some (Num 0) | Some (Str []) => false
  | Some _ => true
  end.

Definition of_opt_string (o : option jsstring) : value :=
  match o with
  | Some s => Str s
  | None => Null
  end.

End Json.

(** ** The authentication gateway: [secure-auth/index.ts] *)

Module SecureAuth.
Import Js Regex Effect.
Local Open Scope js_scope.

(** *** Input validation functions *)

(** [/^[^\s@]+@[^\s@]+\.[^\s@]+$/] *)
Definition not_space_at : regex :=
  Cls (fun c => negb (is_space c || N.eqb c 64)).
Definition emailRegex : regex :=
  Cat (Plus not_space_at)
    (Cat (Cls (N.eqb 64))
       (Cat (Plus not_space_at)
          (Cat (Cls (N.eqb 46)) (Plus not_space_at)))).

Definition validateEmail (email : jsstring) : bool :=
  matches emailRegex email && (Js.length email <=? 254)%Z.

(** The four tests of [validatePassword]. *)
Definition minLength (password : jsstring) : bool :=
  (Js.length password >=? 8)%Z.
Definition hasUpper (password : jsstring) : bool :=
  search (Cls is_upper) password.                     (* /[A-Z]/ *)
Definition hasLower (password : jsstring) : bool :=
  search (Cls is_lower) password.                     (* /[a-z]/ *)
Definition hasNumber (password : jsstring) : bool :=
  search (Cls is_digit) password.                     (* /\d/ *)

Definition validatePassword (password : jsstring) : bool :=
  minLength password && hasUpper password
  && hasLower password && hasNumber password.

Definition validatePhoneNumber (phone : jsstring) : bool :=
  let cleaned := keep is_digit phone in
  (Js.length cleaned >=? 10)%Z && (Js.length cleaned <=? 15)%Z.

(** *** Requests and responses *)

(** The request body after [req.json()], destructured per [AuthRequest];
    a field that is missing is [None]. *)
Record AuthRequest : Type := {
  action : option jsstring;
  email : option jsstring;
  password : option jsstring;
  phoneNumber : option jsstring;
  timezone : option jsstring
}.

Inductive ParsedBody : Type :=
| InvalidJson : ParsedBody             (* [req.json()] rejects *)
| NullBody : ParsedBody                (* the JSON text [null] *)
| Body : AuthRequest -> ParsedBody.

(** What the handler reads of a request; the header fields are the
    results of [req.headers.get]. *)
Record Request : Type := {
  method : jsstring;
  x_forwarded_for : option jsstring;
  x_real_ip : option jsstring;
  cf_connecting_ip : option jsstring;
  origin : option jsstring;
  json : ParsedBody
}.

Inductive Payload : Type :=
| Text : jsstring -> Payload
| Stringify : Json.value -> Payload.   (* [JSON.stringify(v)] *)

Record Response : Type := {
  status : Z;
  headers : list (jsstring * jsstring);
  body : Payload
}.

Definition corsHeaders : list (jsstring * jsstring) :=
  [ (lit "Access-Control-Allow-Origin", lit "*");
    (lit "Access-Control-Allow-Headers",
     lit "authorization, x-client-info, apikey, content-type") ].

Definition json_headers : list (jsstring * jsstring) :=
  corsHeaders ++ [ (lit "Content-Type", lit "application/json") ].

Definition json_response (st : Z) (v : Json.value) : Response :=
  {| status := st; headers := json_headers; body := Stringify v |}.

Definition getClientIP (req : Request) : jsstring :=
  let xForwardedFor := x_forwarded_for req in
  let xRealIP := x_real_ip req in
  let cfConnectingIP := cf_connecting_ip req in
  if Js.truthy xForwardedFor then
    trim (hd [] (split 44%N (or_else xForwardedFor [])))
  else if Js.truthy cfConnectingIP then or_else cfConnectingIP []
  else if Js.truthy xRealIP then or_else xRealIP []
  else lit "unknown".

(** *** Collaborators *)

Record RateLimitArgs : Type := {
  p_identifier : jsstring;
  p_endpoint : jsstring;
  p_max_attempts : Z;
  p_window_minutes : Z
}.

(** The [data] of the [check_rate_limit] call. *)
Record RateLimitCheck : Type := {
  allowed : bool;
  attempts : Z;
  max_attempts : Z;
  blocked_until : option jsstring
}.

Inductive Severity : Type := low | medium | high.

Record SecurityEvent : Type := {
  event_type : jsstring;
  user_id : option jsstring;
  identifier : jsstring;
  details : Json.value;
  severity : Severity
}.

Record LockoutRow : Type := {
  locked_until : option jsstring;
  failed_attempts : Z
}.

Record SignUpArgs : Type := {
  su_email : jsstring;
  su_password : jsstring;
  emailRedirectTo : jsstring;
  su_data : Json.value
}.

(** [{ data, error }] of [auth.signUp]: [data_user] is [data.user?.id],
    [data_json] the whole [data] as it is serialised. *)
Record SignUpResult : Type := {
  data_user : option jsstring;
  data_json : Json.value;
  su_error : option jsstring            (* [error.message] *)
}.

(** The services behind [supabaseClient] and the clock: what each call
    resolves to, as its call site reads it ([const { data, error } = await
    ...]); a failed call is one whose [error] is set and whose [data] is
    null. [insert_security_event] is the [error] an insert into
    [security_events] resolves to, [None] when the row is stored. *)
Record Env : Type := {
  now : Z;                                         (* [new Date()], ms *)
  parse_date : jsstring -> option Z;               (* [new Date(s)]; [None]: invalid *)
  check_rate_limit : RateLimitArgs -> option RateLimitCheck;
  insert_security_event : SecurityEvent -> option jsstring;
  select_lockout : jsstring -> option LockoutRow;  (* [.single()] *)
  auth_signUp : SignUpArgs -> SignUpResult
}.

(** How the promise of an insert into [security_events] settles. The
    handler awaits it without reading its result and without a [try] of
    its own (lines 137-149 and 217-229): it resolves, to the [error] it
    reports ([None]: the row is stored), or it rejects. *)
Definition Settles : Type := SecurityEvent -> Outcome (option jsstring).

(** Every insert resolves, to what [env] says. *)
Definition resolving (env : Env) : Settles :=
  fun ev => Return (insert_security_event env ev).

(** Calls made on the client, in order. *)
Inductive Call : Type :=
| RpcCheckRateLimit : RateLimitArgs -> Call
| InsertSecurityEvent : SecurityEvent -> Call
| SelectLockout : jsstring -> Call
| AuthSignUp : SignUpArgs -> Call.

(** The call log and the [security_events] table. *)
Record World : Type := {
  calls : list Call;
  security_events : list SecurityEvent
}.

Definition call (c : Call) : JS World unit :=
  modify (fun w =>
    {| calls := calls w ++ [c]; security_events := security_events w |}).

(** [await supabaseClient.from('security_events').insert(ev)]: the row
    is appended when the insert resolves without error; the [error] it
    resolves to is the value of the [await]; a rejection is thrown at the
    [await]. *)
Definition insert_event (ins : Settles) (ev : SecurityEvent)
  : JS World (option jsstring) :=
  call (InsertSecurityEvent ev) ;;
  match ins ev with
  | Return None =>
      modify (fun w =>
        {| calls := calls w; security_events := security_events w ++ [ev] |}) ;;
      ret None
  | Return (Some e) => ret (Some e)
  | Throw ex => throw ex
  end.

Definition is_signin (a : option jsstring) : bool :=
  match a with Some s => Js.eqb s (lit "signin") | None => false end.
Definition is_signup (a : option jsstring) : bool :=
  match a with Some s => Js.eqb s (lit "signup") | None => false end.

Definition error_body (msg : string) : Json.value :=
  Json.Obj [ (lit "error", Json.Str (lit msg)) ].

Definition rate_limit_json (rl : RateLimitCheck) : Json.value :=
  Json.Obj [ (lit "attempts", Json.Num (attempts rl));
             (lit "max_attempts", Json.Num (max_attempts rl)) ].

(** [...(v && { key: v })] *)
Definition spread_if (key : string) (v : option jsstring)
  : list (jsstring * Json.value) :=
  if Js.truthy v then [ (lit key, Json.Str (or_else v [])) ] else [].

(** [new Date(lockoutData.locked_until) > new Date()] guarded by
    [lockoutData?.locked_until]. *)
Definition lock_active (env : Env) (row : option LockoutRow) : bool :=
  match row with
  | Some r =>
      Js.truthy (locked_until r) &&
      match parse_date env (or_else (locked_until r) []) with
      | Some t => (t >? now env)%Z
      | None => false
      end
  | None => false
  end.

(** The body of the sign-in acknowledgment (lines 182-189). *)
Definition validation_passed_json (rl : RateLimitCheck) : Json.value :=
  Json.Obj [ (lit "validation_passed", Json.Bool true);
             (lit "message", Json.Str (lit "Security validation passed"));
             (lit "rate_limit", rate_limit_json rl) ].

(** *** The handler *)

(** Lines 84-122: input validation; the 400 response of the first test
    that fails. *)
Definition input_validation (requestData : AuthRequest) : option Response :=
  let action := action requestData in
  let email := email requestData in
  let password := password requestData in
  let phoneNumber := phoneNumber requestData in
  if negb (Js.truthy action) || negb (is_signin action || is_signup action) then
    Some (json_response 400
            (error_body "Invalid action. Must be signin or signup."))
  else if negb (Js.truthy email) || negb (validateEmail (or_else email [])) then
    Some (json_response 400 (error_body "Valid email address is required"))
  else if negb (Js.truthy password) then
    Some (json_response 400 (error_body "Password is required"))
  else if is_signup action && negb (validatePassword (or_else password [])) then
    Some (json_response 400
            (error_body "Password must be at least 8 characters long and contain uppercase, lowercase, and at least one number"))
  else if Js.truthy phoneNumber
          && negb (validatePhoneNumber (or_else phoneNumber [])) then
    Some (json_response 400 (error_body "Invalid phone number format"))
  else None.

(** Lines 124-242: from the rate-limit check to the final response, for a
    request whose fields passed input validation; [ins] says how the
    inserts into [security_events] settle. *)
Definition after_validation (ins : Settles) (env : Env) (req : Request)
    (action : option jsstring) (email password : jsstring)
    (phoneNumber timezone : option jsstring) (clientIP : jsstring)
  : JS World Response :=
  (* Check rate limits using client IP and email *)
  let rateLimitIdentifier := clientIP ++ lit ":" ++ email in
  let endpoint :=
    if is_signin action then lit "auth_signin" else lit "auth_signup" in
  let args :=
    {| p_identifier := rateLimitIdentifier;
       p_endpoint := endpoint;
       p_max_attempts := if is_signin action then 5 else 3;
       p_window_minutes := 15 |} in
  call (RpcCheckRateLimit args) ;;
  match check_rate_limit env args with
  | None => throw TypeError                (* [rateLimitCheck.allowed] of null *)
  | Some rateLimitCheck =>
      if negb (allowed rateLimitCheck) then
        (* Log security event *)
        let ev :=
          {| event_type := lit "rate_limit_exceeded";
             user_id := None;
             identifier := rateLimitIdentifier;
             details :=
               Json.Obj [ (lit "endpoint", Json.Str endpoint);
                          (lit "ip", Json.Str clientIP);
                          (lit "email", Json.Str email);
                          (lit "blocked_until",
                           Json.of_opt_string (blocked_until rateLimitCheck)) ];
             severity := medium |} in
        insert_event ins ev ;;
        ret (json_response 429
               (Json.Obj
                  [ (lit "error",
                     Json.Str (lit "Too many attempts. Please try again later."));
                    (lit "blocked_until",
                     Json.of_opt_string (blocked_until rateLimitCheck)) ]))
      else
        (* Check for account lockout (signin only) *)
        locked <-
          (if is_signin action then
             call (SelectLockout email) ;;
             let lockoutData := select_lockout env email in
             if lock_active env lockoutData then
               ret (Some
                 (json_response 423
                    (Json.Obj
                       [ (lit "error",
                          Json.Str (lit "Account temporarily locked due to multiple failed login attempts"));
                         (lit "locked_until",
                          Json.of_opt_string
                            (match lockoutData with
                             | Some r => locked_until r
                             | None => None
                             end)) ])))
             else ret None
           else ret None) ;;
        match locked with
        | Some response => ret response
        | None =>
            (* For signin, just return validation success *)
            if is_signin action then
              ret (json_response 200 (validation_passed_json rateLimitCheck))
            else
              (* For signup, handle the actual signup *)
              let redirectUrl :=
                or_else (origin req) (lit "https://journalbytext.com")
                ++ lit "/" in
              let su :=
                {| su_email := email;
                   su_password := password;
                   emailRedirectTo := redirectUrl;
                   su_data :=
                     Json.Obj (spread_if "phone_number" phoneNumber
                               ++ spread_if "timezone" timezone) |} in
              call (AuthSignUp su) ;;
              let result := auth_signUp env su in
              match su_error result with
              | Some message =>
                  ret (json_response 400
                         (Json.Obj [ (lit "error", Json.Str message) ]))
              | None =>
                  (match data_user result with
                   | Some id =>
                       (* Log successful signup *)
                       insert_event ins
                         {| event_type := lit "user_signup";
                            user_id := Some id;
                            identifier := email;
                            details :=
                              Json.Obj
                                [ (lit "ip", Json.Str clientIP);
                                  (lit "has_phone",
                                   Json.Bool (Js.truthy phoneNumber));
                                  (lit "timezone",
                                   Json.Str (or_else timezone (lit "UTC"))) ];
                            severity := low |}
                   | None => ret None
                   end) ;;
                  ret (json_response 200
                         (Json.Obj
                            [ (lit "data", data_json result);
                              (lit "rate_limit", rate_limit_json rateLimitCheck) ]))
              end
        end
  end.

(** Lines 64-243: the body of the [try]. *)
Definition handle (ins : Settles) (env : Env) (req : Request)
  : JS World Response :=
  match json req with
  | InvalidJson =>
      ret (json_response 400 (error_body "Invalid JSON in request body"))
  | NullBody => throw TypeError            (* destructuring null *)
  | Body requestData =>
      let clientIP := getClientIP req in
      match input_validation requestData with
      | Some response => ret response
      | None =>
          after_validation ins env req (action requestData)
            (or_else (email requestData) [])
            (or_else (password requestData) [])
            (phoneNumber requestData) (timezone requestData) clientIP
      end
  end.

(** The response of the outer [catch]. *)
Definition internal_error : Response :=
  json_response 500 (error_body "Internal server error").

(** The function given to [serve]. Console output is not modelled. *)
Definition serve (ins : Settles) (env : Env) (req : Request)
  : JS World Response :=
  if Js.eqb (method req) (lit "OPTIONS") then
    ret {| status := 200; headers := corsHeaders; body := Text (lit "ok") |}
  else
    try_catch (handle ins env req) (fun _ => ret internal_error).

(** One request served from an empty call log, with [events] stored,
    when the inserts settle as [ins] says. *)
Definition run_when (ins : Settles) (env : Env) (events : list SecurityEvent)
    (req : Request) : World * Outcome Response :=
  serve ins env req {| calls := []; security_events := events |}.

Definition response_when (ins : Settles) (env : Env) (req : Request)
  : Outcome Response :=
  snd (run_when ins env [] req).
Definition calls_when (ins : Settles) (env : Env) (req : Request) : list Call :=
  calls (fst (run_when ins env [] req)).
Definition logged_when (ins : Settles) (env : Env) (req : Request)
  : list SecurityEvent :=
  security_events (fst (run_when ins env [] req)).

(** The same, when every insert resolves, to what [env] says. *)
Definition run (env : Env) (events : list SecurityEvent) (req : Request)
  : World * Outcome Response :=
  run_when (resolving env) env events req.

Definition response_of (env : Env) (req : Request) : Outcome Response :=
  snd (run env [] req).
Definition calls_of (env : Env) (req : Request) : list Call :=
  calls (fst (run env [] req)).
Definition logged_by (env : Env) (req : Request) : list SecurityEvent :=
  security_events (fst (run env [] req)).

(** The same services, except that inserts into [security_events] are
    answered by [ins]. *)
Definition with_insert (ins : SecurityEvent -> option jsstring) (env : Env)
  : Env :=
  {| now := now env;
     parse_date := parse_date env;
     check_rate_limit := check_rate_limit env;
     insert_security_event := ins;
     select_lockout := select_lockout env;
     auth_signUp := auth_signUp env |}.

End SecureAuth.

(** ** The client auth hook: [hooks/useAuth.tsx] *)

Module UseAuth.
Import Js Effect.
Local Open Scope js_scope.

Definition User := jsstring.
Record Session : Type := {
  access_token : jsstring;
  session_user : option User            (* [session?.user] *)
}.

(** The hook's [useState] cells. *)
Record AuthState : Type := {
  user : option User;
  session : option Session;
  loading : bool
}.

(** [{ data, error }] of [supabase.functions.invoke]. *)
Record InvokeResult : Type := {
  inv_data : option Json.value;
  inv_error : option Exn
}.

(** [{ data, error }] of [supabase.auth.signInWithPassword]. *)
Record AuthResult : Type := {
  auth_data : option Session;
  auth_error : option jsstring          (* [authError.message] *)
}.

(** The remote services; a call made inside a [try] may also reject. *)
Record Env : Type := {
  functions_invoke : jsstring -> Json.value -> Outcome InvokeResult;
  signInWithPassword : jsstring -> jsstring -> Outcome AuthResult;
  auth_signOut : Outcome (option jsstring)         (* [{ error }] *)
}.

Inductive Call : Type :=
| SetSession : option Session -> Call
| SetUser : option User -> Call
| FunctionsInvoke : jsstring -> Json.value -> Call
| SignInWithPassword : jsstring -> jsstring -> Call
| AuthSignOut : Call.

Record World : Type := {
  state : AuthState;
  calls : list Call
}.

Definition call (c : Call) : JS World unit :=
  modify (fun w => {| state := state w; calls := calls w ++ [c] |}).

Definition setSession (s : option Session) : JS World unit :=
  call (SetSession s) ;;
  modify (fun w =>
    {| state := {| user := user (state w); session := s;
                   loading := loading (state w) |};
       calls := calls w |}).

Definition setUser (u : option User) : JS World unit :=
  call (SetUser u) ;;
  modify (fun w =>
    {| state := {| user := u; session := session (state w);
                   loading := loading (state w) |};
       calls := calls w |}).

(** Lift a remote call's outcome into the computation. *)
Definition await {A} (o : Outcome A) : JS World A := fun w => (w, o).

Definition clearAuthState : JS World unit :=
  setSession None ;;
  setUser None.

(** What [signIn] and [signUp] resolve to. *)
Record Result (A : Type) : Type := {
  data : option A;
  error : option Exn
}.

Definition opt_field (key : string) (v : option jsstring)
  : list (jsstring * Json.value) :=
  match v with
  | Some s => [ (lit key, Json.Str s) ]
  | None => []
  end.

Definition signUp (env : Env) (email password : jsstring)
    (phoneNumber timezone : option jsstring)
  : JS World (Result Json.value) :=
  let body :=
    Json.Obj ([ (lit "action", Json.Str (lit "signup"));
                (lit "email", Json.Str email);
                (lit "password", Json.Str password) ]
              ++ opt_field "phoneNumber" phoneNumber
              ++ opt_field "timezone" timezone) in
  call (FunctionsInvoke (lit "secure-auth") body) ;;
  r <- await (functions_invoke env (lit "secure-auth") body) ;;
  match inv_error r with
  | Some e => ret {| data := None; error := Some e |}
  | None =>
      match inv_data r with
      | None => throw TypeError          (* [data.data] of null *)
      | Some d => ret {| data := Json.get (lit "data") d; error := None |}
      end
  end.

(** Every [Exn] is an [Error] object, so the outer [catch] hands the
    caught value on as it is. *)
Definition signIn (env : Env) (email password : jsstring)
  : JS World (Result (option Session)) :=
  try_catch
    ((* Step 1: Validate with security checks *)
     let body :=
       Json.Obj [ (lit "action", Json.Str (lit "signin"));
                  (lit "email", Json.Str email);
                  (lit "password", Json.Str password) ] in
     call (FunctionsInvoke (lit "secure-auth") body) ;;
     v <- await (functions_invoke env (lit "secure-auth") body) ;;
     match inv_error v with
     | Some validationError =>
         ret {| data := None; error := Some validationError |}
     | None =>
         let validationData := inv_data v in
         if negb (Json.truthy
                    (match validationData with
                     | Some d => Json.get (lit "validation_passed") d
                     | None => None
                     end))
         then ret {| data := None;
                     error := Some (Error (lit "Security validation failed")) |}
         else
           (* Step 2: Perform actual client-side authentication *)
           call (SignInWithPassword email password) ;;
           a <- await (signInWithPassword env email password) ;;
           match auth_error a with
           | Some message =>
               (* Handle failed login attempt tracking *)
               let tbody :=
                 Json.Obj [ (lit "email", Json.Str email);
                            (lit "error", Json.Str message) ] in
               call (FunctionsInvoke (lit "track-login-failure") tbody) ;;
               try_catch
                 (_ <- await (functions_invoke env (lit "track-login-failure") tbody) ;;
                  ret tt)
                 (fun _ => ret tt) ;;
               ret {| data := None; error := Some (Error message) |}
           | None => ret {| data := Some (auth_data a); error := None |}
           end
     end)
    (fun e => ret {| data := None; error := Some e |}).

(** [signOut] resolves to [{ error: null }]. *)
Definition signOut (env : Env) : JS World (option Exn) :=
  try_catch
    (clearAuthState ;;
     call AuthSignOut ;;
     _ <- await (auth_signOut env) ;;
     ret None)
    (fun _ => ret None).

Definition start (st : AuthState) : World := {| state := st; calls := [] |}.

End UseAuth.

(** ** The runtime's [Date] *)

Module JsDate.
Import Js Effect.
Local Open Scope Z_scope.

Record CivilDate : Type := { year : Z; month : Z; day : Z }.

(** Day count since 1970-01-01 to a date of the proleptic Gregorian
    calendar. *)
Definition civil_from_days (days : Z) : CivilDate :=
  let z := days + 719468 in
  let era := z / 146097 in
  let doe := z - era * 146097 in
  let yoe := (doe - doe / 1460 + doe / 36524 - doe / 146096) / 365 in
  let doy := doe - (365 * yoe + yoe / 4 - yoe / 100) in
  let mp := (5 * doy + 2) / 153 in
  let d := doy - (153 * mp + 2) / 5 + 1 in
  let m := if mp <? 10 then mp + 3 else mp - 9 in
  {| year := yoe + era * 400 + (if m <=? 2 then 1 else 0);
     month := m; day := d |}.

(** Decimal digits of [n], left-padded with zeros to [width]. *)
Definition digits (n : Z) : jsstring :=
  lit (DecimalString.NilZero.string_of_uint (N.to_uint (Z.to_N n))).

Definition pad (width : nat) (n : Z) : jsstring :=
  let ds := digits n in
  repeat 48%N (width - List.length ds) ++ ds.

(** [d.toISOString().split('T')[0]] for an instant [t] in ms: the UTC
    calendar date, with the expanded form outside years 0..9999. *)
Definition toISOString_date (t : Z) : jsstring :=
  let c := civil_from_days (t / 86400000) in
  let y := year c in
  (if (0 <=? y) && (y <=? 9999) then pad 4 y
   else (if y <? 0 then lit "-" else lit "+") ++ pad 6 (Z.abs y))
  ++ lit "-" ++ pad 2 (month c) ++ lit "-" ++ pad 2 (day c).

(** The runtime's time zones. A zone is a fixed offset, in minutes east
    of UTC; zones whose offset changes over time are not covered. *)
Record Zones : Type := {
  zone_offset : jsstring -> option Z;   (* [None]: not a zone name *)
  local_offset : Z                      (* the runtime's own zone *)
}.

(** A wall-clock reading: seconds since 1970-01-01T00:00:00 on the
    clock of some zone. It stands for the text
    ["M/D/YYYY, h:mm:ss AM"], which carries exactly these fields. *)
Definition WallClock := Z.

(** [t.toLocaleString("en-US", { timeZone })]: a [RangeError] for an
    unknown zone. *)
Definition toLocaleString_en_US (zs : Zones) (t : Z) (timeZone : jsstring)
  : Outcome WallClock :=
  match zone_offset zs timeZone with
  | Some off => Return (t / 1000 + off * 60)
  | None => Throw (Error (lit "Invalid time zone specified"))
  end.

(** [new Date(text)] for such a text: the fields are read as local time
    of the runtime. *)
Definition Date_of_local_text (zs : Zones) (w : WallClock) : Z :=
  (w - local_offset zs * 60) * 1000.

(** The calendar date and the second of the day a reading shows. *)
Definition wall_date (w : WallClock) : CivilDate := civil_from_days (w / 86400).
Definition wall_second_of_day (w : WallClock) : Z := w mod 86400.

End JsDate.

(** ** The journal service: [services/journalService.ts] *)

Module JournalService.
Import Js Effect JsDate.
Local Open Scope js_scope.

(** *** Tables and the photo bucket *)

Record EntryRow : Type := {
  id : jsstring;
  user_id : jsstring;
  content : jsstring;
  title : jsstring;
  source : jsstring;
  entry_date : jsstring;
  tags : option (list jsstring);        (* [None]: null *)
  created_at : Z
}.

Record PhotoRow : Type := {
  photo_id : jsstring;
  entry_id : jsstring;
  file_path : jsstring;
  file_name : jsstring
}.

Record ProfileRow : Type := {
  profile_id : jsstring;
  profile_timezone : option jsstring
}.

Record File : Type := { name : jsstring; size : Z }.

(** Requests sent to storage, and helper calls, in order. *)
Inductive Call : Type :=
| SelectEntries : jsstring -> Call                   (* by user_id *)
| SelectProfile : jsstring -> Call                   (* by id *)
| InsertEntry : jsstring -> Call                     (* by user_id *)
| UpdateEntry : jsstring -> jsstring -> Call         (* id, user_id *)
| StorageRemove : jsstring -> Call                   (* object path *)
| DeletePhotoRow : jsstring -> jsstring -> Call      (* entry_id, file_name *)
| Decrypt : jsstring -> jsstring -> Call
| Encrypt : jsstring -> jsstring -> Call
| GetPublicUrl : jsstring -> Call
| CheckPhotoLimit : jsstring -> Call
| UploadPhotos : jsstring -> jsstring -> Call.

(** Photo rows and stored objects: what the photo helpers work on. *)
Record PhotoStore : Type := {
  journal_photos : list PhotoRow;
  bucket : list jsstring
}.

Record World : Type := {
  journal_entries : list EntryRow;
  profiles : list ProfileRow;
  photos : PhotoStore;
  calls : list Call
}.

(** What the service imports and the services it talks to.
    [encrypt]/[decrypt] come from [utils/encryption], the validators from
    [utils/validation], the photo helpers from [utils/photoUpload]; none
    of the three files is among the sources, so they are parameters here.
    [fault] is the error, if any, with which storage answers a request. *)
Record Env : Type := {
  decrypt : jsstring -> jsstring -> Outcome jsstring;
  encrypt : jsstring -> jsstring -> Outcome jsstring;
  validateEntryContent : jsstring -> Outcome unit;
  validatePhotos : list File -> Outcome unit;
  validateTags : list jsstring -> Outcome (list jsstring);
  checkPhotoLimit : jsstring -> list File -> PhotoStore -> PhotoStore * Outcome unit;
  uploadPhotos : list File -> jsstring -> jsstring -> PhotoStore -> PhotoStore * Outcome unit;
  getPublicUrl : jsstring -> jsstring;
  url_pathname : jsstring -> option jsstring;    (* [new URL(s).pathname]; [None]: throws *)
  fault : Call -> option jsstring;
  new_id : list EntryRow -> jsstring;            (* id given to an inserted row *)
  new_created_at : list EntryRow -> Z;           (* created_at given to it: the
                                                    insert does not send one *)
  now : Z;                                       (* [new Date()], ms *)
  zones : Zones
}.

Definition call (c : Call) : JS World unit :=
  modify (fun w =>
    {| journal_entries := journal_entries w; profiles := profiles w;
       photos := photos w; calls := calls w ++ [c] |}).

Definition set_entries (es : list EntryRow) : JS World unit :=
  modify (fun w =>
    {| journal_entries := es; profiles := profiles w;
       photos := photos w; calls := calls w |}).

Definition set_photos (ps : PhotoStore) : JS World unit :=
  modify (fun w =>
    {| journal_entries := journal_entries w; profiles := profiles w;
       photos := ps; calls := calls w |}).

Definition await {A} (o : Outcome A) : JS World A := fun w => (w, o).

(** Run a photo helper on the photo store. *)
Definition on_photos {A} (f : PhotoStore -> PhotoStore * Outcome A) : JS World A :=
  fun w =>
    let (ps, o) := f (photos w) in
    ({| journal_entries := journal_entries w; profiles := profiles w;
        photos := ps; calls := calls w |}, o).

(** *** Queries *)

(** [.order('created_at', { ascending: false })] *)
Fixpoint insert_desc (r : EntryRow) (rs : list EntryRow) : list EntryRow :=
  match rs with
  | [] => [r]
  | x :: rs' =>
      if (created_at x <=? created_at r)%Z then r :: rs
      else x :: insert_desc r rs'
  end.

Definition order_desc (rs : list EntryRow) : list EntryRow :=
  fold_right insert_desc [] rs.

(** A selected entry with its [journal_photos]. *)
Definition Selected : Type := EntryRow * list PhotoRow.

Definition select_entries (w : World) (userId : jsstring) : list Selected :=
  List.map
    (fun r =>
       (r, filter (fun p => Js.eqb (entry_id p) (id r))
             (journal_photos (photos w))))
    (order_desc
       (filter (fun r => Js.eqb (user_id r) userId) (journal_entries w))).

(** [.single()]: the row when exactly one matches. *)
Definition select_profile (w : World) (userId : jsstring) : option ProfileRow :=
  match filter (fun p => Js.eqb (profile_id p) userId) (profiles w) with
  | [p] => Some p
  | _ => None
  end.

(** *** [fetchJournalEntries] *)

Record Entry : Type := {
  e_id : jsstring;
  e_content : jsstring;
  e_title : jsstring;
  e_source : jsstring;
  e_timestamp : Z;
  e_entry_date : jsstring;
  e_user_id : jsstring;
  e_tags : list jsstring;
  e_photos : list jsstring
}.

Definition photo_urls (env : Env) (ps : list PhotoRow) : JS World (list jsstring) :=
  map_all (fun p => call (GetPublicUrl (file_path p)) ;;
                    ret (getPublicUrl env (file_path p))) ps.

Definition make_entry (entry : EntryRow) (c t : jsstring) (urls : list jsstring)
  : Entry :=
  {| e_id := id entry;
     e_content := c;
     e_title := t;
     e_source := source entry;
     e_timestamp := created_at entry;
     e_entry_date := entry_date entry;
     e_user_id := user_id entry;
     e_tags := match tags entry with Some ts => ts | None => [] end;
     e_photos := urls |}.

(** The callback given to [data.map] (lines 39-92). *)
Definition process_entry (env : Env) (userId : jsstring) (sel : Selected)
  : JS World Entry :=
  let (entry, journal_photos) := sel in
  try_catch
    (call (Decrypt (content entry) userId) ;;
     decryptedContent <- await (decrypt env (content entry) userId) ;;
     call (Decrypt (title entry) userId) ;;
     decryptedTitle <- await (decrypt env (title entry) userId) ;;
     urls <- photo_urls env journal_photos ;;
     ret (make_entry entry decryptedContent decryptedTitle urls))
    (fun _ =>
     (* Return entry with original content if decryption fails *)
     urls <- photo_urls env journal_photos ;;
     ret (make_entry entry (content entry) (title entry) urls)).

(** The outer [catch] rethrows what it caught, and no callback returns
    null, so neither the [try] nor the final [filter] shows here. *)
Definition fetchJournalEntries (env : Env) (userId : jsstring)
  : JS World (list Entry) :=
  match userId with
  | [] => ret []
  | _ =>
      call (SelectEntries userId) ;;
      data <- gets (fun w => select_entries w userId) ;;
      match fault env (SelectEntries userId) with
      | Some e => throw (Error e)
      | None => map_all (process_entry env userId) data
      end
  end.

(** *** [createJournalEntry] *)

(** Lines 143-145: the entry date from the current instant and the
    user's zone name. *)
Definition entryDate (zs : Zones) (now : Z) (userTimezone : jsstring)
  : Outcome jsstring :=
  match toLocaleString_en_US zs now userTimezone with
  | Return text =>
      let userDate := Date_of_local_text zs text in
      Return (toISOString_date userDate)
  | Throw e => Throw e
  end.

Definition createJournalEntry (env : Env)
    (content title : jsstring) (tags : list jsstring) (photos : list File)
    (userId : jsstring)
  : JS World EntryRow :=
  match userId with
  | [] => throw (Error (lit "User not authenticated"))
  | _ =>
      (* Validate inputs *)
      await (validateEntryContent env content) ;;
      await (validatePhotos env photos) ;;
      (* Encrypt content and title before storing *)
      call (Encrypt (trim content) userId) ;;
      encryptedContent <- await (encrypt env (trim content) userId) ;;
      call (Encrypt (trim title) userId) ;;
      encryptedTitle <- await (encrypt env (trim title) userId) ;;
      (* Get user's timezone to determine the correct entry date *)
      call (SelectProfile userId) ;;
      userProfile <-
        gets (fun w =>
                match fault env (SelectProfile userId) with
                | Some _ => None
                | None => select_profile w userId
                end) ;;
      let userTimezone :=
        or_else (match userProfile with
                 | Some p => profile_timezone p
                 | None => None
                 end) (lit "UTC") in
      (* Convert current time to user's timezone *)
      entryDate <- await (entryDate (zones env) (now env) userTimezone) ;;
      checkedTags <- await (validateTags env tags) ;;
      call (InsertEntry userId) ;;
      match fault env (InsertEntry userId) with
      | Some e => throw (Error e)
      | None =>
          rows <- gets journal_entries ;;
          let entry :=
            {| id := new_id env rows;
               user_id := userId;
               content := encryptedContent;
               title := encryptedTitle;
               source := lit "web";
               entry_date := entryDate;
               tags := Some checkedTags;
               created_at := new_created_at env rows |} in
          set_entries (rows ++ [entry]) ;;
          (* Upload photos if any *)
          (match photos with
           | [] => ret tt
           | _ =>
               call (UploadPhotos (id entry) userId) ;;
               on_photos (uploadPhotos env photos (id entry) userId)
           end) ;;
          ret entry
      end
  end.

(** *** [updateJournalEntry] *)

(** [updateData]: the new content and, when given, the new tags. *)
Record UpdateData : Type := {
  u_content : jsstring;
  u_tags : option (list jsstring)
}.

(** [.update(updateData)] on one row. *)
Definition apply_update (d : UpdateData) (r : EntryRow) : EntryRow :=
  {| id := id r;
     user_id := user_id r;
     content := u_content d;
     title := title r;
     source := source r;
     entry_date := entry_date r;
     tags := match u_tags d with Some ts => Some ts | None => tags r end;
     created_at := created_at r |}.

(** [.update(d).eq('id', id).eq('user_id', userId)] on the table. *)
Definition update_entries (d : UpdateData) (entryId userId : jsstring)
    (rows : list EntryRow) : list EntryRow :=
  List.map
    (fun r =>
       if Js.eqb (id r) entryId && Js.eqb (user_id r) userId
       then apply_update d r else r)
    rows.

(** One round of the removal loop (lines 207-234). *)
Definition remove_photo (env : Env) (entryId userId photoUrl : jsstring)
  : JS World unit :=
  try_catch
    (match url_pathname env photoUrl with
     | None => throw TypeError
     | Some pathname =>
         let pathParts := split 47%N pathname in
         let fileName := last pathParts [] in
         (* Delete from storage *)
         let path := userId ++ lit "/" ++ entryId ++ lit "/" ++ fileName in
         call (StorageRemove path) ;;
         ps <- gets photos ;;
         (match fault env (StorageRemove path) with
          | Some _ => ret tt
          | None =>
              set_photos
                {| journal_photos := journal_photos ps;
                   bucket := filter (fun o => negb (Js.eqb o path)) (bucket ps) |}
          end) ;;
         (* Delete from database *)
         call (DeletePhotoRow entryId fileName) ;;
         ps <- gets photos ;;
         match fault env (DeletePhotoRow entryId fileName) with
         | Some _ => ret tt
         | None =>
             set_photos
               {| journal_photos :=
                    filter
                      (fun p => negb (Js.eqb (entry_id p) entryId
                                      && Js.eqb (file_name p) fileName))
                      (journal_photos ps);
                  bucket := bucket ps |}
         end
     end)
    (fun _ => ret tt).

(** Lines 204-243: photo removal, then photo upload. *)
Definition update_photos (env : Env) (entryId userId : jsstring)
    (removedPhotos : option (list jsstring)) (newPhotos : option (list File))
  : JS World unit :=
  (* Remove photos if any *)
  (match removedPhotos with
   | Some urls => for_each (remove_photo env entryId userId) urls
   | None => ret tt
   end) ;;
  (* Upload new photos if any *)
  match newPhotos with
  | Some (f :: fs) =>
      await (validatePhotos env (f :: fs)) ;;
      call (CheckPhotoLimit entryId) ;;
      on_photos (checkPhotoLimit env entryId (f :: fs)) ;;
      call (UploadPhotos entryId userId) ;;
      on_photos (uploadPhotos env (f :: fs) entryId userId)
  | _ => ret tt
  end.

Definition updateJournalEntry (env : Env)
    (entryId content : jsstring) (tags : option (list jsstring))
    (newPhotos : option (list File)) (removedPhotos : option (list jsstring))
    (userId : jsstring)
  : JS World unit :=
  await (validateEntryContent env content) ;;
  (* Encrypt content before updating *)
  call (Encrypt (trim content) userId) ;;
  encryptedContent <- await (encrypt env (trim content) userId) ;;
  (* Prepare update data *)
  checkedTags <-
    (match tags with
     | Some ts => ts' <- await (validateTags env ts) ;; ret (Some ts')
     | None => ret None
     end) ;;
  let updateData := {| u_content := encryptedContent; u_tags := checkedTags |} in
  (* Update the entry content and tags *)
  call (UpdateEntry entryId userId) ;;
  match fault env (UpdateEntry entryId userId) with
  | Some e => throw (Error e)
  | None =>
      rows <- gets journal_entries ;;
      set_entries (update_entries updateData entryId userId rows) ;;
      update_photos env entryId userId removedPhotos newPhotos
  end.

End JournalService.

(** ** Concrete requests, services and tables *)

Module Scenario.
Import Js.

(** *** For the gateway *)

(** It is 2024-01-01T06:00:00Z; one address is over its rate limit, one
    account is locked until 07:00:00Z, and the security log refuses
    every insert. *)
Definition gateway_env : SecureAuth.Env :=
  {| SecureAuth.now := 1704088800000;
     SecureAuth.parse_date :=
       fun s => if Js.eqb s (lit "2024-01-01T07:00:00+00:00")
                then Some 1704092400000%Z else None;
     SecureAuth.check_rate_limit :=
       fun a =>
         if Js.eqb (SecureAuth.p_identifier a) (lit "203.0.113.9:flood@example.com")
         then Some {| SecureAuth.allowed := false;
                      SecureAuth.attempts := 6;
                      SecureAuth.max_attempts := SecureAuth.p_max_attempts a;
                      SecureAuth.blocked_until :=
                        Some (lit "2024-01-01T06:15:00+00:00") |}
         else Some {| SecureAuth.allowed := true;
                      SecureAuth.attempts := 1;
                      SecureAuth.max_attempts := SecureAuth.p_max_attempts a;
                      SecureAuth.blocked_until := None |};
     SecureAuth.insert_security_event := fun _ => Some (lit "permission denied");
     SecureAuth.select_lockout :=
       fun e =>
         if Js.eqb e (lit "locked@example.com")
         then Some {| SecureAuth.locked_until :=
                        Some (lit "2024-01-01T07:00:00+00:00");
                      SecureAuth.failed_attempts := 5 |}
         else None;
     SecureAuth.auth_signUp :=
       fun a =>
         {| SecureAuth.data_user := Some (lit "user-1");
            SecureAuth.data_json :=
              Json.Obj [ (lit "user",
                          Json.Obj [ (lit "id", Json.Str (lit "user-1")) ]) ];
            SecureAuth.su_error := None |} |}.

Definition auth_request (action email password : string) : SecureAuth.AuthRequest :=
  {| SecureAuth.action := Some (lit action);
     SecureAuth.email := Some (lit email);
     SecureAuth.password := Some (lit password);
     SecureAuth.phoneNumber := None;
     SecureAuth.timezone := None |}.

Definition post (r : SecureAuth.AuthRequest) : SecureAuth.Request :=
  {| SecureAuth.method := lit "POST";
     SecureAuth.x_forwarded_for := Some (lit "203.0.113.9, 10.0.0.1");
     SecureAuth.x_real_ip := None;
     SecureAuth.cf_connecting_ip := None;
     SecureAuth.origin := None;
     SecureAuth.json := SecureAuth.Body r |}.

(** *** For the client hook *)

Definition signed_in : UseAuth.AuthState :=
  {| UseAuth.user := Some (lit "user-1");
     UseAuth.session :=
       Some {| UseAuth.access_token := lit "token";
               UseAuth.session_user := Some (lit "user-1") |};
     UseAuth.loading := false |}.

(** The gateway acknowledges, the identity provider accepts the
    password, and the remote sign-out fails. *)
Definition client_env : UseAuth.Env :=
  {| UseAuth.functions_invoke :=
       fun _ _ =>
         Effect.Return
           {| UseAuth.inv_data :=
                Some (SecureAuth.validation_passed_json
                        {| SecureAuth.allowed := true;
                           SecureAuth.attempts := 1;
                           SecureAuth.max_attempts := 5;
                           SecureAuth.blocked_until := None |});
              UseAuth.inv_error := None |};
     UseAuth.signInWithPassword :=
       fun _ _ =>
         Effect.Return
           {| UseAuth.auth_data := UseAuth.session signed_in;
              UseAuth.auth_error := None |};
     UseAuth.auth_signOut := Effect.Return (Some (lit "network error")) |}.

(** *** For the journal service *)

(** A cipher for the examples: a ciphertext is ["enc:"] followed by the
    plaintext; anything else does not decrypt. *)
Definition toy_decrypt (ciphertext userId : jsstring) : Effect.Outcome jsstring :=
  match ciphertext with
  | 101%N :: 110%N :: 99%N :: 58%N :: plain => Effect.Return plain
  | _ => Effect.Throw (Effect.Error (lit "Decryption failed"))
  end.

Definition toy_encrypt (plaintext userId : jsstring) : Effect.Outcome jsstring :=
  Effect.Return (lit "enc:" ++ plaintext).

(** The user's browser: Pacific Standard Time (UTC-8), at
    2024-01-01T06:00:00Z. *)
Definition browser_zones : JsDate.Zones :=
  {| JsDate.zone_offset :=
       fun z => if Js.eqb z (lit "UTC") then Some 0%Z
                else if Js.eqb z (lit "America/Los_Angeles") then Some (-480)%Z
                else None;
     JsDate.local_offset := (-480)%Z |}.

Definition journal_env : JournalService.Env :=
  {| JournalService.decrypt := toy_decrypt;
     JournalService.encrypt := toy_encrypt;
     JournalService.validateEntryContent := fun _ => Effect.Return tt;
     JournalService.validatePhotos := fun _ => Effect.Return tt;
     JournalService.validateTags := fun ts => Effect.Return ts;
     JournalService.checkPhotoLimit := fun _ _ ps => (ps, Effect.Return tt);
     JournalService.uploadPhotos := fun _ _ _ ps => (ps, Effect.Return tt);
     JournalService.getPublicUrl := fun path => lit "https://cdn.example/" ++ path;
     JournalService.url_pathname := fun _ => None;
     JournalService.fault := fun _ => None;
     JournalService.new_id := fun _ => lit "entry-3";
     JournalService.new_created_at := fun _ => 1704088800250%Z;
     JournalService.now := 1704088800000;
     JournalService.zones := browser_zones |}.

(** Two entries of user [u1]: the first decrypts, the second has a
    garbled content. *)
Definition journal_world : JournalService.World :=
  {| JournalService.journal_entries :=
       [ {| JournalService.id := lit "entry-1";
            JournalService.user_id := lit "u1";
            JournalService.content := lit "enc:Dear diary";
            JournalService.title := lit "enc:Monday";
            JournalService.source := lit "web";
            JournalService.entry_date := lit "2023-12-25";
            JournalService.tags := Some [lit "home"];
            JournalService.created_at := 1703500000000 |};
         {| JournalService.id := lit "entry-2";
            JournalService.user_id := lit "u1";
            JournalService.content := lit "garbled";
            JournalService.title := lit "enc:Tuesday";
            JournalService.source := lit "sms";
            JournalService.entry_date := lit "2023-12-26";
            JournalService.tags := None;
            JournalService.created_at := 1703600000000 |} ];
     JournalService.profiles :=
       [ {| JournalService.profile_id := lit "u1";
            JournalService.profile_timezone := Some (lit "America/Los_Angeles") |} ];
     JournalService.photos :=
       {| JournalService.journal_photos := []; JournalService.bucket := [] |};
     JournalService.calls := [] |}.

End Scenario.

(** ** The journal service, continued: [deleteJournalEntry] *)

Module JournalServiceDelete.
Import Js Effect JournalService.
Local Open Scope js_scope.

(** What [deleteJournalEntry] uses beyond [JournalService.Env]:
    [deleteEntryPhotos] of [utils/photoUpload], which is not among the
    sources and is a parameter acting on the photo store, and the error,
    if any, with which storage answers the delete request. *)
Record DeleteEnv : Type := {
  deleteEntryPhotos : jsstring -> PhotoStore -> PhotoStore * Outcome unit;
  delete_fault : option jsstring
}.

(** [.delete().eq('id', entryId).eq('user_id', userId)] on the table. The
    cascade on photo rows that the source's comment mentions belongs to
    the schema and is not modelled. *)
Definition delete_entries (entryId userId : jsstring) (rows : list EntryRow)
  : list EntryRow :=
  filter (fun r => negb (Js.eqb (id r) entryId && Js.eqb (user_id r) userId)) rows.

(** The requests of [deleteJournalEntry] are not added to the call log. *)
Definition deleteJournalEntry (denv : DeleteEnv) (entryId userId : jsstring)
  : JS World unit :=
  (* First delete associated photos from storage *)
  on_photos (deleteEntryPhotos denv entryId) ;;
  (* Delete the entry *)
  match delete_fault denv with
  | Some e => throw (Error e)
  | None =>
      rows <- gets journal_entries ;;
      set_entries (delete_entries entryId userId rows)
  end.

End JournalServiceDelete.

(** ** The client auth hook, continued: the session effect *)

Module UseAuthSession.
Import Js Effect UseAuth.
Local Open Scope js_scope.

(** The cells as [useState] initialises them. *)
Definition initial : AuthState :=
  {| user := None; session := None; loading := true |}.

Definition setLoading (b : bool) : JS World unit :=
  modify (fun w =>
    {| state := {| user := user (state w); session := session (state w);
                   loading := b |};
       calls := calls w |}).

(** [{ data: { session }, error }] of [supabase.auth.getSession]. *)
Record SessionResult : Type := {
  gs_session : option Session;
  gs_error : option jsstring
}.

(** [if (session?.user) { setSession(session); setUser(session.user) }
     else { clearAuthState() }] *)
Definition adopt (s : option Session) : JS World unit :=
  match s with
  | Some s' =>
      match session_user s' with
      | Some u => setSession (Some s') ;; setUser (Some u)
      | None => clearAuthState
      end
  | None => clearAuthState
  end.

(** [getInitialSession]; [mounted] is the flag as the continuation after
    the [await] reads it. *)
Definition getInitialSession (getSession : Outcome SessionResult)
    (mounted : bool) : JS World unit :=
  try_catch
    (r <- await getSession ;;
     match gs_error r with
     | Some _ =>
         if mounted then clearAuthState ;; setLoading false else ret tt
     | None =>
         if mounted then adopt (gs_session r) ;; setLoading false else ret tt
     end)
    (fun _ => if mounted then clearAuthState ;; setLoading false else ret tt).

(** The callback given to [supabase.auth.onAuthStateChange]. *)
Definition onAuthStateChange (mounted : bool) (event : jsstring)
    (s : option Session) : JS World unit :=
  if negb mounted then ret tt
  else if Js.eqb event (lit "SIGNED_OUT")
          || negb (match s with Some _ => true | None => false end) then
    clearAuthState ;; setLoading false
  else if Js.eqb event (lit "SIGNED_IN")
          || Js.eqb event (lit "TOKEN_REFRESHED") then
    adopt s ;; setLoading false
  else ret tt.

(** [isAuthenticated: !!user && !!session] *)
Definition isAuthenticated (st : AuthState) : bool :=
  match user st, session st with
  | Some _, Some _ => true
  | _, _ => false
  end.

(** What can happen to a mounted or unmounted hook, one step at a time. *)
Inductive Op : Type :=
| InitialSession : Outcome SessionResult -> bool -> Op
| AuthStateChange : bool -> jsstring -> option Session -> Op
| CallSignIn : jsstring -> jsstring -> Op
| CallSignUp : jsstring -> jsstring -> option jsstring -> option jsstring -> Op
| CallSignOut : Op.

(** The world after one step; what the step resolves or rejects with is
    the caller's business. *)
Definition after (env : Env) (op : Op) (w : World) : World :=
  match op with
  | InitialSession o mounted => fst (getInitialSession o mounted w)
  | AuthStateChange mounted event s => fst (onAuthStateChange mounted event s w)
  | CallSignIn e p => fst (signIn env e p w)
  | CallSignUp e p ph tz => fst (signUp env e p ph tz w)
  | CallSignOut => fst (signOut env w)
  end.

Definition after_all (env : Env) (ops : list Op) (w : World) : World :=
  fold_left (fun w' op => after env op w') ops w.

(** User and session are set together: both null, or the session and
    the user it carries. *)
Definition coherent (st : AuthState) : Prop :=
  match session st with
  | Some s => exists u, session_user s = Some u /\ user st = Some u
  | None => user st = None
  end.

End UseAuthSession.

(** ** The route guard: [ProtectedRoute] *)

Module ProtectedRoute.
Import Js UseAuth.

Inductive View : Type :=
| LoadingView : View                   (* the "Loading..." screen *)
| Nothing : View                       (* [null] *)
| Children : View.

Definition missing_auth (st : AuthState) : bool :=
  negb (match user st with Some _ => true | None => false end)
  || negb (match session st with Some _ => true | None => false end).

(** The effect: where it navigates, if it does. *)
Definition navigate (st : AuthState) : option jsstring :=
  if negb (loading st) && missing_auth st then Some (lit "/sign-in") else None.

(** What the component returns. *)
Definition render (st : AuthState) : View :=
  if loading st then LoadingView
  else if missing_auth st then Nothing
  else Children.

End ProtectedRoute.

(** ** The sign-up form: phone numbers *)

Module SignUpForm.
Import Js.

(** [digits.startsWith('1')] *)
Definition startsWith_1 (s : jsstring) : bool :=
  match s with
  | c :: _ => N.eqb c 49
  | [] => false
  end.

(** [cleanDigits], as a function of [digits]: if it starts with 1,
    remove it. *)
Definition cleanDigits (digits : jsstring) : jsstring :=
  if startsWith_1 digits && (Js.length digits =? 11)%Z
  then tl digits else digits.

Definition formatPhoneNumber (input : jsstring) : option jsstring :=
  (* Remove all non-digit characters *)
  let digits := keep is_digit input in
  (* Ensure we have exactly 10 digits *)
  if (Js.length (cleanDigits digits) =? 10)%Z
  then Some (lit "+1" ++ cleanDigits digits)
  else None.

(** [handlePhoneChange]: the new value of the phone field, given the
    current one and the text typed. *)
Definition handlePhoneChange (phoneNumber value : jsstring) : jsstring :=
  if (Js.length (keep is_digit value) <=? 11)%Z then value else phoneNumber.

End SignUpForm.

(** ** More concrete requests, services and tables *)

Module MoreScenarios.
Import Js.

(** *** For the gateway *)

(** One hour later: 2024-01-01T08:00:00Z, when the lock of
    [Scenario.gateway_env] has run out. *)
Definition later_env : SecureAuth.Env :=
  {| SecureAuth.now := 1704096000000;
     SecureAuth.parse_date := SecureAuth.parse_date Scenario.gateway_env;
     SecureAuth.check_rate_limit := SecureAuth.check_rate_limit Scenario.gateway_env;
     SecureAuth.insert_security_event :=
       SecureAuth.insert_security_event Scenario.gateway_env;
     SecureAuth.select_lockout := SecureAuth.select_lockout Scenario.gateway_env;
     SecureAuth.auth_signUp := SecureAuth.auth_signUp Scenario.gateway_env |}.

(** The rate limiter is down: its call returns no data. *)
Definition silent_env : SecureAuth.Env :=
  {| SecureAuth.now := SecureAuth.now Scenario.gateway_env;
     SecureAuth.parse_date := SecureAuth.parse_date Scenario.gateway_env;
     SecureAuth.check_rate_limit := fun _ => None;
     SecureAuth.insert_security_event :=
       SecureAuth.insert_security_event Scenario.gateway_env;
     SecureAuth.select_lockout := SecureAuth.select_lockout Scenario.gateway_env;
     SecureAuth.auth_signUp := SecureAuth.auth_signUp Scenario.gateway_env |}.

(** A request that reached the gateway without x-forwarded-for. *)
Definition direct (r : SecureAuth.AuthRequest) : SecureAuth.Request :=
  {| SecureAuth.method := lit "POST";
     SecureAuth.x_forwarded_for := None;
     SecureAuth.x_real_ip := Some (lit "192.0.2.44");
     SecureAuth.cf_connecting_ip := Some (lit "198.51.100.7");
     SecureAuth.origin := Some (lit "https://app.example");
     SecureAuth.json := SecureAuth.Body r |}.

(** *** For the client hook *)

Definition a_session : UseAuth.Session :=
  {| UseAuth.access_token := lit "token";
     UseAuth.session_user := Some (lit "user-1") |}.

(** The gateway acknowledges, the identity provider refuses the
    password, and track-login-failure is unreachable. *)
Definition rejecting_env : UseAuth.Env :=
  {| UseAuth.functions_invoke :=
       fun name _ =>
         if Js.eqb name (lit "secure-auth")
         then UseAuth.functions_invoke Scenario.client_env name Json.Null
         else Effect.Throw (Effect.Error (lit "Failed to fetch"));
     UseAuth.signInWithPassword :=
       fun _ _ =>
         Effect.Return
           {| UseAuth.auth_data := None;
              UseAuth.auth_error := Some (lit "Invalid login credentials") |};
     UseAuth.auth_signOut := Effect.Return None |}.

(** A mounted hook's life: the initial check finds the session, a
    sign-in, a token refresh, a user update, a sign-out. *)
Definition a_visit : list UseAuthSession.Op :=
  [ UseAuthSession.InitialSession
      (Effect.Return {| UseAuthSession.gs_session := Some a_session;
                        UseAuthSession.gs_error := None |}) true;
    UseAuthSession.CallSignIn (lit "ann@example.com") (lit "pw");
    UseAuthSession.AuthStateChange true (lit "TOKEN_REFRESHED") (Some a_session);
    UseAuthSession.AuthStateChange true (lit "USER_UPDATED") (Some a_session);
    UseAuthSession.CallSignOut ].

(** What still arrives after the unmount. *)
Definition after_unmount : list UseAuthSession.Op :=
  [ UseAuthSession.InitialSession
      (Effect.Return {| UseAuthSession.gs_session := Some a_session;
                        UseAuthSession.gs_error := None |}) false;
    UseAuthSession.AuthStateChange false (lit "SIGNED_IN") (Some a_session);
    UseAuthSession.AuthStateChange false (lit "SIGNED_OUT") None ].

(** *** For the journal service *)

(** The tables of [Scenario.journal_world], with a timezone in the
    profile that no runtime knows. *)
Definition stray_world : JournalService.World :=
  {| JournalService.journal_entries :=
       JournalService.journal_entries Scenario.journal_world;
     JournalService.profiles :=
       [ {| JournalService.profile_id := lit "u1";
            JournalService.profile_timezone := Some (lit "Mars/Olympus") |} ];
     JournalService.photos := JournalService.photos Scenario.journal_world;
     JournalService.calls := [] |}.

(** The photo helper finds nothing to delete and storage accepts the
    delete request. *)
Definition delete_env : JournalServiceDelete.DeleteEnv :=
  {| JournalServiceDelete.deleteEntryPhotos := fun _ ps => (ps, Effect.Return tt);
     JournalServiceDelete.delete_fault := None |}.

End MoreScenarios.

(* ===================================================================== *)
(** * Part II: theorems                                                   *)
(* ===================================================================== *)

(** ** The matcher decides the language *)

Module RegexFacts.
Import Js Regex.

Create HintDb lang.
#[local] Hint Constructors Lang : lang.

Lemma nullable_Lang (r : regex) : nullable r = true <-> Lang r [].
Proof.
  induction r; simpl; split; intros H; auto with lang; try discriminate.
  - inversion H.
  - inversion H.
  - apply andb_true_iff in H as [Ha Hb].
    change (@nil char) with (@nil char ++ []).
    constructor; [apply IHr1 | apply IHr2]; assumption.
  - inversion H as [| | a b s t Hs Ht Heq | | | |]; subst.
    match goal with E : _ ++ _ = [] |- _ => apply app_eq_nil in E as [-> ->] end.
    apply andb_true_iff; split; [apply IHr1 | apply IHr2]; assumption.
  - apply orb_true_iff in H as [Ha | Hb];
      [apply LAltL, IHr1 | apply LAltR, IHr2]; assumption.
  - apply orb_true_iff.
    inversion H; subst; [left; apply IHr1 | right; apply IHr2]; assumption.
Qed.

(** A non-empty word of [a*] starts with a non-empty word of [a]. *)
Lemma Lang_Star_cons (a : regex) (w : jsstring) :
  Lang (Star a) w ->
  forall c s, w = c :: s ->
  exists s1 s2, s = s1 ++ s2 /\ Lang a (c :: s1) /\ Lang (Star a) s2.
Proof.
  intros H. remember (Star a) as r eqn:Hr.
  induction H as [| | | | | a0 | a0 s0 t Hs _ Ht IHt]; try discriminate.
  injection Hr as ->. intros c s Hw.
  destruct s0 as [| c0 s0'].
  - simpl in Hw. apply (IHt eq_refl c s Hw).
  - simpl in Hw. injection Hw as -> <-.
    exists s0', t. auto.
Qed.

Lemma deriv_Lang (c : char) (r : regex) :
  forall s, Lang (deriv c r) s <-> Lang r (c :: s).
Proof.
  induction r as [| | p | a IHa b IHb | a IHa b IHb | a IHa];
    intros s; simpl.
  - split; intros H; inversion H.
  - split; intros H; inversion H.
  - destruct (p c) eqn:Hp; split; intros H; inversion H; subst.
    + constructor; assumption.
    + constructor.
    + congruence.
  - split.
    + intros H. destruct (nullable a) eqn:Hn.
      * inversion H as [| | | a0 b0 s0 H1 | a0 b0 s0 H1 | |]; subst.
        -- inversion H1 as [| | a1 b1 s1 t1 Hs Ht | | | |]; subst.
           change (c :: s1 ++ t1) with ((c :: s1) ++ t1).
           constructor; [apply IHa |]; assumption.
        -- change (c :: s) with ([] ++ c :: s).
           constructor; [apply nullable_Lang | apply IHb]; assumption.
      * inversion H as [| | a1 b1 s1 t1 Hs Ht | | | |]; subst.
        change (c :: s1 ++ t1) with ((c :: s1) ++ t1).
        constructor; [apply IHa |]; assumption.
    + intros H.
      inversion H as [| | a1 b1 s1 t1 Hs Ht Heq | | | |]; subst.
      destruct s1 as [| c1 s1'];
        match goal with E : _ ++ _ = _ :: _ |- _ => simpl in E end.
      * subst t1.
        apply nullable_Lang in Hs. rewrite Hs.
        apply LAltR, IHb. assumption.
      * match goal with E : _ :: _ = _ :: _ |- _ => injection E as -> <- end.
        apply IHa in Hs.
        destruct (nullable a); [apply LAltL |]; constructor; assumption.
  - split; intros H; inversion H; subst;
      (apply LAltL, IHa; assumption) || (apply LAltR, IHb; assumption).
  - split.
    + intros H.
      inversion H as [| | a1 b1 s1 t1 Hs Ht | | | |]; subst.
      change (c :: s1 ++ t1) with ((c :: s1) ++ t1).
      apply LStarS; [apply IHa |]; assumption.
    + intros H.
      destruct (Lang_Star_cons H eq_refl) as (s1 & s2 & -> & H1 & H2).
      constructor; [apply IHa |]; assumption.
Qed.

Lemma matches_Lang (r : regex) (s : jsstring) :
  matches r s = true <-> Lang r s.
Proof.
  revert r. induction s as [| c s IH]; intros r; simpl.
  - apply nullable_Lang.
  - rewrite IH. apply deriv_Lang.
Qed.

Lemma Lang_Any (s : jsstring) : Lang Any s.
Proof.
  induction s as [| c s IH]; [constructor |].
  change (c :: s) with ([c] ++ s).
  apply LStarS; [constructor; reflexivity | exact IH].
Qed.

(** Searching for one character class is [existsb]. *)
Lemma search_Cls (p : char -> bool) (s : jsstring) :
  search (Cls p) s = existsb p s.
Proof.
  apply eq_true_iff_eq. unfold search.
  rewrite matches_Lang, existsb_exists. split.
  - intros H.
    inversion H as [| | a1 b1 s1 t1 _ Ht | | | |]; subst.
    inversion Ht as [| | a2 b2 s2 t2 Hc _ | | | |]; subst.
    inversion Hc; subst.
    exists c. split; [| assumption].
    apply in_or_app. right. left. reflexivity.
  - intros (c & Hin & Hp).
    apply in_split in Hin as (l1 & l2 & ->).
    constructor; [apply Lang_Any |].
    change (c :: l2) with ([c] ++ l2).
    constructor; [constructor; assumption | apply Lang_Any].
Qed.

End RegexFacts.

(** ** The authentication gateway *)

Module SecureAuthFacts.
Import Js Regex Effect SecureAuth RegexFacts.

(** *** Password strength *)

Lemma minLength_spec (p : jsstring) :
  minLength p = true <-> (8 <= List.length p)%nat.
Proof.
  unfold minLength, Js.length. rewrite Z.geb_le. lia.
Qed.

Lemma has_class (cls : char -> bool) (p : jsstring) :
  search (Cls cls) p = true <-> exists c, In c p /\ cls c = true.
Proof. rewrite search_Cls. apply existsb_exists. Qed.

Lemma validatePassword_spec (p : jsstring) :
  validatePassword p = true <->
  (8 <= List.length p)%nat
  /\ (exists c, In c p /\ is_upper c = true)
  /\ (exists c, In c p /\ is_lower c = true)
  /\ (exists c, In c p /\ is_digit c = true).
Proof.
  unfold validatePassword, hasUpper, hasLower, hasNumber.
  rewrite !andb_true_iff, minLength_spec, !has_class. tauto.
Qed.

(** C5, the claim's reading of "abcdefg1" refuted: the password has
    eight code units, so the length test accepts it; it is not "too
    short at 7 characters". *)
Lemma C5_abcdefg1_is_not_too_short :
  Js.length (lit "abcdefg1") = 8%Z
  /\ minLength (lit "abcdefg1") = true
  /\ ~ (Js.length (lit "abcdefg1") = 7%Z).
Proof. repeat split; vm_compute; discriminate. Qed.

(** C5 (amended): [validatePassword] accepts exactly the passwords of at
    least 8 code units that contain a letter in A-Z, a letter in a-z and
    a digit; "abcdefg1" is rejected, and the test it fails is the
    upper-case one (length, lower-case and digit tests accept it);
    "Abcdefg1" is accepted. *)
Theorem C5_password_strength :
  (forall p : jsstring,
      validatePassword p = true <->
      (8 <= Js.length p)%Z
      /\ (exists c, In c p /\ (65 <= c <= 90)%N)
      /\ (exists c, In c p /\ (97 <= c <= 122)%N)
      /\ (exists c, In c p /\ (48 <= c <= 57)%N))
  /\ validatePassword (lit "abcdefg1") = false
  /\ (minLength (lit "abcdefg1") = true
      /\ hasUpper (lit "abcdefg1") = false
      /\ hasLower (lit "abcdefg1") = true
      /\ hasNumber (lit "abcdefg1") = true)
  /\ validatePassword (lit "Abcdefg1") = true.
Proof.
  split; [| repeat split; vm_compute; reflexivity].
  intros p. rewrite validatePassword_spec.
  assert (Hr : forall lo hi c, in_range lo hi c = true <-> (lo <= c <= hi)%N).
  { intros lo hi c. unfold in_range.
    rewrite andb_true_iff, !N.leb_le. tauto. }
  unfold is_upper, is_lower, is_digit, Js.length.
  split.
  - intros (Hl & (u & Hu & Hu') & (l & Hlo & Hlo') & (d & Hd & Hd')).
    split; [lia |].
    split; [exists u | split; [exists l | exists d]];
      (split; [assumption | apply Hr; assumption]).
  - intros (Hl & (u & Hu & Hu') & (l & Hlo & Hlo') & (d & Hd & Hd')).
    split; [lia |].
    split; [exists u | split; [exists l | exists d]];
      (split; [assumption | apply Hr; assumption]).
Qed.

(** *** The gates *)

#[local] Arguments lit : simpl never.
#[local] Arguments getClientIP : simpl never.
#[local] Arguments json_response : simpl never.

(** A request that is not a preflight and passes input validation runs
    the code from the rate-limit check on, inside the [try]. *)
Lemma serve_validated (ins : Settles) (env : Env) (req : Request)
    (r : AuthRequest) (w : World) :
  Js.eqb (method req) (lit "OPTIONS") = false ->
  json req = Body r ->
  input_validation r = None ->
  serve ins env req w =
  try_catch
    (after_validation ins env req (action r) (or_else (email r) [])
       (or_else (password r) []) (phoneNumber r) (timezone r)
       (getClientIP req))
    (fun _ => ret internal_error) w.
Proof.
  intros Hm Hj Hv. unfold serve, handle, try_catch.
  rewrite Hm, Hj, Hv. reflexivity.
Qed.

(** What input validation guarantees. *)
Lemma input_validation_None (r : AuthRequest) :
  input_validation r = None ->
  (is_signin (action r) = true \/ is_signup (action r) = true)
  /\ Js.truthy (email r) = true
  /\ validateEmail (or_else (email r) []) = true
  /\ Js.truthy (password r) = true
  /\ (is_signup (action r) = true ->
      validatePassword (or_else (password r) []) = true)
  /\ (Js.truthy (phoneNumber r) = true ->
      validatePhoneNumber (or_else (phoneNumber r) []) = true).
Proof.
  unfold input_validation.
  destruct (Js.truthy (action r)); simpl; [| discriminate].
  destruct (is_signin (action r)) eqn:Hin, (is_signup (action r)) eqn:Hup;
    simpl; try discriminate;
    destruct (Js.truthy (email r)); simpl; try discriminate;
    destruct (validateEmail (or_else (email r) [])); simpl; try discriminate;
    destruct (Js.truthy (password r)); simpl; try discriminate;
    destruct (validatePassword (or_else (password r) [])); simpl;
      try discriminate;
    destruct (Js.truthy (phoneNumber r)); simpl; try discriminate;
    destruct (validatePhoneNumber (or_else (phoneNumber r) [])); simpl;
      try discriminate;
    intros _; repeat split; auto; discriminate.
Qed.

Lemma truthy_or_else (o : option jsstring) :
  Js.truthy o = true -> o = Some (or_else o []).
Proof. destruct o as [[| c s] |]; simpl; intros H; congruence. Qed.

(** Reduce the handler's monadic code without touching literals. *)
Ltac step :=
  cbv beta iota zeta
      delta [after_validation insert_event resolving call bind modify ret throw
             try_catch];
  cbn [negb fst snd calls security_events].

Ltac env_fields :=
  cbn [with_insert now parse_date check_rate_limit insert_security_event
       select_lockout auth_signUp].

Section Gate.
Variables (env : Env) (req : Request).
Variables (action : option jsstring) (email password : jsstring).
Variables (phoneNumber timezone : option jsstring) (clientIP : jsstring).

Let key : jsstring := clientIP ++ lit ":" ++ email.
Let args : RateLimitArgs :=
  {| p_identifier := key;
     p_endpoint :=
       if is_signin action then lit "auth_signin" else lit "auth_signup";
     p_max_attempts := if is_signin action then 5 else 3;
     p_window_minutes := 15 |}.
Let go : JS World Response :=
  after_validation (resolving env) env req action email password phoneNumber
    timezone clientIP.

(** The event written when the limiter refuses. *)
Let refused (rl : RateLimitCheck) : SecurityEvent :=
  {| event_type := lit "rate_limit_exceeded";
     user_id := None;
     identifier := key;
     details :=
       Json.Obj [ (lit "endpoint",
                   Json.Str (if is_signin action then lit "auth_signin"
                             else lit "auth_signup"));
                  (lit "ip", Json.Str clientIP);
                  (lit "email", Json.Str email);
                  (lit "blocked_until", Json.of_opt_string (blocked_until rl)) ];
     severity := medium |}.

Lemma gate_first_call (w : World) :
  exists rest, calls (fst (go w)) = calls w ++ RpcCheckRateLimit args :: rest.
Proof.
  subst go. step. fold key. fold args.
  destruct (check_rate_limit env args) as [rl |].
  2:{ exists []. reflexivity. }
  destruct (allowed rl); step.
  - destruct (is_signin action); step.
    + destruct (lock_active env (select_lockout env email)); step;
        rewrite <- app_assoc; eexists; reflexivity.
    + destruct (su_error (auth_signUp env _)); step.
      * rewrite <- app_assoc; eexists; reflexivity.
      * destruct (data_user (auth_signUp env _)); step.
        -- destruct (insert_security_event env _); step;
             rewrite <- !app_assoc; eexists; reflexivity.
        -- rewrite <- app_assoc; eexists; reflexivity.
  - destruct (insert_security_event env _); step;
      rewrite <- app_assoc; eexists; reflexivity.
Qed.

Lemma gate_no_answer (w : World) :
  check_rate_limit env args = None ->
  go w = ({| calls := calls w ++ [RpcCheckRateLimit args];
             security_events := security_events w |}, Throw TypeError).
Proof.
  intros Hc. subst go. step. fold key. fold args. rewrite Hc. reflexivity.
Qed.

Lemma gate_rate_limited (w : World) (rl : RateLimitCheck) :
  check_rate_limit env args = Some rl ->
  allowed rl = false ->
  calls (fst (go w)) =
    calls w ++ [RpcCheckRateLimit args; InsertSecurityEvent (refused rl)]
  /\ security_events (fst (go w)) =
       security_events w ++
       (match insert_security_event env (refused rl) with
        | None => [refused rl]
        | Some _ => []
        end)
  /\ snd (go w) =
       Return
         (json_response 429
            (Json.Obj
               [ (lit "error",
                  Json.Str (lit "Too many attempts. Please try again later."));
                 (lit "blocked_until", Json.of_opt_string (blocked_until rl)) ])).
Proof.
  intros Hc Ha. subst go. unfold refused. step. fold key. fold args.
  rewrite Hc, Ha. step.
  destruct (insert_security_event env _); step;
    rewrite <- app_assoc, ?app_nil_r; repeat split; reflexivity.
Qed.

Lemma gate_locked (w : World) (rl : RateLimitCheck) :
  is_signin action = true ->
  check_rate_limit env args = Some rl ->
  allowed rl = true ->
  lock_active env (select_lockout env email) = true ->
  go w =
  ({| calls := calls w ++ [RpcCheckRateLimit args; SelectLockout email];
      security_events := security_events w |},
   Return
     (json_response 423
        (Json.Obj
           [ (lit "error",
              Json.Str (lit "Account temporarily locked due to multiple failed login attempts"));
             (lit "locked_until",
              Json.of_opt_string
                (match select_lockout env email with
                 | Some row => locked_until row
                 | None => None
                 end)) ]))).
Proof.
  intros Hs Hc Ha Hl. subst go. step. fold key. fold args.
  rewrite Hc, Ha. step. rewrite Hs. step. rewrite Hl. step.
  rewrite <- app_assoc. reflexivity.
Qed.

Lemma gate_signin_passed (w : World) (rl : RateLimitCheck) :
  is_signin action = true ->
  check_rate_limit env args = Some rl ->
  allowed rl = true ->
  lock_active env (select_lockout env email) = false ->
  go w =
  ({| calls := calls w ++ [RpcCheckRateLimit args; SelectLockout email];
      security_events := security_events w |},
   Return (json_response 200 (validation_passed_json rl))).
Proof.
  intros Hs Hc Ha Hl. subst go. step. fold key. fold args.
  rewrite Hc, Ha. step. rewrite Hs. step. rewrite Hl. step.
  rewrite <- app_assoc. reflexivity.
Qed.

(** Only the sign-in acknowledgment carries a truthy
    [validation_passed]. *)
Lemma gate_validation_passed_only (w : World) (resp : Response) (v : Json.value) :
  snd (go w) = Return resp ->
  body resp = Stringify v ->
  Json.truthy (Json.get (lit "validation_passed") v) = true ->
  is_signin action = true
  /\ exists rl, check_rate_limit env args = Some rl
                /\ allowed rl = true
                /\ lock_active env (select_lockout env email) = false
                /\ resp = json_response 200 (validation_passed_json rl).
Proof.
  subst go. step. fold key. fold args.
  destruct (check_rate_limit env args) as [rl |]; [| discriminate].
  destruct (allowed rl) eqn:Ha; step.
  - destruct (is_signin action) eqn:Hs; step.
    + destruct (lock_active env (select_lockout env email)) eqn:Hl; step;
        intros H Hb Ht; injection H as <-.
      * unfold json_response in Hb; cbn [body] in Hb; injection Hb as <-.
        vm_compute in Ht. discriminate.
      * split; [reflexivity |]. exists rl. auto.
    + destruct (su_error (auth_signUp env _)); step.
      * intros H Hb Ht; injection H as <-.
        unfold json_response in Hb; cbn [body] in Hb; injection Hb as <-.
        vm_compute in Ht. discriminate.
      * destruct (data_user (auth_signUp env _)); step;
          [destruct (insert_security_event env _); step |];
          intros H Hb Ht; injection H as <-;
          unfold json_response in Hb; cbn [body] in Hb; injection Hb as <-;
          vm_compute in Ht; discriminate.
  - destruct (insert_security_event env _); step;
      intros H Hb Ht; injection H as <-;
      unfold json_response in Hb; cbn [body] in Hb; injection Hb as <-;
      vm_compute in Ht; discriminate.
Qed.

End Gate.

(** The outer [try]/[catch] keeps the world and turns a throw into the
    500 response. *)
Lemma caught_world (m : JS World Response) (w : World) :
  fst (try_catch m (fun _ => ret internal_error) w) = fst (m w).
Proof. unfold try_catch, ret. destruct (m w) as [w' [a | e]]; reflexivity. Qed.

Lemma caught_answer (m : JS World Response) (w : World) :
  snd (try_catch m (fun _ => ret internal_error) w) =
  match snd (m w) with
  | Return a => Return a
  | Throw _ => Return internal_error
  end.
Proof. unfold try_catch, ret. destruct (m w) as [w' [a | e]]; reflexivity. Qed.

Ltac validated Hm Hj Hv :=
  unfold response_of, calls_of, logged_by, run,
         response_when, calls_when, logged_when, run_when;
  rewrite (serve_validated _ _ _ _ Hm Hj Hv);
  rewrite ?caught_world, ?caught_answer.

(** C4: a request that reaches the rate-limit gate calls the rate
    limiter first, keyed by clientAddress:email, with 5 attempts for
    sign-in, 3 for sign-up and a 15-minute window; when the limiter
    answers "not allowed", the gateway inserts one rate_limit_exceeded
    event of severity medium and answers 429 with blocked_until. *)
Theorem C4_rate_limit_gate (env : Env) (req : Request) (r : AuthRequest)
    (e : jsstring) :
  Js.eqb (method req) (lit "OPTIONS") = false ->
  json req = Body r ->
  input_validation r = None ->
  email r = Some e ->
  let key := getClientIP req ++ lit ":" ++ e in
  let args :=
    {| p_identifier := key;
       p_endpoint :=
         if is_signin (action r) then lit "auth_signin" else lit "auth_signup";
       p_max_attempts := if is_signin (action r) then 5 else 3;
       p_window_minutes := 15 |} in
  (is_signin (action r) = false -> is_signup (action r) = true)
  /\ (exists rest, calls_of env req = RpcCheckRateLimit args :: rest)
  /\ (forall rl,
        check_rate_limit env args = Some rl ->
        allowed rl = false ->
        exists ev,
          calls_of env req = [RpcCheckRateLimit args; InsertSecurityEvent ev]
          /\ event_type ev = lit "rate_limit_exceeded"
          /\ severity ev = medium
          /\ identifier ev = key
          /\ response_of env req =
             Return
               (json_response 429
                  (Json.Obj
                     [ (lit "error",
                        Json.Str (lit "Too many attempts. Please try again later."));
                       (lit "blocked_until",
                        Json.of_opt_string (blocked_until rl)) ]))).
Proof.
  intros Hm Hj Hv He key args.
  destruct (input_validation_None _ Hv) as (Hact & Hem & _).
  assert (Hor : or_else (email r) [] = e).
  { apply truthy_or_else in Hem. congruence. }
  split; [destruct Hact; congruence |].
  split.
  - validated Hm Hj Hv. rewrite Hor.
    destruct (gate_first_call env req (action r) e (or_else (password r) [])
                (phoneNumber r) (timezone r) (getClientIP req)
                {| calls := []; security_events := [] |}) as [rest Hrest].
    exists rest. exact Hrest.
  - intros rl Hc Ha. validated Hm Hj Hv. rewrite Hor.
    destruct (gate_rate_limited env req (action r) e (or_else (password r) [])
                (phoneNumber r) (timezone r) (getClientIP req)
                {| calls := []; security_events := [] |} Hc Ha)
      as (Hcalls & _ & Hans).
    eexists. split; [exact Hcalls |].
    rewrite Hans. repeat split; reflexivity.
Qed.

(** C2: a sign-in request that passed input validation and the rate
    limit, for an email whose lockout row has a locked_until in the
    future, is answered 423 with that locked_until; the gateway has then
    called the rate limiter and read the lockout row and nothing else (no
    identity-provider call), and the answer differs from every 429
    rate-limit answer. *)
Theorem C2_lockout_after_rate_limit (env : Env) (req : Request)
    (r : AuthRequest) (e : jsstring) (rl : RateLimitCheck)
    (row : LockoutRow) (until : jsstring) (t : Z) :
  Js.eqb (method req) (lit "OPTIONS") = false ->
  json req = Body r ->
  input_validation r = None ->
  is_signin (action r) = true ->
  email r = Some e ->
  let args :=
    {| p_identifier := getClientIP req ++ lit ":" ++ e;
       p_endpoint := lit "auth_signin";
       p_max_attempts := 5;
       p_window_minutes := 15 |} in
  check_rate_limit env args = Some rl ->
  allowed rl = true ->
  select_lockout env e = Some row ->
  locked_until row = Some until ->
  until <> [] ->
  parse_date env until = Some t ->
  (now env < t)%Z ->
  response_of env req =
    Return
      (json_response 423
         (Json.Obj
            [ (lit "error",
               Json.Str (lit "Account temporarily locked due to multiple failed login attempts"));
              (lit "locked_until", Json.Str until) ]))
  /\ calls_of env req = [RpcCheckRateLimit args; SelectLockout e]
  /\ (forall su, ~ In (AuthSignUp su) (calls_of env req))
  /\ (forall resp, response_of env req = Return resp ->
                   status resp = 423%Z /\ status resp <> 429%Z).
Proof.
  intros Hm Hj Hv Hs He args Hc Ha Hrow Hu Hne Hp Ht.
  destruct (input_validation_None _ Hv) as (_ & Hem & _).
  assert (Hor : or_else (email r) [] = e).
  { apply truthy_or_else in Hem. congruence. }
  assert (Hlock : lock_active env (select_lockout env e) = true).
  { unfold lock_active. rewrite Hrow, Hu.
    destruct until as [| c u]; [congruence |]. cbn [Js.truthy or_else andb].
    rewrite Hp. apply Z.gtb_lt. exact Ht. }
  pose proof (@gate_locked env req (action r) e (or_else (password r) [])
                (phoneNumber r) (timezone r) (getClientIP req)
                {| calls := []; security_events := [] |} rl Hs) as Hgo.
  cbv zeta in Hgo. rewrite Hs in Hgo. specialize (Hgo Hc Ha Hlock).
  rewrite Hrow, Hu in Hgo. cbn [Json.of_opt_string] in Hgo.
  assert (Hcalls : calls_of env req = [RpcCheckRateLimit args; SelectLockout e]).
  { validated Hm Hj Hv. rewrite Hor, Hgo. reflexivity. }
  assert (Hans : response_of env req =
                 Return
                   (json_response 423
                      (Json.Obj
                         [ (lit "error",
                            Json.Str (lit "Account temporarily locked due to multiple failed login attempts"));
                           (lit "locked_until", Json.Str until) ]))).
  { validated Hm Hj Hv. rewrite Hor, Hgo. reflexivity. }
  split; [exact Hans |]. split; [exact Hcalls |]. split.
  - intros su. rewrite Hcalls. intros [H | [H | []]]; discriminate.
  - intros resp. rewrite Hans. intros H. injection H as <-.
    split; [reflexivity | discriminate].
Qed.

(** Every answer of input validation is a 400 with an [error] field. *)
Lemma input_validation_Some (r : AuthRequest) (resp : Response) :
  input_validation r = Some resp ->
  exists msg, resp = json_response 400 (error_body msg).
Proof.
  unfold input_validation.
  repeat match goal with
         | |- context [if ?b then _ else _] => destruct b
         end;
    intros H; try discriminate; injection H as <-; eexists; reflexivity.
Qed.

Lemma error_body_not_passed (msg : string) :
  Json.truthy (Json.get (lit "validation_passed") (error_body msg)) = false.
Proof. reflexivity. Qed.

(** A sign-in that passes validation, rate limit and lockout check gets
    the acknowledgment, after exactly two calls. *)
Lemma signin_acknowledged (env : Env) (req : Request) (r : AuthRequest)
    (e : jsstring) (rl : RateLimitCheck) :
  Js.eqb (method req) (lit "OPTIONS") = false ->
  json req = Body r ->
  input_validation r = None ->
  is_signin (action r) = true ->
  email r = Some e ->
  let args :=
    {| p_identifier := getClientIP req ++ lit ":" ++ e;
       p_endpoint := lit "auth_signin";
       p_max_attempts := 5;
       p_window_minutes := 15 |} in
  check_rate_limit env args = Some rl ->
  allowed rl = true ->
  lock_active env (select_lockout env e) = false ->
  response_of env req = Return (json_response 200 (validation_passed_json rl))
  /\ calls_of env req = [RpcCheckRateLimit args; SelectLockout e].
Proof.
  intros Hm Hj Hv Hs He args Hc Ha Hl.
  destruct (input_validation_None _ Hv) as (_ & Hem & _).
  assert (Hor : or_else (email r) [] = e).
  { apply truthy_or_else in Hem. congruence. }
  pose proof (@gate_signin_passed env req (action r) e (or_else (password r) [])
                (phoneNumber r) (timezone r) (getClientIP req)
                {| calls := []; security_events := [] |} rl Hs) as Hgo.
  cbv zeta in Hgo. rewrite Hs in Hgo. specialize (Hgo Hc Ha Hl).
  split; validated Hm Hj Hv; rewrite Hor, Hgo; reflexivity.
Qed.

(** Whatever the request, an answer with a truthy [validation_passed] is
    the acknowledgment of a validated sign-in that passed both gates. *)
Lemma validation_passed_only_when_acknowledged (env : Env) (req : Request)
    (resp : Response) (v : Json.value) :
  response_of env req = Return resp ->
  body resp = Stringify v ->
  Json.truthy (Json.get (lit "validation_passed") v) = true ->
  exists r rl,
    json req = Body r
    /\ input_validation r = None
    /\ is_signin (action r) = true
    /\ allowed rl = true
    /\ lock_active env (select_lockout env (or_else (email r) [])) = false
    /\ resp = json_response 200 (validation_passed_json rl).
Proof.
  unfold response_of, run, run_when, serve.
  destruct (Js.eqb (method req) (lit "OPTIONS")).
  { cbv [ret snd]. intros H Hb. injection H as <-. discriminate. }
  rewrite caught_answer. unfold handle.
  destruct (json req) as [| | r] eqn:Hj.
  - cbv [ret snd]. intros H Hb Ht. injection H as <-.
    unfold json_response in Hb; cbn [body] in Hb; injection Hb as <-.
    discriminate.
  - cbv [throw snd]. intros H Hb Ht. injection H as <-.
    unfold internal_error, json_response in Hb; cbn [body] in Hb.
    injection Hb as <-. discriminate.
  - destruct (input_validation r) as [resp0 |] eqn:Hv.
    + cbv [ret snd]. intros H Hb Ht. injection H as <-.
      apply input_validation_Some in Hv as [msg ->].
      unfold json_response in Hb; cbn [body] in Hb; injection Hb as <-.
      rewrite error_body_not_passed in Ht. discriminate.
    + destruct (snd (after_validation (resolving env) env req (action r)
                       (or_else (email r) [])
                       (or_else (password r) []) (phoneNumber r) (timezone r)
                       (getClientIP req)
                       {| calls := []; security_events := [] |}))
        as [resp1 | ex] eqn:Hgo.
      * intros H Hb Ht. injection H as <-.
        destruct (gate_validation_passed_only _ _ _ _ _ _ _ _ _ Hgo Hb Ht)
          as (Hs & rl & _ & Ha & Hl & ->).
        exists r, rl. auto 10.
      * intros H Hb Ht. injection H as <-.
        unfold internal_error, json_response in Hb; cbn [body] in Hb.
        injection Hb as <-. discriminate.
Qed.

(** *** How the inserts settle *)

Section Settling.
Variables (ins : Settles) (env : Env) (req : Request).
Variables (action : option jsstring) (email password : jsstring).
Variables (phoneNumber timezone : option jsstring) (clientIP : jsstring).

Let key : jsstring := clientIP ++ lit ":" ++ email.
Let args : RateLimitArgs :=
  {| p_identifier := key;
     p_endpoint :=
       if is_signin action then lit "auth_signin" else lit "auth_signup";
     p_max_attempts := if is_signin action then 5 else 3;
     p_window_minutes := 15 |}.
Let go : JS World Response :=
  after_validation ins env req action email password phoneNumber timezone
    clientIP.






End Settling.


End SecureAuthFacts.

(** ** The client auth hook *)

Module UseAuthFacts.
Import Js Effect UseAuth.

#[local] Arguments lit : simpl never.

Ltac run_hook :=
  cbv beta iota zeta
      delta [signIn signOut clearAuthState setSession setUser call await
             bind modify ret throw try_catch start];
  cbn [fst snd state calls user session loading app].

(** [signOut] from any state, whatever the remote call does. *)
Lemma signOut_run (env : Env) (st : AuthState) :
  signOut env (start st) =
  ({| state := {| user := None; session := None; loading := loading st |};
      calls := [SetSession None; SetUser None; AuthSignOut] |},
   Return None).
Proof.
  run_hook. destruct (auth_signOut env) as [[err |] | ex]; reflexivity.
Qed.

(** C9: [signOut] first clears the session and the user, then calls the
    remote sign-out; whatever that call does (no error, an error, a
    throw), the local state stays cleared and [signOut] resolves to
    [{ error: null }]: the final state and call log are the same for
    every behaviour of the remote services. *)
Theorem C9_signOut_clears_local_state (env : Env) (st : AuthState) :
  let w' := fst (signOut env (start st)) in
  user (state w') = None
  /\ session (state w') = None
  /\ calls w' = [SetSession None; SetUser None; AuthSignOut]
  /\ snd (signOut env (start st)) = Return None
  /\ (forall env' : Env, fst (signOut env' (start st)) = w').
Proof.
  cbv zeta. rewrite signOut_run. cbn [fst snd state user session calls].
  repeat split. intros env'. rewrite signOut_run. reflexivity.
Qed.

Section SignIn.
Variables (env : Env) (email password : jsstring) (st : AuthState).

Let body : Json.value :=
  Json.Obj [ (lit "action", Json.Str (lit "signin"));
             (lit "email", Json.Str email);
             (lit "password", Json.Str password) ].
Let gateway : Outcome InvokeResult :=
  functions_invoke env (lit "secure-auth") body.
Let done : World := fst (signIn env email password (start st)).

(** The gateway's word, as [signIn] reads it. *)
Let passed (o : Outcome InvokeResult) : Prop :=
  exists v d,
    o = Return v /\ inv_error v = None /\ inv_data v = Some d
    /\ Json.truthy (Json.get (lit "validation_passed") d) = true.

Lemma signIn_calls_gateway_first :
  exists rest, calls done = FunctionsInvoke (lit "secure-auth") body :: rest.
Proof.
  subst done. run_hook. fold body. fold gateway.
  destruct gateway as [[d [ve |]] | ex]; cbn [inv_error inv_data];
    try (eexists; reflexivity).
  destruct (Json.truthy _); cbn [negb].
  2:{ eexists; reflexivity. }
  destruct (signInWithPassword env email password) as [[ad [m |]] | ex];
    cbn [auth_error auth_data]; try (eexists; reflexivity).
  destruct (functions_invoke env (lit "track-login-failure") _);
    eexists; reflexivity.
Qed.

Lemma signIn_verifies_only_if_passed (e p : jsstring) :
  In (SignInWithPassword e p) (calls done) ->
  passed gateway
  /\ e = email /\ p = password
  /\ exists rest,
       calls done =
       FunctionsInvoke (lit "secure-auth") body
         :: SignInWithPassword email password :: rest.
Proof.
  subst done passed. run_hook. fold body. fold gateway.
  destruct gateway as [[d [ve |]] | ex] eqn:Hg; cbn [inv_error inv_data].
  - intros [H | []]; discriminate.
  - destruct d as [d |].
    2:{ cbn [Json.truthy negb]. intros [H | []]; discriminate. }
    destruct (Json.truthy (Json.get (lit "validation_passed") d)) eqn:Ht;
      cbn [negb].
    2:{ intros [H | []]; discriminate. }
    intros Hin.
    assert (Hep : e = email /\ p = password).
    { destruct (signInWithPassword env email password) as [[ad [m |]] | ex];
        cbn [auth_error auth_data] in Hin.
      - destruct (functions_invoke env (lit "track-login-failure") _);
          destruct Hin as [H | [H | [H | []]]]; try discriminate;
          injection H as <- <-; auto.
      - destruct Hin as [H | [H | []]]; try discriminate.
        injection H as <- <-; auto.
      - destruct Hin as [H | [H | []]]; try discriminate.
        injection H as <- <-; auto. }
    split; [exists {| inv_data := Some d; inv_error := None |}, d; auto |].
    destruct Hep as [-> ->]. repeat split.
    destruct (signInWithPassword env email password) as [[ad [m |]] | ex];
      cbn [auth_error auth_data]; try (eexists; reflexivity).
    destruct (functions_invoke env (lit "track-login-failure") _);
      eexists; reflexivity.
  - intros [H | []]; discriminate.
Qed.

Lemma signIn_verifies_if_passed :
  passed gateway -> In (SignInWithPassword email password) (calls done).
Proof.
  subst done passed. intros (v & d & Hg & He & Hd & Ht).
  run_hook. fold body. fold gateway. rewrite Hg, He, Hd, Ht. cbn [negb].
  destruct (signInWithPassword env email password) as [[ad [m |]] | ex];
    cbn [auth_error auth_data].
  - destruct (functions_invoke env (lit "track-login-failure") _);
      right; left; reflexivity.
  - right; left; reflexivity.
  - right; left; reflexivity.
Qed.

End SignIn.

End UseAuthFacts.

(** ** The journal service *)

Module JournalServiceFacts.
Import Js Effect JsDate JournalService.

#[local] Arguments lit : simpl never.

Ltac run_service :=
  cbv beta iota zeta
      delta [call set_entries set_photos await on_photos
             bind modify gets ret throw try_catch];
  cbn [fst snd journal_entries profiles photos calls].

(** *** Fetching *)

(** Resolving photo URLs logs the lookups and cannot fail. *)
Lemma photo_urls_run (env : Env) (ps : list PhotoRow) (w : World) :
  photo_urls env ps w =
  ({| journal_entries := journal_entries w; profiles := profiles w;
      photos := photos w;
      calls := calls w ++ List.map (fun p => GetPublicUrl (file_path p)) ps |},
   Return (List.map (fun p => getPublicUrl env (file_path p)) ps)).
Proof.
  revert w. unfold photo_urls.
  induction ps as [| p ps IH]; intros w; cbn [map_all List.map].
  - unfold ret. rewrite app_nil_r. destruct w; reflexivity.
  - run_service. rewrite IH. cbn [journal_entries profiles photos calls].
    rewrite <- app_assoc. reflexivity.
Qed.

(** [process_entry] cannot fail: it returns the entry with both fields
    decrypted when both decryptions succeed, and with both stored fields
    otherwise; the tables are left as they were. *)
Lemma process_entry_run (env : Env) (userId : jsstring) (sel : Selected)
    (w : World) :
  exists log,
    process_entry env userId sel w =
    ({| journal_entries := journal_entries w; profiles := profiles w;
        photos := photos w; calls := calls w ++ log |},
     Return
       (let row := fst sel in
        let urls := List.map (fun p => getPublicUrl env (file_path p)) (snd sel) in
        match decrypt env (content row) userId, decrypt env (title row) userId with
        | Return c, Return t => make_entry row c t urls
        | _, _ => make_entry row (content row) (title row) urls
        end)).
Proof.
  destruct sel as [row ps]. unfold process_entry. cbn [fst snd].
  run_service.
  destruct (decrypt env (content row) userId) as [c | ex].
  - destruct (decrypt env (title row) userId) as [t | ex];
      rewrite photo_urls_run; cbn [journal_entries profiles photos calls fst snd];
      rewrite <- ?app_assoc; eexists; reflexivity.
  - rewrite photo_urls_run. cbn [journal_entries profiles photos calls fst snd].
    rewrite <- app_assoc. eexists; reflexivity.
Qed.

(** Processing a batch: one entry per selected row, in order. *)
Lemma map_all_process (env : Env) (userId : jsstring) (sels : list Selected) :
  forall w,
  exists log,
    map_all (process_entry env userId) sels w =
    ({| journal_entries := journal_entries w; profiles := profiles w;
        photos := photos w; calls := calls w ++ log |},
     Return
       (List.map
          (fun sel =>
             let row := fst sel in
             let urls :=
               List.map (fun p => getPublicUrl env (file_path p)) (snd sel) in
             match decrypt env (content row) userId,
                   decrypt env (title row) userId with
             | Return c, Return t => make_entry row c t urls
             | _, _ => make_entry row (content row) (title row) urls
             end)
          sels)).
Proof.
  induction sels as [| sel sels IH]; intros w; cbn [map_all List.map].
  - exists []. unfold ret. rewrite app_nil_r. destruct w; reflexivity.
  - destruct (process_entry_run env userId sel w) as [log1 H1].
    unfold bind at 1. rewrite H1.
    unfold bind at 1.
    match goal with
    | |- context [map_all _ sels ?w1] => destruct (IH w1) as [log2 H2]
    end.
    rewrite H2. cbn [journal_entries profiles photos calls].
    exists (log1 ++ log2). unfold ret. rewrite <- app_assoc. reflexivity.
Qed.

(** C1: when the storage query succeeds, [fetchJournalEntries] returns
    one entry per stored row of the user, in query order; an entry shows
    the decrypted title and content when both decryptions succeed, and
    the raw stored title and content as soon as one of them fails. A
    decryption failure on one row neither removes that row nor makes
    the fetch throw. *)
Theorem C1_fetch_degrades_per_entry (env : Env) (userId : jsstring) (w : World) :
  userId <> [] ->
  fault env (SelectEntries userId) = None ->
  exists entries,
    snd (fetchJournalEntries env userId w) = Return entries
    /\ List.length entries = List.length (select_entries w userId)
    /\ Forall2
         (fun (sel : Selected) (e : Entry) =>
            let row := fst sel in
            e_id e = id row
            /\ e_user_id e = user_id row
            /\ e_entry_date e = entry_date row
            /\ match decrypt env (content row) userId,
                     decrypt env (title row) userId with
               | Return c, Return t => e_content e = c /\ e_title e = t
               | _, _ => e_content e = content row /\ e_title e = title row
               end)
         (select_entries w userId) entries.
Proof.
  intros Hne Hq. destruct userId as [| u0 us]; [congruence |].
  unfold fetchJournalEntries. run_service. rewrite Hq.
  match goal with
  | |- context [map_all _ ?sels ?w1] =>
      destruct (map_all_process env (u0 :: us) sels w1) as [log H]
  end.
  rewrite H. cbn [snd].
  eexists. split; [reflexivity |]. split.
  - apply length_map.
  - unfold select_entries. cbn [journal_entries photos].
    match goal with
    | |- Forall2 _ ?l (List.map _ ?l) => generalize l
    end.
    intros sels. induction sels as [| sel sels IH];
      cbn [List.map]; constructor; [| exact IH].
    cbv zeta.
    destruct (decrypt env (content (fst sel)) (u0 :: us));
      [destruct (decrypt env (title (fst sel)) (u0 :: us)) |];
      repeat split; reflexivity.
Qed.

(** C10: with the empty user identity, [fetchJournalEntries] returns the
    empty list and leaves the world as it was: no storage query, no
    decryption, no URL lookup is logged. With any other identity the
    first thing it does is the storage query. *)
Theorem C10_fetch_without_user (env : Env) (w : World) :
  fetchJournalEntries env [] w = (w, Return [])
  /\ calls (fst (fetchJournalEntries env [] w)) = calls w
  /\ forall c u, exists rest,
       calls (fst (fetchJournalEntries env (c :: u) w)) =
       calls w ++ SelectEntries (c :: u) :: rest.
Proof.
  split; [reflexivity |]. split; [reflexivity |].
  intros c u. unfold fetchJournalEntries. run_service.
  destruct (fault env (SelectEntries (c :: u))).
  - exists []. reflexivity.
  - match goal with
    | |- context [map_all _ ?sels ?w1] =>
        destruct (map_all_process env (c :: u) sels w1) as [log H]
    end.
    rewrite H. cbn [fst calls]. rewrite <- app_assoc. eexists; reflexivity.
Qed.

(** *** Updating *)

(** A computation that leaves the [journal_entries] table alone. *)
Local Abbreviation keeps m :=
  (forall w : World, journal_entries (fst (m w)) = journal_entries w).

Lemma keeps_bind {A B} (m : JS World A) (k : A -> JS World B) :
  keeps m -> (forall a, keeps (k a)) -> keeps (bind m k).
Proof.
  intros Hm Hk w. unfold bind. specialize (Hm w).
  destruct (m w) as [w1 [a | ex]]; cbn [fst] in *.
  - rewrite Hk. exact Hm.
  - exact Hm.
Qed.

Lemma keeps_try_catch {A} (m : JS World A) (h : Exn -> JS World A) :
  keeps m -> (forall e, keeps (h e)) -> keeps (try_catch m h).
Proof.
  intros Hm Hh w. unfold try_catch. specialize (Hm w).
  destruct (m w) as [w1 [a | ex]]; cbn [fst] in *.
  - exact Hm.
  - rewrite Hh. exact Hm.
Qed.

Lemma keeps_for_each {A} (body : A -> JS World unit) (xs : list A) :
  (forall x, keeps (body x)) -> keeps (for_each body xs).
Proof.
  intros Hb. induction xs as [| x xs IH]; cbn [for_each].
  - intros w. reflexivity.
  - apply keeps_bind; [apply Hb | intros _; exact IH].
Qed.

Lemma keeps_call (c : Call) : keeps (call c).
Proof. intros w. reflexivity. Qed.

Lemma keeps_set_photos (ps : PhotoStore) : keeps (set_photos ps).
Proof. intros w. reflexivity. Qed.

Lemma keeps_on_photos {A} (f : PhotoStore -> PhotoStore * Outcome A) :
  keeps (on_photos f).
Proof. intros w. unfold on_photos. destruct (f (photos w)); reflexivity. Qed.

Lemma keeps_await {A} (o : Outcome A) : keeps (await o).
Proof. intros w. reflexivity. Qed.

Lemma keeps_ret {A} (a : A) : keeps (@ret World A a).
Proof. intros w. reflexivity. Qed.

Lemma keeps_throw {A} (e : Exn) : keeps (@throw World A e).
Proof. intros w. reflexivity. Qed.

Lemma keeps_gets {A} (f : World -> A) : keeps (gets f).
Proof. intros w. reflexivity. Qed.

Create HintDb frame.
#[local] Hint Resolve keeps_call keeps_set_photos keeps_on_photos keeps_await
  keeps_ret keeps_throw keeps_gets : frame.

Ltac frame :=
  repeat first
    [ apply keeps_bind; [| intros ?]
    | apply keeps_try_catch; [| intros ?]
    | apply keeps_for_each; intros ?
    | solve [auto with frame]
    | match goal with
      | |- forall w : World, journal_entries (fst (match ?x with _ => _ end w)) = _ =>
          destruct x
      end ].

Lemma remove_photo_keeps (env : Env) (entryId userId photoUrl : jsstring) :
  keeps (remove_photo env entryId userId photoUrl).
Proof. unfold remove_photo. frame. Qed.

Lemma eqb_eq (a b : jsstring) : Js.eqb a b = true -> a = b.
Proof.
  revert b. induction a as [| x a IH]; intros [| y b]; cbn [Js.eqb];
    try discriminate; [reflexivity |].
  intros H. apply andb_true_iff in H as [Hx Hab].
  apply N.eqb_eq in Hx. f_equal; auto.
Qed.

Lemma update_photos_keeps (env : Env) (entryId userId : jsstring)
    (removedPhotos : option (list jsstring)) (newPhotos : option (list File)) :
  keeps (update_photos env entryId userId removedPhotos newPhotos).
Proof.
  unfold update_photos. apply keeps_bind.
  - destruct removedPhotos as [urls |]; [| apply keeps_ret].
    apply keeps_for_each. intros url. apply remove_photo_keeps.
  - intros _. destruct newPhotos as [[| f fs] |]; frame.
Qed.

(** The storage update rewrites [content], and [tags] when given, on the
    rows it selects, and nothing else on any row. *)
Lemma update_entries_frame (d : UpdateData) (entryId userId : jsstring)
    (rows : list EntryRow) :
  Forall2
    (fun r r' =>
       id r' = id r /\ user_id r' = user_id r /\ title r' = title r
       /\ source r' = source r /\ entry_date r' = entry_date r
       /\ created_at r' = created_at r
       /\ (r' = r
           \/ (id r = entryId /\ user_id r = userId
               /\ content r' = u_content d
               /\ tags r' = match u_tags d with
                            | Some ts => Some ts
                            | None => tags r
                            end)))
    rows (update_entries d entryId userId rows).
Proof.
  unfold update_entries.
  induction rows as [| r rows IH]; cbn [List.map]; constructor; [| exact IH].
  destruct (Js.eqb (id r) entryId) eqn:Hi; cbn [andb].
  - destruct (Js.eqb (user_id r) userId) eqn:Hu.
    + apply eqb_eq in Hi, Hu. cbn [apply_update id user_id title source
                                    entry_date created_at content tags].
      repeat split; auto 10.
    + repeat split; auto.
  - repeat split; auto.
Qed.

(** After [updateJournalEntry] the table is either untouched (the call
    failed before or at the storage update) or the result of that one
    storage update. *)
Lemma updateJournalEntry_entries (env : Env)
    (entryId content : jsstring) (tags : option (list jsstring))
    (newPhotos : option (list File)) (removedPhotos : option (list jsstring))
    (userId : jsstring) (w : World) :
  let w' :=
    fst (updateJournalEntry env entryId content tags newPhotos removedPhotos
           userId w) in
  journal_entries w' = journal_entries w
  \/ exists enc checked,
       encrypt env (trim content) userId = Return enc
       /\ match tags with
          | Some ts => exists ts', validateTags env ts = Return ts'
                                   /\ checked = Some ts'
          | None => checked = None
          end
       /\ journal_entries w' =
          update_entries {| u_content := enc; u_tags := checked |}
            entryId userId (journal_entries w).
Proof.
  cbv zeta. unfold updateJournalEntry. run_service.
  destruct (validateEntryContent env content) as [[] | ex]; [| left; reflexivity].
  destruct (encrypt env (trim content) userId) as [enc | ex];
    [| left; reflexivity].
  destruct tags as [ts |].
  - destruct (validateTags env ts) as [ts' | ex]; [| left; reflexivity].
    destruct (fault env (UpdateEntry entryId userId)); [left; reflexivity |].
    right. exists enc, (Some ts'). split; [reflexivity |]. split; [eauto |].
    rewrite update_photos_keeps. reflexivity.
  - destruct (fault env (UpdateEntry entryId userId)); [left; reflexivity |].
    right. exists enc, None. split; [reflexivity |]. split; [reflexivity |].
    rewrite update_photos_keeps. reflexivity.
Qed.

(** C8: an update changes, on the rows of [journal_entries], nothing but
    the content (to the encryption of the trimmed new content) and, when
    tags are given, the tags; id, owner, title, source, entry date and
    creation timestamp of every row are what they were, rows are neither
    added nor dropped, and rows other than the addressed one are
    untouched. *)
Theorem C8_update_changes_content_and_tags_only (env : Env)
    (entryId newContent : jsstring) (newTags : option (list jsstring))
    (newPhotos : option (list File)) (removedPhotos : option (list jsstring))
    (userId : jsstring) (w : World) :
  let w' :=
    fst (updateJournalEntry env entryId newContent newTags newPhotos
           removedPhotos userId w) in
  Forall2
    (fun r r' =>
       id r' = id r /\ user_id r' = user_id r /\ title r' = title r
       /\ source r' = source r /\ entry_date r' = entry_date r
       /\ created_at r' = created_at r
       /\ (r' = r
           \/ (id r = entryId /\ user_id r = userId
               /\ encrypt env (trim newContent) userId = Return (content r')
               /\ match newTags with
                  | Some ts => exists ts', validateTags env ts = Return ts'
                                           /\ tags r' = Some ts'
                  | None => tags r' = tags r
                  end)))
    (journal_entries w) (journal_entries w').
Proof.
  cbv zeta.
  destruct (updateJournalEntry_entries env entryId newContent newTags newPhotos
              removedPhotos userId w) as [-> | (enc & checked & He & Ht & ->)].
  - induction (journal_entries w) as [| r rows IH]; constructor; auto 10.
  - pose proof (update_entries_frame {| u_content := enc; u_tags := checked |}
                  entryId userId (journal_entries w)) as Hf.
    induction Hf as [| r r' rows rows' Hr _ IH]; constructor; [| exact IH].
    destruct Hr as (H1 & H2 & H3 & H4 & H5 & H6 & Hc).
    repeat (split; [assumption |]).
    destruct Hc as [-> | (Hi & Hu & Hcont & Htags)]; [left; reflexivity |].
    right. cbn [u_content u_tags] in Hcont, Htags.
    repeat (split; [assumption |]). split; [congruence |].
    destruct newTags as [ts |].
    + destruct Ht as (ts' & Hv & ->). exists ts'. auto.
    + subst checked. exact Htags.
Qed.

(** *** The entry date *)

Local Open Scope Z_scope.

(** The date part of [toISOString] depends on the day count only. *)
Lemma toISOString_date_day (t t' : Z) :
  t / 86400000 = t' / 86400000 -> toISOString_date t = toISOString_date t'.
Proof. unfold toISOString_date. intros ->. reflexivity. Qed.

(** In a runtime whose own zone is UTC, the entry date is the calendar
    date on the user's wall clock. *)
Lemma entryDate_utc_runtime (zs : Zones) (now off : Z) (tz : jsstring) :
  local_offset zs = 0 ->
  zone_offset zs tz = Some off ->
  entryDate zs now tz = Return (toISOString_date (now + off * 60000)).
Proof.
  intros Hl Hz. unfold entryDate, toLocaleString_en_US, Date_of_local_text.
  rewrite Hz, Hl. f_equal. apply toISOString_date_day.
  replace ((now / 1000 + off * 60 - 0 * 60) * 1000)
    with ((now / 1000 + off * 60) * 1000) by lia.
  replace 86400000 with (1000 * 86400) by reflexivity.
  rewrite <- !Z.div_div by lia. f_equal.
  rewrite Z.div_mul by lia.
  replace (now + off * 60000) with (now + (off * 60) * 1000) by lia.
  rewrite Z.div_add by lia. reflexivity.
Qed.

(** In a runtime whose own zone is the user's zone, the entry date is
    the UTC date of the current instant. *)
Lemma entryDate_in_users_zone (zs : Zones) (now : Z) (tz : jsstring) :
  zone_offset zs tz = Some (local_offset zs) ->
  entryDate zs now tz = Return (toISOString_date now).
Proof.
  intros Hz. unfold entryDate, toLocaleString_en_US, Date_of_local_text.
  rewrite Hz. f_equal. apply toISOString_date_day.
  replace (now / 1000 + local_offset zs * 60 - local_offset zs * 60)
    with (now / 1000) by lia.
  replace 86400000 with (1000 * 86400) by reflexivity.
  rewrite <- !Z.div_div by lia. f_equal.
  apply Z.div_mul. lia.
Qed.

(** C6, the code at a failing input: a user whose stored timezone is
    America/Los_Angeles (UTC-8) creates an entry at 2024-01-01T06:00:00Z
    from a browser in that same zone. The user's wall clock shows
    2023-12-31 22:00:00, yet the row that is stored carries the entry
    date 2024-01-01, the UTC date, where the claim says 2023-12-31. *)
Theorem C6_entry_date_in_users_browser :
  let run :=
    createJournalEntry Scenario.journal_env (lit "Dear diary") (lit "New year")
      [] [] (lit "u1") Scenario.journal_world in
  (exists row,
      snd run = Return row
      /\ In row (journal_entries (fst run))
      /\ entry_date row = lit "2024-01-01")
  /\ toISOString_date 1704088800000 = lit "2024-01-01"
  /\ (exists wall,
        toLocaleString_en_US Scenario.browser_zones 1704088800000
          (lit "America/Los_Angeles") = Return wall
        /\ wall_date wall = {| year := 2023; month := 12; day := 31 |}
        /\ wall_second_of_day wall = 22 * 3600).
Proof.
  cbv zeta. split; [| split].
  - eexists. split; [vm_compute; reflexivity |].
    split; [vm_compute; auto | vm_compute; reflexivity].
  - vm_compute; reflexivity.
  - eexists. split; [vm_compute; reflexivity |].
    split; vm_compute; reflexivity.
Qed.

End JournalServiceFacts.

(** ** The two phases of a sign-in *)

Module TwoPhaseSignIn.
Import Js Effect.

(** C3: for a sign-in that passes input validation, the rate limit and
    the lockout check, the gateway answers 200 with
    [{validation_passed: true, message, rate_limit: {attempts,
    max_attempts}}] after the rate-limit call and the lockout read only:
    it makes no identity-provider call. On the client, [signIn] first
    invokes the gateway, and it calls [signInWithPassword] if and only if
    the gateway's answer came back without error and with a truthy
    [validation_passed]; the only gateway answer carrying one is that
    acknowledgment. *)
Theorem C3_gateway_acknowledges_client_verifies
    (genv : SecureAuth.Env) (req : SecureAuth.Request)
    (r : SecureAuth.AuthRequest) (e : jsstring)
    (rl : SecureAuth.RateLimitCheck)
    (cenv : UseAuth.Env) (email password : jsstring) (st : UseAuth.AuthState) :
  Js.eqb (SecureAuth.method req) (lit "OPTIONS") = false ->
  SecureAuth.json req = SecureAuth.Body r ->
  SecureAuth.input_validation r = None ->
  SecureAuth.is_signin (SecureAuth.action r) = true ->
  SecureAuth.email r = Some e ->
  let args :=
    {| SecureAuth.p_identifier := SecureAuth.getClientIP req ++ lit ":" ++ e;
       SecureAuth.p_endpoint := lit "auth_signin";
       SecureAuth.p_max_attempts := 5;
       SecureAuth.p_window_minutes := 15 |} in
  SecureAuth.check_rate_limit genv args = Some rl ->
  SecureAuth.allowed rl = true ->
  SecureAuth.lock_active genv (SecureAuth.select_lockout genv e) = false ->
  (* the gateway *)
  (SecureAuth.response_of genv req =
     Return
       (SecureAuth.json_response 200
          (Json.Obj
             [ (lit "validation_passed", Json.Bool true);
               (lit "message", Json.Str (lit "Security validation passed"));
               (lit "rate_limit",
                Json.Obj
                  [ (lit "attempts", Json.Num (SecureAuth.attempts rl));
                    (lit "max_attempts", Json.Num (SecureAuth.max_attempts rl)) ]) ]))
   /\ SecureAuth.calls_of genv req =
      [SecureAuth.RpcCheckRateLimit args; SecureAuth.SelectLockout e]
   /\ (forall su, ~ In (SecureAuth.AuthSignUp su) (SecureAuth.calls_of genv req)))
  (* the client *)
  /\ (let body :=
        Json.Obj [ (lit "action", Json.Str (lit "signin"));
                   (lit "email", Json.Str email);
                   (lit "password", Json.Str password) ] in
      let done := fst (UseAuth.signIn cenv email password (UseAuth.start st)) in
      let passed :=
        exists v d,
          UseAuth.functions_invoke cenv (lit "secure-auth") body = Return v
          /\ UseAuth.inv_error v = None
          /\ UseAuth.inv_data v = Some d
          /\ Json.truthy (Json.get (lit "validation_passed") d) = true in
      (exists rest,
          UseAuth.calls done =
          UseAuth.FunctionsInvoke (lit "secure-auth") body :: rest)
      /\ (forall e' p',
             In (UseAuth.SignInWithPassword e' p') (UseAuth.calls done) ->
             passed /\ e' = email /\ p' = password
             /\ exists rest,
                  UseAuth.calls done =
                  UseAuth.FunctionsInvoke (lit "secure-auth") body
                    :: UseAuth.SignInWithPassword email password :: rest)
      /\ (passed ->
          In (UseAuth.SignInWithPassword email password) (UseAuth.calls done)))
  (* what the client's test accepts *)
  /\ (forall genv' req' resp d,
        SecureAuth.response_of genv' req' = Return resp ->
        SecureAuth.body resp = SecureAuth.Stringify d ->
        Json.truthy (Json.get (lit "validation_passed") d) = true ->
        exists rl',
          resp = SecureAuth.json_response 200
                   (SecureAuth.validation_passed_json rl')).
Proof.
  intros Hm Hj Hv Hs He args Hc Ha Hl.
  destruct (SecureAuthFacts.signin_acknowledged genv req Hm Hj Hv Hs He Hc Ha Hl)
    as [Hans Hcalls].
  split; [| split].
  - split; [exact Hans |]. split; [exact Hcalls |].
    intros su. rewrite Hcalls. intros [H | [H | []]]; discriminate.
  - cbv zeta. split; [| split].
    + apply UseAuthFacts.signIn_calls_gateway_first.
    + intros e' p' Hin.
      apply (UseAuthFacts.signIn_verifies_only_if_passed cenv email password st e' p').
      exact Hin.
    + apply (UseAuthFacts.signIn_verifies_if_passed cenv email password st).
  - intros genv' req' resp d Hr Hb Ht.
    destruct (SecureAuthFacts.validation_passed_only_when_acknowledged
                genv' req' Hr Hb Ht)
      as (r' & rl' & _ & _ & _ & _ & _ & ->).
    exists rl'. reflexivity.
Qed.

End TwoPhaseSignIn.

(** ** The theorems at concrete inputs *)

Module Witnesses.
Import Js Effect.

(** A sign-in from an address over its limit: 429, after the rate-limit
    call and one (refused) insert into the security log. *)
Lemma C4_rate_limited_sign_in :
  let req := Scenario.post (Scenario.auth_request "signin" "flood@example.com" "pw") in
  let args :=
    {| SecureAuth.p_identifier := lit "203.0.113.9:flood@example.com";
       SecureAuth.p_endpoint := lit "auth_signin";
       SecureAuth.p_max_attempts := 5;
       SecureAuth.p_window_minutes := 15 |} in
  (exists rest,
      SecureAuth.calls_of Scenario.gateway_env req =
      SecureAuth.RpcCheckRateLimit args :: rest)
  /\ (exists ev,
        SecureAuth.calls_of Scenario.gateway_env req =
        [SecureAuth.RpcCheckRateLimit args; SecureAuth.InsertSecurityEvent ev]
        /\ SecureAuth.severity ev = SecureAuth.medium)
  /\ SecureAuth.response_of Scenario.gateway_env req =
     Return
       (SecureAuth.json_response 429
          (Json.Obj
             [ (lit "error",
                Json.Str (lit "Too many attempts. Please try again later."));
               (lit "blocked_until",
                Json.Str (lit "2024-01-01T06:15:00+00:00")) ])).
Proof.
  cbv zeta.
  destruct (@SecureAuthFacts.C4_rate_limit_gate Scenario.gateway_env
              (Scenario.post (Scenario.auth_request "signin" "flood@example.com" "pw"))
              (Scenario.auth_request "signin" "flood@example.com" "pw")
              (lit "flood@example.com")
              eq_refl eq_refl eq_refl eq_refl)
    as (_ & Hfirst & Hlimited).
  split; [exact Hfirst |].
  destruct (Hlimited _ eq_refl eq_refl) as (ev & Hcalls & _ & Hsev & _ & Hans).
  split; [exists ev; split; [exact Hcalls | exact Hsev] | exact Hans].
Defined.

(** A sign-in for the locked account, within its rate limit: 423. *)
Lemma C2_locked_sign_in :
  let req := Scenario.post (Scenario.auth_request "signin" "locked@example.com" "pw") in
  SecureAuth.response_of Scenario.gateway_env req =
    Return
      (SecureAuth.json_response 423
         (Json.Obj
            [ (lit "error",
               Json.Str (lit "Account temporarily locked due to multiple failed login attempts"));
              (lit "locked_until",
               Json.Str (lit "2024-01-01T07:00:00+00:00")) ]))
  /\ SecureAuth.calls_of Scenario.gateway_env req =
     [ SecureAuth.RpcCheckRateLimit
         {| SecureAuth.p_identifier := lit "203.0.113.9:locked@example.com";
            SecureAuth.p_endpoint := lit "auth_signin";
            SecureAuth.p_max_attempts := 5;
            SecureAuth.p_window_minutes := 15 |};
       SecureAuth.SelectLockout (lit "locked@example.com") ].
Proof.
  cbv zeta.
  destruct (@SecureAuthFacts.C2_lockout_after_rate_limit Scenario.gateway_env
              (Scenario.post (Scenario.auth_request "signin" "locked@example.com" "pw"))
              (Scenario.auth_request "signin" "locked@example.com" "pw")
              (lit "locked@example.com")
              {| SecureAuth.allowed := true; SecureAuth.attempts := 1;
                 SecureAuth.max_attempts := 5; SecureAuth.blocked_until := None |}
              {| SecureAuth.locked_until := Some (lit "2024-01-01T07:00:00+00:00");
                 SecureAuth.failed_attempts := 5 |}
              (lit "2024-01-01T07:00:00+00:00") 1704092400000%Z
              eq_refl eq_refl eq_refl eq_refl eq_refl eq_refl eq_refl eq_refl
              eq_refl ltac:(discriminate) eq_refl eq_refl)
    as (Hans & Hcalls & _).
  split; [exact Hans | exact Hcalls].
Defined.

(** A sign-in that passes every gate, and the client that then verifies
    the password. *)
Lemma C3_acknowledged_sign_in :
  let req := Scenario.post (Scenario.auth_request "signin" "ann@example.com" "pw") in
  SecureAuth.calls_of Scenario.gateway_env req =
    [ SecureAuth.RpcCheckRateLimit
        {| SecureAuth.p_identifier := lit "203.0.113.9:ann@example.com";
           SecureAuth.p_endpoint := lit "auth_signin";
           SecureAuth.p_max_attempts := 5;
           SecureAuth.p_window_minutes := 15 |};
      SecureAuth.SelectLockout (lit "ann@example.com") ]
  /\ In (UseAuth.SignInWithPassword (lit "ann@example.com") (lit "pw"))
       (UseAuth.calls
          (fst (UseAuth.signIn Scenario.client_env (lit "ann@example.com")
                  (lit "pw") (UseAuth.start Scenario.signed_in)))).
Proof.
  cbv zeta.
  destruct (@TwoPhaseSignIn.C3_gateway_acknowledges_client_verifies
              Scenario.gateway_env
              (Scenario.post (Scenario.auth_request "signin" "ann@example.com" "pw"))
              (Scenario.auth_request "signin" "ann@example.com" "pw")
              (lit "ann@example.com")
              {| SecureAuth.allowed := true; SecureAuth.attempts := 1;
                 SecureAuth.max_attempts := 5; SecureAuth.blocked_until := None |}
              Scenario.client_env (lit "ann@example.com") (lit "pw")
              Scenario.signed_in
              eq_refl eq_refl eq_refl eq_refl eq_refl eq_refl eq_refl eq_refl)
    as ((_ & Hcalls & _) & (_ & _ & Hverifies) & _).
  split; [exact Hcalls |].
  apply Hverifies. do 2 eexists.
  split; [reflexivity |]. split; [reflexivity |]. split; reflexivity.
Defined.

(** The two stored entries of user [u1], one of them undecryptable:
    the fetch returns two entries. *)
Lemma C1_two_entries :
  exists entries,
    snd (JournalService.fetchJournalEntries Scenario.journal_env (lit "u1")
           Scenario.journal_world) = Return entries
    /\ List.length entries = 2%nat.
Proof.
  destruct (@JournalServiceFacts.C1_fetch_degrades_per_entry
              Scenario.journal_env (lit "u1") Scenario.journal_world
              ltac:(discriminate) eq_refl)
    as (entries & Hret & Hlen & _).
  exists entries. split; [exact Hret | exact Hlen].
Defined.

(** The same fetch, evaluated: the newer entry, whose content does not
    decrypt, shows its stored content and its stored (still encrypted)
    title; the older one shows both decrypted. *)
Example fetch_two_entries_run :
  exists e2 e1,
    snd (JournalService.fetchJournalEntries Scenario.journal_env (lit "u1")
           Scenario.journal_world) = Return [e2; e1]
    /\ JournalService.e_id e2 = lit "entry-2"
    /\ JournalService.e_content e2 = lit "garbled"
    /\ JournalService.e_title e2 = lit "enc:Tuesday"
    /\ JournalService.e_id e1 = lit "entry-1"
    /\ JournalService.e_content e1 = lit "Dear diary"
    /\ JournalService.e_title e1 = lit "Monday".
Proof.
  do 2 eexists. split; [vm_compute; reflexivity |].
  repeat split; vm_compute; reflexivity.
Qed.

(** The refused insert leaves the log empty, and the 429 is the one
    sent when the insert is accepted. *)
Example rate_limited_with_and_without_log :
  let req := Scenario.post (Scenario.auth_request "signin" "flood@example.com" "pw") in
  SecureAuth.logged_by Scenario.gateway_env req = []
  /\ List.length
       (SecureAuth.logged_by
          (SecureAuth.with_insert (fun _ => None) Scenario.gateway_env) req) = 1%nat
  /\ SecureAuth.response_of Scenario.gateway_env req =
     SecureAuth.response_of
       (SecureAuth.with_insert (fun _ => None) Scenario.gateway_env) req.
Proof. repeat split; vm_compute; reflexivity. Qed.

(** A sign-up from the same scenario: the account is created and the
    answer is 200, whether or not the user_signup event is stored. *)
Example sign_up_run :
  let req := Scenario.post (Scenario.auth_request "signup" "new@example.com" "Abcdefg1") in
  (exists resp,
      SecureAuth.response_of Scenario.gateway_env req = Return resp
      /\ SecureAuth.status resp = 200%Z)
  /\ List.length (SecureAuth.calls_of Scenario.gateway_env req) = 3%nat.
Proof.
  cbv zeta. split; [eexists; split; vm_compute; reflexivity |].
  vm_compute; reflexivity.
Qed.

(** Sign-out from a signed-in state with a failing remote call. *)
Example sign_out_run :
  UseAuth.state (fst (UseAuth.signOut Scenario.client_env
                        (UseAuth.start Scenario.signed_in)))
  = {| UseAuth.user := None; UseAuth.session := None; UseAuth.loading := false |}.
Proof. reflexivity. Qed.


(** The same two requests and an accepted sign-up, evaluated: 429 and
    200 when the insert resolves, 500 when it rejects. *)
Example rejected_insert_run :
  let flood := Scenario.post (Scenario.auth_request "signin" "flood@example.com" "pw") in
  let fresh := Scenario.post (Scenario.auth_request "signup" "new@example.com" "Abcdefg1") in
  let rejects : SecureAuth.Settles :=
    fun _ => Throw (Error (lit "Failed to fetch")) in
  let stores : SecureAuth.Settles := fun _ => Return None in
  let status_of :=
    fun o : Outcome SecureAuth.Response =>
      match o with
      | Return resp => Some (SecureAuth.status resp)
      | Throw _ => None
      end in
  status_of (SecureAuth.response_when stores Scenario.gateway_env flood) = Some 429%Z
  /\ status_of (SecureAuth.response_of Scenario.gateway_env flood) = Some 429%Z
  /\ status_of (SecureAuth.response_when rejects Scenario.gateway_env flood) = Some 500%Z
  /\ status_of (SecureAuth.response_when stores Scenario.gateway_env fresh) = Some 200%Z
  /\ status_of (SecureAuth.response_when rejects Scenario.gateway_env fresh) = Some 500%Z.
Proof. cbv zeta. repeat split; vm_compute; reflexivity. Qed.

End Witnesses.

(** ** More on the journal service *)

Module JournalServiceMore.
Import Js Effect JsDate JournalService JournalServiceFacts.

#[local] Arguments lit : simpl never.

(** *** Strings *)

Lemma eqb_refl (a : jsstring) : Js.eqb a a = true.
Proof.
  induction a as [| x a IH]; cbn [Js.eqb]; [reflexivity |].
  rewrite N.eqb_refl. exact IH.
Qed.

Lemma eqb_iff (a b : jsstring) : Js.eqb a b = true <-> a = b.
Proof. split; [apply eqb_eq | intros ->; apply eqb_refl]. Qed.

Lemma eqb_false (a b : jsstring) : a <> b -> Js.eqb a b = false.
Proof.
  intros H. destruct (Js.eqb a b) eqn:E; [| reflexivity].
  apply eqb_eq in E. contradiction.
Qed.

(** *** The query *)

Lemma insert_desc_In (x r : EntryRow) (l : list EntryRow) :
  In r (insert_desc x l) <-> r = x \/ In r l.
Proof.
  induction l as [| y l IH]; cbn [insert_desc].
  - cbn [In]. intuition.
  - destruct (created_at y <=? created_at x)%Z; cbn [In]; [intuition |].
    rewrite IH. intuition.
Qed.

Lemma order_desc_In (r : EntryRow) (l : list EntryRow) :
  In r (order_desc l) <-> In r l.
Proof.
  unfold order_desc. induction l as [| x l IH]; cbn [fold_right In]; [tauto |].
  rewrite insert_desc_In, IH. intuition.
Qed.

Lemma insert_desc_length (x : EntryRow) (l : list EntryRow) :
  List.length (insert_desc x l) = S (List.length l).
Proof.
  induction l as [| y l IH]; cbn [insert_desc]; [reflexivity |].
  destruct (created_at y <=? created_at x)%Z; cbn [List.length]; congruence.
Qed.

Lemma order_desc_length (l : list EntryRow) :
  List.length (order_desc l) = List.length l.
Proof.
  unfold order_desc. induction l as [| x l IH]; cbn [fold_right]; [reflexivity |].
  rewrite insert_desc_length. cbn [List.length]. congruence.
Qed.

(** Newest first. *)
Abbreviation newest_first :=
  (StronglySorted (fun a b : EntryRow => (created_at b <= created_at a)%Z)).

Lemma insert_desc_sorted (x : EntryRow) (l : list EntryRow) :
  newest_first l -> newest_first (insert_desc x l).
Proof.
  induction l as [| y l IH]; intros Hs; cbn [insert_desc].
  - constructor; [constructor | constructor].
  - inversion Hs as [| y' l' Hl Hy]; subst.
    destruct (created_at y <=? created_at x)%Z eqn:E.
    + apply Z.leb_le in E. constructor; [exact Hs |].
      constructor; [exact E |].
      rewrite Forall_forall in *. intros z Hz. specialize (Hy z Hz). lia.
    + apply Z.leb_gt in E. constructor; [apply IH; exact Hl |].
      rewrite Forall_forall in *. intros z Hz.
      apply insert_desc_In in Hz as [-> | Hz]; [lia | apply Hy; exact Hz].
Qed.

Lemma order_desc_sorted (l : list EntryRow) : newest_first (order_desc l).
Proof.
  unfold order_desc. induction l as [| x l IH]; cbn [fold_right].
  - constructor.
  - apply insert_desc_sorted. exact IH.
Qed.

(** *** Fetching *)

(** What a selected row is shown as. *)
Abbreviation shown env userId :=
  (fun sel : Selected =>
     let row := fst sel in
     let urls := List.map (fun p => getPublicUrl env (file_path p)) (snd sel) in
     match decrypt env (content row) userId, decrypt env (title row) userId with
     | Return c, Return t => make_entry row c t urls
     | _, _ => make_entry row (content row) (title row) urls
     end).

Lemma fetch_run (env : Env) (userId : jsstring) (w : World) :
  userId <> [] ->
  fault env (SelectEntries userId) = None ->
  exists log,
    fetchJournalEntries env userId w =
    ({| journal_entries := journal_entries w; profiles := profiles w;
        photos := photos w; calls := calls w ++ log |},
     Return (List.map (shown env userId) (select_entries w userId))).
Proof.
  intros Hne Hq. destruct userId as [| u0 us]; [congruence |].
  unfold fetchJournalEntries. run_service. rewrite Hq.
  match goal with
  | |- context [map_all _ ?sels ?w1] =>
      destruct (map_all_process env (u0 :: us) sels w1) as [log H]
  end.
  rewrite H. cbn [journal_entries profiles photos calls].
  rewrite <- app_assoc. eexists. reflexivity.
Qed.

Lemma shown_fields (env : Env) (userId : jsstring) (sel : Selected) :
  e_id (shown env userId sel) = id (fst sel)
  /\ e_user_id (shown env userId sel) = user_id (fst sel)
  /\ e_timestamp (shown env userId sel) = created_at (fst sel)
  /\ e_entry_date (shown env userId sel) = entry_date (fst sel).
Proof.
  cbv beta zeta.
  generalize (decrypt env (content (fst sel)) userId)
             (decrypt env (title (fst sel)) userId).
  intros [c | ex] [t | ex']; repeat split; reflexivity.
Qed.

(** X1: a successful fetch returns exactly the rows stored for that user,
    one entry per row, and never a row of another user; the entries come
    newest first. *)
Theorem fetch_returns_own_entries_newest_first (env : Env) (userId : jsstring)
    (w : World) :
  userId <> [] ->
  fault env (SelectEntries userId) = None ->
  exists entries,
    snd (fetchJournalEntries env userId w) = Return entries
    /\ (forall e, In e entries ->
          e_user_id e = userId
          /\ exists r, In r (journal_entries w) /\ id r = e_id e
                       /\ user_id r = userId /\ created_at r = e_timestamp e)
    /\ (forall r, In r (journal_entries w) -> user_id r = userId ->
          exists e, In e entries /\ e_id e = id r /\ e_timestamp e = created_at r)
    /\ List.length entries =
       List.length (filter (fun r => Js.eqb (user_id r) userId) (journal_entries w))
    /\ StronglySorted (fun a b : Entry => (e_timestamp b <= e_timestamp a)%Z) entries.
Proof.
  intros Hne Hq. destruct (fetch_run env w Hne Hq) as [log Hrun].
  exists (List.map (shown env userId) (select_entries w userId)).
  split; [rewrite Hrun; reflexivity |].
  pose proof (shown_fields env userId) as Hf.
  set (f := shown env userId) in *. clearbody f.
  unfold select_entries.
  set (mine := filter (fun r => Js.eqb (user_id r) userId) (journal_entries w)).
  set (join := fun r : EntryRow =>
                 (r, filter (fun p => Js.eqb (entry_id p) (id r))
                       (journal_photos (photos w)))).
  assert (Hmine : forall r, In r (order_desc mine) <->
                            In r (journal_entries w) /\ user_id r = userId).
  { intros r. rewrite order_desc_In. unfold mine. rewrite filter_In, eqb_iff.
    tauto. }
  split; [| split; [| split]].
  - intros e He. apply in_map_iff in He as (sel & <- & Hsel).
    apply in_map_iff in Hsel as (r & <- & Hr). apply Hmine in Hr as [Hr Hu].
    destruct (Hf (join r)) as (Hi & Hus & Ht & _).
    cbn [fst join] in Hi, Hus, Ht. split; [congruence |].
    exists r. repeat split; congruence.
  - intros r Hr Hu.
    exists (f (join r)).
    destruct (Hf (join r)) as (Hi & _ & Ht & _).
    split; [| split; assumption].
    apply in_map. apply in_map. apply Hmine. split; assumption.
  - rewrite !length_map. apply order_desc_length.
  - pose proof (order_desc_sorted mine) as Hs. clear Hmine. revert Hs.
    generalize (order_desc mine). intros l0 Hs.
    induction Hs as [| r l Hl IH Hr]; cbn [List.map]; constructor; [exact IH |].
    rewrite Forall_forall in *. intros e He.
    apply in_map_iff in He as (sel & <- & Hsel).
    apply in_map_iff in Hsel as (r' & <- & Hr').
    destruct (Hf (join r)) as (_ & _ & Ht & _).
    destruct (Hf (join r')) as (_ & _ & Ht' & _).
    cbn [fst join] in Ht, Ht'. rewrite Ht, Ht'. apply Hr. exact Hr'.
Qed.

(** *** Creating *)

(** The zone name [createJournalEntry] uses for a user. *)
Abbreviation zone_of env w userId :=
  (or_else
     (match
        match fault env (SelectProfile userId) with
        | Some _ => None
        | None => select_profile w userId
        end
      with
      | Some p => profile_timezone p
      | None => None
      end) (lit "UTC")).

Lemma create_success (env : Env) (body heading : jsstring)
    (labels : list jsstring) (files : list File) (userId : jsstring)
    (w : World) (row : EntryRow) :
  snd (createJournalEntry env body heading labels files userId w) = Return row ->
  userId <> []
  /\ row = {| id := new_id env (journal_entries w);
              user_id := userId;
              content := content row;
              title := title row;
              source := lit "web";
              entry_date := entry_date row;
              tags := tags row;
              created_at := new_created_at env (journal_entries w) |}
  /\ encrypt env (trim body) userId = Return (content row)
  /\ encrypt env (trim heading) userId = Return (title row)
  /\ entryDate (zones env) (now env) (zone_of env w userId)
     = Return (entry_date row)
  /\ (exists ts, validateTags env labels = Return ts /\ tags row = Some ts)
  /\ fault env (InsertEntry userId) = None
  /\ journal_entries (fst (createJournalEntry env body heading labels files userId w))
     = journal_entries w ++ [row]
  /\ profiles (fst (createJournalEntry env body heading labels files userId w))
     = profiles w.
Proof.
  unfold createJournalEntry. destruct userId as [| u0 us]; [discriminate |].
  run_service.
  destruct (validateEntryContent env body) as [[] | ex]; [| discriminate].
  destruct (validatePhotos env files) as [[] | ex]; [| discriminate].
  destruct (encrypt env (trim body) (u0 :: us)) as [ec | ex]; [| discriminate].
  destruct (encrypt env (trim heading) (u0 :: us)) as [et | ex]; [| discriminate].
  destruct (JournalService.entryDate (zones env) (now env) _) as [d | ex] eqn:Hd;
    [| discriminate].
  destruct (validateTags env labels) as [ts | ex]; [| discriminate].
  destruct (fault env (InsertEntry (u0 :: us))); [discriminate |].
  destruct files as [| f fs].
  - cbn [fst snd journal_entries profiles]. intros H. injection H as <-.
    cbn [id user_id content title source entry_date tags created_at].
    repeat split; try reflexivity; try discriminate; eauto.
  - unfold on_photos. cbn [photos].
    destruct (uploadPhotos env _ _ _ _) as [ps [[] | ex]];
      cbn [fst snd journal_entries profiles]; [| discriminate].
    intros H. injection H as <-.
    cbn [id user_id content title source entry_date tags created_at].
    repeat split; try reflexivity; try discriminate; eauto.
Qed.

(** X2: whatever [createJournalEntry] does, the table afterwards is the
    table before followed by at most one new row; rows already stored are
    never changed, and profiles are not touched. A new row belongs to the
    caller, has source "web", the id that the database gave it, and the
    encryptions of the trimmed content and title. When the function
    returns a row, that row is the one appended; with an empty user id
    nothing is appended and no call is made. *)
Theorem create_appends_at_most_one_row (env : Env) (body heading : jsstring)
    (labels : list jsstring) (files : list File) (userId : jsstring) (w : World) :
  let run := createJournalEntry env body heading labels files userId w in
  exists added,
    journal_entries (fst run) = journal_entries w ++ added
    /\ (List.length added <= 1)%nat
    /\ profiles (fst run) = profiles w
    /\ (forall row, In row added ->
          user_id row = userId
          /\ source row = lit "web"
          /\ id row = new_id env (journal_entries w)
          /\ encrypt env (trim body) userId = Return (content row)
          /\ encrypt env (trim heading) userId = Return (title row))
    /\ (forall row, snd run = Return row -> added = [row])
    /\ (userId = [] ->
        added = [] /\ calls (fst run) = calls w
        /\ snd run = Throw (Error (lit "User not authenticated"))).
Proof.
  cbv zeta. unfold createJournalEntry.
  destruct userId as [| u0 us].
  { exists []. cbn [fst snd throw]. rewrite app_nil_r.
    repeat split; try reflexivity; try (cbn; lia); try contradiction.
    intros row H; discriminate. }
  run_service.
  assert (Hnone : forall (w1 : World) (ex : Exn),
             journal_entries w1 = journal_entries w ->
             profiles w1 = profiles w ->
             exists added,
               journal_entries (fst (w1, @Throw EntryRow ex)) = journal_entries w ++ added
               /\ (List.length added <= 1)%nat
               /\ profiles (fst (w1, @Throw EntryRow ex)) = profiles w
               /\ (forall row, In row added ->
                     user_id row = u0 :: us
                     /\ source row = lit "web"
                     /\ id row = new_id env (journal_entries w)
                     /\ encrypt env (trim body) (u0 :: us) = Return (content row)
                     /\ encrypt env (trim heading) (u0 :: us) = Return (title row))
               /\ (forall row, snd (w1, @Throw EntryRow ex) = Return row -> added = [row])
               /\ (u0 :: us = [] ->
                   added = [] /\ calls (fst (w1, @Throw EntryRow ex)) = calls w
                   /\ snd (w1, @Throw EntryRow ex) = Throw (Error (lit "User not authenticated")))).
  { intros w1 ex H1 H2. exists []. cbn [fst snd]. rewrite app_nil_r.
    repeat split; try assumption; try (cbn; lia); try contradiction;
      try discriminate. }
  destruct (validateEntryContent env body) as [[] | ex]; [| apply Hnone; reflexivity].
  destruct (validatePhotos env files) as [[] | ex]; [| apply Hnone; reflexivity].
  destruct (encrypt env (trim body) (u0 :: us)) as [ec | ex] eqn:Hec;
    [| apply Hnone; reflexivity].
  destruct (encrypt env (trim heading) (u0 :: us)) as [et | ex] eqn:Het;
    [| apply Hnone; reflexivity].
  destruct (JournalService.entryDate (zones env) (now env) _) as [d | ex];
    [| apply Hnone; reflexivity].
  destruct (validateTags env labels) as [ts | ex]; [| apply Hnone; reflexivity].
  destruct (fault env (InsertEntry (u0 :: us))); [apply Hnone; reflexivity |].
  cbn [fst snd journal_entries profiles photos calls].
  match goal with
  | |- context [journal_entries w ++ [?r]] => set (row := r)
  end.
  assert (Hdone : forall (w1 : World) (o : Outcome EntryRow),
             journal_entries w1 = journal_entries w ++ [row] ->
             profiles w1 = profiles w ->
             (forall row', o = Return row' -> row' = row) ->
             exists added,
               journal_entries (fst (w1, o)) = journal_entries w ++ added
               /\ (List.length added <= 1)%nat
               /\ profiles (fst (w1, o)) = profiles w
               /\ (forall row0, In row0 added ->
                     user_id row0 = u0 :: us
                     /\ source row0 = lit "web"
                     /\ id row0 = new_id env (journal_entries w)
                     /\ Return ec = Return (content row0)
                     /\ Return et = Return (title row0))
               /\ (forall row0, snd (w1, o) = Return row0 -> added = [row0])
               /\ (u0 :: us = [] ->
                   added = [] /\ calls (fst (w1, o)) = calls w
                   /\ snd (w1, o) = Throw (Error (lit "User not authenticated")))).
  { intros w1 o H1 H2 H3. exists [row]. cbn [fst snd].
    split; [exact H1 |]. split; [cbn; lia |]. split; [exact H2 |].
    split; [intros row0 [<- | []]; repeat split; reflexivity |].
    split; [intros row0 Hr; apply H3 in Hr; congruence | discriminate]. }
  destruct files as [| f fs].
  - apply Hdone; try reflexivity. intros row' Hr. congruence.
  - unfold on_photos. cbn [photos].
    destruct (uploadPhotos env _ _ _ _) as [ps [[] | ex]];
      apply Hdone; try reflexivity; intros row' Hr; congruence.
Qed.

(** X3: a stored timezone that the runtime does not know makes
    [createJournalEntry] fail: it throws, no insert is requested and the
    table is left as it was. *)
Theorem create_fails_on_unknown_timezone (env : Env) (body heading : jsstring)
    (labels : list jsstring) (files : list File) (userId : jsstring) (w : World) :
  userId <> [] ->
  zone_offset (zones env) (zone_of env w userId) = None ->
  let run := createJournalEntry env body heading labels files userId w in
  (exists ex, snd run = Throw ex)
  /\ journal_entries (fst run) = journal_entries w
  /\ ~ In (InsertEntry userId) (skipn (List.length (calls w)) (calls (fst run))).
Proof.
  intros Hne Hz. cbv zeta. unfold createJournalEntry.
  destruct userId as [| u0 us]; [congruence |].
  run_service.
  assert (Hd : JournalService.entryDate (zones env) (now env)
                 (zone_of env w (u0 :: us))
               = Throw (Error (lit "Invalid time zone specified"))).
  { unfold JournalService.entryDate, toLocaleString_en_US. rewrite Hz. reflexivity. }
  assert (Hskip : forall (l extra : list Call), skipn (List.length l) (l ++ extra) = extra).
  { intros l extra. rewrite skipn_app, skipn_all, Nat.sub_diag. reflexivity. }
  destruct (validateEntryContent env body) as [[] | ex].
  2:{ cbn [fst snd]. split; [eauto |]. split; [reflexivity |].
      rewrite skipn_all. intros []. }
  destruct (validatePhotos env files) as [[] | ex].
  2:{ cbn [fst snd]. split; [eauto |]. split; [reflexivity |].
      rewrite skipn_all. intros []. }
  destruct (encrypt env (trim body) (u0 :: us)) as [ec | ex].
  2:{ cbn [fst snd calls]. split; [eauto |]. split; [reflexivity |].
      rewrite Hskip. intros [H | []]; discriminate. }
  destruct (encrypt env (trim heading) (u0 :: us)) as [et | ex].
  2:{ cbn [fst snd calls]. split; [eauto |]. split; [reflexivity |].
      rewrite <- app_assoc, Hskip. intros [H | [H | []]]; discriminate. }
  match goal with
  | |- context [JournalService.entryDate ?a ?b ?c] =>
      change (JournalService.entryDate a b c)
        with (JournalService.entryDate (zones env) (now env)
                (zone_of env w (u0 :: us)))
  end.
  rewrite Hd. cbn [fst snd calls journal_entries].
  split; [eauto |]. split; [reflexivity |].
  rewrite <- !app_assoc, Hskip. intros [H | [H | [H | []]]]; discriminate.
Qed.

(** X4: when the user has no usable profile row (none, several, a failed
    read, or a row without timezone), the entry date of a created entry is
    the one computed for the zone "UTC". *)
Theorem create_defaults_to_UTC (env : Env) (body heading : jsstring)
    (labels : list jsstring) (files : list File) (userId : jsstring)
    (w : World) (row : EntryRow) :
  snd (createJournalEntry env body heading labels files userId w) = Return row ->
  (fault env (SelectProfile userId) <> None
   \/ select_profile w userId = None
   \/ exists p, select_profile w userId = Some p
                /\ Js.truthy (profile_timezone p) = false) ->
  entryDate (zones env) (now env) (lit "UTC") = Return (entry_date row).
Proof.
  intros Hret Hp.
  destruct (create_success _ _ _ _ _ _ _ Hret) as (_ & _ & _ & _ & Hd & _).
  assert (Hz : zone_of env w userId = lit "UTC").
  { destruct Hp as [Hf | [Hn | (p & Hs & Ht)]].
    - destruct (fault env (SelectProfile userId)); [reflexivity | congruence].
    - rewrite Hn. destruct (fault env (SelectProfile userId)); reflexivity.
    - rewrite Hs. destruct (fault env (SelectProfile userId)); [reflexivity |].
      destruct (profile_timezone p) as [[| c s] |]; try reflexivity.
      discriminate. }
  rewrite Hz in Hd. exact Hd.
Qed.

(** X5: with a cipher whose decryption undoes its encryption, an entry
    that was just created is listed by the next fetch of that user with
    the trimmed content and title that were given, the source "web" and
    the entry date that was stored. *)
Theorem create_then_fetch (env : Env) (body heading : jsstring)
    (labels : list jsstring) (files : list File) (userId : jsstring)
    (w : World) (row : EntryRow) :
  (forall plain u cipher,
      encrypt env plain u = Return cipher -> decrypt env cipher u = Return plain) ->
  fault env (SelectEntries userId) = None ->
  snd (createJournalEntry env body heading labels files userId w) = Return row ->
  exists entries e,
    snd (fetchJournalEntries env userId
           (fst (createJournalEntry env body heading labels files userId w)))
    = Return entries
    /\ In e entries
    /\ e_id e = id row
    /\ e_content e = trim body
    /\ e_title e = trim heading
    /\ e_source e = lit "web"
    /\ e_entry_date e = entry_date row
    /\ e_user_id e = userId.
Proof.
  intros Hrt Hq Hret.
  destruct (create_success _ _ _ _ _ _ _ Hret)
    as (Hne & Hrow & Hc & Ht & _ & _ & _ & Hrows & _).
  destruct (fetch_run env
              (fst (createJournalEntry env body heading labels files userId w))
              Hne Hq) as [log Hrun].
  rewrite Hrun. cbn [snd].
  set (w' := fst (createJournalEntry env body heading labels files userId w)) in *.
  set (sel := (row, filter (fun p => Js.eqb (entry_id p) (id row))
                      (journal_photos (photos w')))).
  set (f := shown env userId).
  exists (List.map f (select_entries w' userId)), (f sel).
  split; [reflexivity |]. split.
  - apply in_map. unfold select_entries. subst sel.
    apply (in_map (fun r => (r, filter (fun p => Js.eqb (entry_id p) (id r))
                                   (journal_photos (photos w'))))).
    apply order_desc_In. apply filter_In. split.
    + rewrite Hrows. apply in_or_app. right. left. reflexivity.
    + rewrite Hrow. cbn [user_id]. apply eqb_refl.
  - subst f sel. cbv beta zeta. cbn [fst snd].
    rewrite (Hrt _ _ _ Hc), (Hrt _ _ _ Ht).
    rewrite Hrow. cbn [make_entry e_id e_content e_title e_source e_entry_date
                         e_user_id id source entry_date user_id].
    repeat split; reflexivity.
Qed.

(** *** Updating *)

Lemma update_success (env : Env) (entryId body : jsstring)
    (labels : option (list jsstring)) (newPhotos : option (list File))
    (removedPhotos : option (list jsstring)) (userId : jsstring) (w : World) :
  snd (updateJournalEntry env entryId body labels newPhotos removedPhotos userId w)
  = Return tt ->
  exists enc checked,
    encrypt env (trim body) userId = Return enc
    /\ journal_entries
         (fst (updateJournalEntry env entryId body labels newPhotos removedPhotos
                 userId w))
       = update_entries {| u_content := enc; u_tags := checked |}
           entryId userId (journal_entries w).
Proof.
  unfold updateJournalEntry. run_service.
  destruct (validateEntryContent env body) as [[] | ex]; [| discriminate].
  destruct (encrypt env (trim body) userId) as [enc | ex]; [| discriminate].
  destruct labels as [ts |].
  - destruct (validateTags env ts) as [ts' | ex]; [| discriminate].
    destruct (fault env (UpdateEntry entryId userId)); [discriminate |].
    intros _. exists enc, (Some ts'). split; [reflexivity |].
    rewrite update_photos_keeps. reflexivity.
  - destruct (fault env (UpdateEntry entryId userId)); [discriminate |].
    intros _. exists enc, None. split; [reflexivity |].
    rewrite update_photos_keeps. reflexivity.
Qed.

Lemma update_entries_no_match (d : UpdateData) (entryId userId : jsstring)
    (rows : list EntryRow) :
  (forall r, In r rows -> id r = entryId -> user_id r <> userId) ->
  update_entries d entryId userId rows = rows.
Proof.
  unfold update_entries. induction rows as [| r rows IH]; intros H; cbn [List.map].
  - reflexivity.
  - rewrite IH by (intros r' Hr'; apply H; right; exact Hr').
    destruct (Js.eqb (id r) entryId) eqn:Hi; cbn [andb]; [| reflexivity].
    apply eqb_eq in Hi.
    rewrite (eqb_false (H r (or_introl eq_refl) Hi)). reflexivity.
Qed.

(** X6: an update addressed to an entry that the caller does not own
    (no row with that id and that owner) changes no row of the table,
    whatever else it does. *)
Theorem update_of_foreign_entry_changes_nothing (env : Env)
    (entryId body : jsstring) (labels : option (list jsstring))
    (newPhotos : option (list File)) (removedPhotos : option (list jsstring))
    (userId : jsstring) (w : World) :
  (forall r, In r (journal_entries w) -> id r = entryId -> user_id r <> userId) ->
  journal_entries
    (fst (updateJournalEntry env entryId body labels newPhotos removedPhotos
            userId w))
  = journal_entries w.
Proof.
  intros Hforeign.
  destruct (updateJournalEntry_entries env entryId body labels newPhotos
              removedPhotos userId w) as [H | (enc & checked & _ & _ & H)];
    cbv zeta in H; rewrite H; [reflexivity |].
  apply update_entries_no_match. exact Hforeign.
Qed.

(** X7: with a cipher whose decryption undoes its encryption, after a
    successful update of an entry of the caller whose title decrypts, the
    next fetch lists that entry with the trimmed new content, the old
    title and the old entry date. *)
Theorem update_then_fetch (env : Env) (entryId body : jsstring)
    (labels : option (list jsstring)) (newPhotos : option (list File))
    (removedPhotos : option (list jsstring)) (userId : jsstring) (w : World)
    (r : EntryRow) (heading : jsstring) :
  (forall plain u cipher,
      encrypt env plain u = Return cipher -> decrypt env cipher u = Return plain) ->
  userId <> [] ->
  fault env (SelectEntries userId) = None ->
  In r (journal_entries w) ->
  id r = entryId ->
  user_id r = userId ->
  decrypt env (title r) userId = Return heading ->
  snd (updateJournalEntry env entryId body labels newPhotos removedPhotos userId w)
  = Return tt ->
  exists entries e,
    snd (fetchJournalEntries env userId
           (fst (updateJournalEntry env entryId body labels newPhotos
                   removedPhotos userId w)))
    = Return entries
    /\ In e entries
    /\ e_id e = entryId
    /\ e_content e = trim body
    /\ e_title e = heading
    /\ e_entry_date e = entry_date r
    /\ e_timestamp e = created_at r.
Proof.
  intros Hrt Hne Hq Hin Hid Hu Htitle Hret.
  destruct (@update_success _ _ _ _ _ _ _ _ Hret) as (enc & checked & Henc & Hrows).
  set (w' := fst (updateJournalEntry env entryId body labels newPhotos
                    removedPhotos userId w)) in *.
  destruct (fetch_run env w' Hne Hq) as [log Hrun].
  rewrite Hrun. cbn [snd].
  set (d := {| u_content := enc; u_tags := checked |}) in *.
  set (r' := apply_update d r).
  set (sel := (r', filter (fun p => Js.eqb (entry_id p) (id r'))
                     (journal_photos (photos w')))).
  set (f := shown env userId).
  exists (List.map f (select_entries w' userId)), (f sel).
  split; [reflexivity |]. split.
  - apply in_map. unfold select_entries. subst sel.
    apply (in_map (fun x => (x, filter (fun p => Js.eqb (entry_id p) (id x))
                                   (journal_photos (photos w'))))).
    apply order_desc_In. apply filter_In. split.
    + rewrite Hrows. unfold update_entries.
      apply in_map_iff. exists r. split; [| exact Hin].
      rewrite Hid, Hu, !eqb_refl. reflexivity.
    + subst r'. cbn [apply_update user_id]. rewrite Hu. apply eqb_refl.
  - subst f sel r' d. cbv beta zeta. cbn [fst snd apply_update content title u_content].
    rewrite (Hrt _ _ _ Henc), Htitle.
    cbn [make_entry e_id e_content e_title e_entry_date e_timestamp
           id entry_date created_at].
    repeat split; try reflexivity. exact Hid.
Qed.

(** *** Removing photos *)

(** The file name a photo URL stands for, and the requests made for it. *)
Abbreviation file_of pathname := (last (split 47%N pathname) []).
Abbreviation removal_calls env :=
  (fun entryId userId url : jsstring =>
     match url_pathname env url with
     | Some pathname =>
         [ StorageRemove (userId ++ lit "/" ++ entryId ++ lit "/" ++ file_of pathname);
           DeletePhotoRow entryId (file_of pathname) ]
     | None => []
     end).

Lemma remove_photo_run (env : Env) (entryId userId url : jsstring) (w : World) :
  exists ps,
    remove_photo env entryId userId url w =
    ({| journal_entries := journal_entries w; profiles := profiles w;
        photos := ps; calls := calls w ++ removal_calls env entryId userId url |},
     Return tt)
    /\ (forall p, In p (journal_photos ps) -> In p (journal_photos (photos w)))
    /\ (forall p, In p (journal_photos (photos w)) -> entry_id p <> entryId ->
                  In p (journal_photos ps))
    /\ (forall pathname,
          url_pathname env url = Some pathname ->
          fault env (DeletePhotoRow entryId (file_of pathname)) = None ->
          forall p, In p (journal_photos ps) ->
                    ~ (entry_id p = entryId /\ file_name p = file_of pathname)).
Proof.
  unfold remove_photo. cbv beta.
  destruct (url_pathname env url) as [pathname |].
  2:{ exists (photos w). run_service. rewrite app_nil_r.
      split; [destruct w; reflexivity |]. split; [auto |]. split; [auto |].
      discriminate. }
  run_service.
  set (file := file_of pathname).
  set (path := userId ++ lit "/" ++ entryId ++ lit "/" ++ file).
  assert (Hkeep : forall (rows : list PhotoRow) p,
             In p rows -> entry_id p <> entryId ->
             In p (filter (fun q => negb (Js.eqb (entry_id q) entryId
                                          && Js.eqb (file_name q) file)) rows)).
  { intros rows p Hp Hne. apply filter_In. split; [exact Hp |].
    rewrite (eqb_false Hne). reflexivity. }
  assert (Hgone : forall (rows : list PhotoRow) p,
             In p (filter (fun q => negb (Js.eqb (entry_id q) entryId
                                          && Js.eqb (file_name q) file)) rows) ->
             ~ (entry_id p = entryId /\ file_name p = file)).
  { intros rows p Hp [H1 H2]. apply filter_In in Hp as [_ Hp].
    rewrite H1, H2, !eqb_refl in Hp. discriminate. }
  destruct (fault env (StorageRemove path)); run_service;
    destruct (fault env (DeletePhotoRow entryId file)) eqn:Hdb; run_service;
    rewrite <- app_assoc; cbn [app];
    eexists; (split; [reflexivity |]); cbn [journal_photos];
    (split; [try (intros p Hp; apply filter_In in Hp as [Hp _]; exact Hp); auto |]);
    (split; [try (apply Hkeep); auto |]);
    intros pn Hpn Hf; injection Hpn as <-;
    try (unfold file in Hdb; congruence); apply Hgone.
Qed.

(** X8: the photo-removal loop of an update cannot fail. For every URL
    that parses it asks storage to remove the object and then asks the
    database to delete the photo row, also when the storage request
    failed, and it goes on to the next URL whatever happened; URLs that do
    not parse are skipped. It only ever deletes photo rows of the entry
    being updated, and a row whose delete request was accepted is gone at
    the end. *)
Theorem photo_removal_is_fault_tolerant (env : Env) (entryId userId : jsstring)
    (urls : list jsstring) (w : World) :
  let run := for_each (remove_photo env entryId userId) urls w in
  snd run = Return tt
  /\ calls (fst run) = calls w ++ flat_map (removal_calls env entryId userId) urls
  /\ journal_entries (fst run) = journal_entries w
  /\ (forall p, In p (journal_photos (photos (fst run))) ->
                In p (journal_photos (photos w)))
  /\ (forall p, In p (journal_photos (photos w)) -> entry_id p <> entryId ->
                In p (journal_photos (photos (fst run))))
  /\ (forall url pathname,
        In url urls ->
        url_pathname env url = Some pathname ->
        fault env (DeletePhotoRow entryId (file_of pathname)) = None ->
        forall p, In p (journal_photos (photos (fst run))) ->
                  ~ (entry_id p = entryId /\ file_name p = file_of pathname)).
Proof.
  cbv zeta. revert w. induction urls as [| url urls IH]; intros w.
  - cbn [for_each flat_map fst snd ret]. rewrite app_nil_r.
    repeat split; auto.
  - cbn [for_each flat_map].
    destruct (remove_photo_run env entryId userId url w)
      as (ps & Hrun & Hsub & Hother & Hgone).
    match type of Hrun with
    | _ = (?w0, _) => set (w1 := w0) in Hrun
    end.
    assert (Heq : bind (remove_photo env entryId userId url)
                    (fun _ => for_each (remove_photo env entryId userId) urls) w
                  = for_each (remove_photo env entryId userId) urls w1).
    { unfold bind. rewrite Hrun. reflexivity. }
    rewrite Heq.
    destruct (IH w1) as (Hret & Hcalls & Hent & Hsub' & Hother' & Hgone').
    split; [exact Hret |].
    split; [rewrite Hcalls; subst w1; cbn [calls]; rewrite <- app_assoc; reflexivity |].
    split; [exact Hent |].
    split; [intros p Hp; apply Hsub, Hsub'; exact Hp |].
    split; [intros p Hp Hne; apply Hother'; [apply Hother; assumption | exact Hne] |].
    intros u pn [<- | Hin] Hpn Hf p Hp.
    + apply (Hgone pn Hpn Hf). apply Hsub'. exact Hp.
    + apply (Hgone' u pn Hin Hpn Hf p Hp).
Qed.

(** *** What a fetch lists *)

(** The entries a successful fetch returns are the user's rows, one by
    one. *)
Lemma fetch_lists (env : Env) (userId : jsstring) (w : World) :
  userId <> [] ->
  fault env (SelectEntries userId) = None ->
  exists entries,
    snd (fetchJournalEntries env userId w) = Return entries
    /\ (forall e, In e entries ->
          exists r, In r (journal_entries w) /\ user_id r = userId
                    /\ e_id e = id r)
    /\ (forall r, In r (journal_entries w) -> user_id r = userId ->
          exists e, In e entries /\ e_id e = id r).
Proof.
  intros Hne Hq. destruct (fetch_run env w Hne Hq) as [log Hrun].
  exists (List.map (shown env userId) (select_entries w userId)).
  split; [rewrite Hrun; reflexivity |].
  pose proof (shown_fields env userId) as Hf.
  set (f := shown env userId) in *. clearbody f.
  unfold select_entries.
  set (join := fun r : EntryRow =>
                 (r, filter (fun p => Js.eqb (entry_id p) (id r))
                       (journal_photos (photos w)))).
  split.
  - intros e He. apply in_map_iff in He as (sel & <- & Hsel).
    apply in_map_iff in Hsel as (r & <- & Hr).
    apply order_desc_In, filter_In in Hr as [Hr Hu]. apply eqb_eq in Hu.
    exists r. destruct (Hf (join r)) as (Hi & _). auto.
  - intros r Hr Hu. exists (f (join r)).
    destruct (Hf (join r)) as (Hi & _). split; [| exact Hi].
    apply in_map. apply in_map. apply order_desc_In, filter_In.
    split; [exact Hr |]. rewrite Hu. apply eqb_refl.
Qed.

End JournalServiceMore.

(** ** Deleting an entry *)

Module JournalServiceDeleteFacts.
Import Js Effect JournalService JournalServiceDelete JournalServiceFacts
  JournalServiceMore.

#[local] Arguments lit : simpl never.

Lemma delete_entries_In (entryId userId : jsstring) (rows : list EntryRow)
    (r : EntryRow) :
  In r (delete_entries entryId userId rows) <->
  In r rows /\ ~ (id r = entryId /\ user_id r = userId).
Proof.
  unfold delete_entries. rewrite filter_In, negb_true_iff, andb_false_iff.
  split.
  - intros [Hin Hb]. split; [exact Hin |]. intros [H1 H2].
    rewrite H1, H2, !eqb_refl in Hb. destruct Hb; discriminate.
  - intros [Hin Hn]. split; [exact Hin |].
    destruct (Js.eqb (id r) entryId) eqn:E1; [| left; reflexivity].
    destruct (Js.eqb (user_id r) userId) eqn:E2; [| right; reflexivity].
    apply eqb_eq in E1, E2. exfalso. apply Hn. split; assumption.
Qed.

Lemma delete_entries_no_match (entryId userId : jsstring) (rows : list EntryRow) :
  (forall r, In r rows -> id r = entryId -> user_id r <> userId) ->
  delete_entries entryId userId rows = rows.
Proof.
  unfold delete_entries. induction rows as [| r rows IH]; intros H; cbn [filter].
  - reflexivity.
  - rewrite IH by (intros r' Hr'; apply H; right; exact Hr').
    destruct (Js.eqb (id r) entryId) eqn:E1; cbn [andb negb]; [| reflexivity].
    apply eqb_eq in E1.
    rewrite (eqb_false (H r (or_introl eq_refl) E1)). reflexivity.
Qed.

Lemma delete_run (denv : DeleteEnv) (entryId userId : jsstring) (w : World) :
  let run := deleteJournalEntry denv entryId userId w in
  profiles (fst run) = profiles w
  /\ ((snd run = Return tt
       /\ journal_entries (fst run)
          = delete_entries entryId userId (journal_entries w))
      \/ ((exists ex, snd run = Throw ex)
          /\ journal_entries (fst run) = journal_entries w)).
Proof.
  cbv zeta. unfold deleteJournalEntry, on_photos. run_service.
  destruct (deleteEntryPhotos denv entryId (photos w)) as [ps [[] | ex]].
  2:{ cbn [fst snd journal_entries profiles]. split; [reflexivity |].
      right. split; [eauto | reflexivity]. }
  destruct (delete_fault denv) as [e |]; run_service;
    (split; [reflexivity |]); [right | left]; split; eauto.
Qed.

(** X9: [deleteJournalEntry] removes the rows with the given id that
    belong to the given user and no other row: every other row stays,
    in its place. If the photo helper throws or storage answers the
    delete with an error, the function throws and the table is as it
    was. In particular a user who does not own the entry removes
    nothing. *)
Theorem delete_removes_only_the_owned_entry (denv : DeleteEnv)
    (entryId userId : jsstring) (w : World) :
  let run := deleteJournalEntry denv entryId userId w in
  (snd run = Return tt ->
     journal_entries (fst run)
     = filter (fun r => negb (Js.eqb (id r) entryId && Js.eqb (user_id r) userId))
         (journal_entries w)
     /\ (forall r, In r (journal_entries (fst run)) <->
                   In r (journal_entries w)
                   /\ ~ (id r = entryId /\ user_id r = userId)))
  /\ (snd run <> Return tt -> journal_entries (fst run) = journal_entries w)
  /\ ((forall r, In r (journal_entries w) -> id r = entryId -> user_id r <> userId) ->
      journal_entries (fst run) = journal_entries w)
  /\ profiles (fst run) = profiles w.
Proof.
  cbv zeta.
  destruct (delete_run denv entryId userId w) as [Hp [[Hret Hrows] | [[ex Hex] Hrows]]];
    cbv zeta in *.
  - split; [intros _; split; [exact Hrows |] |].
    { intros r. rewrite Hrows. apply delete_entries_In. }
    split; [intros H; contradiction |]. split; [| exact Hp].
    intros Hforeign. rewrite Hrows. apply delete_entries_no_match. exact Hforeign.
  - split; [intros H; rewrite Hex in H; discriminate |].
    split; [intros _; exact Hrows |]. split; [intros _; exact Hrows | exact Hp].
Qed.

(** X10: after a successful delete of entry [entryId] by its owner, a
    fetch by that user lists no entry with that id, and still lists the
    user's other entries. *)
Theorem delete_then_fetch (env : Env) (denv : DeleteEnv)
    (entryId userId : jsstring) (w : World) :
  userId <> [] ->
  fault env (SelectEntries userId) = None ->
  snd (deleteJournalEntry denv entryId userId w) = Return tt ->
  exists entries,
    snd (fetchJournalEntries env userId
           (fst (deleteJournalEntry denv entryId userId w))) = Return entries
    /\ (forall e, In e entries -> e_id e <> entryId)
    /\ (forall r, In r (journal_entries w) -> user_id r = userId ->
                  id r <> entryId ->
                  exists e, In e entries /\ e_id e = id r).
Proof.
  intros Hne Hq Hret.
  destruct (delete_run denv entryId userId w) as [_ [[_ Hrows] | [[ex Hex] _]]];
    cbv zeta in *; [| rewrite Hex in Hret; discriminate].
  destruct (fetch_lists env (fst (deleteJournalEntry denv entryId userId w)) Hne Hq)
    as (entries & Hfetch & Hown & Hall).
  exists entries. split; [exact Hfetch |]. split.
  - intros e He Hid. destruct (Hown e He) as (r & Hr & Hur & Hir).
    rewrite Hrows in Hr. apply delete_entries_In in Hr as [_ Hn].
    apply Hn. split; congruence.
  - intros r Hr Hu Hid. apply Hall; [| exact Hu].
    rewrite Hrows. apply delete_entries_In. split; [exact Hr |].
    intros [H _]. contradiction.
Qed.

End JournalServiceDeleteFacts.

(** ** More on the authentication gateway *)

Module SecureAuthMore.
Import Js Regex Effect SecureAuth RegexFacts SecureAuthFacts.

#[local] Arguments lit : simpl never.
#[local] Arguments getClientIP : simpl never.
#[local] Arguments json_response : simpl never.

(** *** Email addresses *)

Lemma Lang_Cat_iff (a b : regex) (s : jsstring) :
  Lang (Cat a b) s <-> exists s1 s2, s = s1 ++ s2 /\ Lang a s1 /\ Lang b s2.
Proof.
  split.
  - intros H. inversion H; subst. eauto.
  - intros (s1 & s2 & -> & H1 & H2). constructor; assumption.
Qed.

Lemma Lang_Cls_iff (p : char -> bool) (s : jsstring) :
  Lang (Cls p) s <-> exists c, s = [c] /\ p c = true.
Proof.
  split.
  - intros H. inversion H; subst. eauto.
  - intros (c & -> & H). constructor. exact H.
Qed.

Lemma Lang_Star_Cls (p : char -> bool) (s : jsstring) :
  Lang (Star (Cls p)) s <-> Forall (fun c => p c = true) s.
Proof.
  split.
  - intros H. remember (Star (Cls p)) as r eqn:Hr.
    induction H as [| | | | | a | a s t Hs _ Ht IHt]; try discriminate.
    + constructor.
    + injection Hr as ->. apply Forall_app. split; [| apply IHt; reflexivity].
      inversion Hs; subst. constructor; [assumption | constructor].
  - intros H. induction H as [| c s Hc _ IH]; [constructor |].
    change (c :: s) with ([c] ++ s). apply LStarS; [constructor; exact Hc | exact IH].
Qed.

Lemma Lang_Plus_Cls (p : char -> bool) (s : jsstring) :
  Lang (Plus (Cls p)) s <-> s <> [] /\ Forall (fun c => p c = true) s.
Proof.
  unfold Plus. rewrite Lang_Cat_iff. split.
  - intros (s1 & s2 & -> & H1 & H2).
    apply Lang_Cls_iff in H1 as (c & -> & Hc). apply Lang_Star_Cls in H2.
    split; [discriminate |]. constructor; assumption.
  - intros [Hne H]. destruct s as [| c s]; [congruence |].
    inversion H; subst. exists [c], s.
    split; [reflexivity |]. split; [constructor; assumption |].
    apply Lang_Star_Cls. assumption.
Qed.

(** X11: [validateEmail] accepts exactly the strings of at most 254 code
    units of the form local@domain.tail in which the three parts are not
    empty and contain neither white space nor "@" (each part may
    contain dots). *)
Theorem validateEmail_spec (e : jsstring) :
  validateEmail e = true <->
  (Js.length e <= 254)%Z
  /\ exists l d t,
       e = l ++ 64%N :: d ++ 46%N :: t
       /\ l <> [] /\ d <> [] /\ t <> []
       /\ (forall c, In c (l ++ d ++ t) -> is_space c = false /\ c <> 64%N).
Proof.
  assert (Hok : forall s : jsstring,
             Forall (fun c => negb (is_space c || N.eqb c 64) = true) s <->
             (forall c, In c s -> is_space c = false /\ c <> 64%N)).
  { intros s. rewrite Forall_forall. split; intros H c Hc; specialize (H c Hc).
    - apply negb_true_iff, orb_false_iff in H as [H1 H2].
      apply N.eqb_neq in H2. auto.
    - destruct H as [H1 H2]. apply N.eqb_neq in H2. rewrite H1, H2. reflexivity. }
  unfold validateEmail, emailRegex, not_space_at.
  rewrite andb_true_iff, Z.leb_le, matches_Lang.
  split.
  - intros [H Hlen]. split; [exact Hlen |].
    apply Lang_Cat_iff in H as (l & r1 & -> & Hl & H).
    apply Lang_Cat_iff in H as (a & r2 & -> & Ha & H).
    apply Lang_Cat_iff in H as (d & r3 & -> & Hd & H).
    apply Lang_Cat_iff in H as (b & t & -> & Hb & Ht).
    apply Lang_Cls_iff in Ha as (ca & -> & Hca). apply N.eqb_eq in Hca. subst ca.
    apply Lang_Cls_iff in Hb as (cb & -> & Hcb). apply N.eqb_eq in Hcb. subst cb.
    apply Lang_Plus_Cls in Hl as [Hl1 Hl2], Hd as [Hd1 Hd2], Ht as [Ht1 Ht2].
    exists l, d, t. cbn [app]. repeat split; try assumption;
      apply in_app_or in H as [H | H];
      [ | apply in_app_or in H as [H | H] | | apply in_app_or in H as [H | H] ];
      first [ apply (proj1 (Hok l) Hl2 c H)
            | apply (proj1 (Hok d) Hd2 c H)
            | apply (proj1 (Hok t) Ht2 c H) ].
  - intros (Hlen & l & d & t & -> & Hl & Hd & Ht & Hall). split; [| exact Hlen].
    change (l ++ 64%N :: d ++ 46%N :: t)
      with (l ++ [64%N] ++ d ++ [46%N] ++ t).
    repeat (apply LCat);
      try (apply Lang_Plus_Cls; split; [assumption |]; apply Hok;
           intros c Hc; apply Hall; rewrite !in_app_iff; tauto);
      constructor; reflexivity.
Qed.

(** *** Input validation *)

Lemma is_signin_iff (a : option jsstring) :
  is_signin a = true <-> a = Some (lit "signin").
Proof.
  unfold is_signin. destruct a as [s |]; [| split; discriminate].
  rewrite JournalServiceMore.eqb_iff. split; congruence.
Qed.

Lemma is_signup_iff (a : option jsstring) :
  is_signup a = true <-> a = Some (lit "signup").
Proof.
  unfold is_signup. destruct a as [s |]; [| split; discriminate].
  rewrite JournalServiceMore.eqb_iff. split; congruence.
Qed.

Lemma truthy_iff (o : option jsstring) :
  Js.truthy o = true <-> exists s, o = Some s /\ s <> [].
Proof.
  destruct o as [[| c s] |]; cbn [Js.truthy]; split;
    try discriminate; try (intros (s' & H & Hne); congruence).
  intros _. exists (c :: s). split; [reflexivity | discriminate].
Qed.

(** X12: a request body passes input validation exactly when the action
    is "signin" or "signup", the email is present and valid, the password
    is present and not empty, the password is strong if the action is
    "signup", and the phone number, if one is given and not empty, is
    valid. A sign-in is not held to the password-strength rule. *)
Theorem input_validation_accepts (r : AuthRequest) :
  input_validation r = None <->
  (action r = Some (lit "signin") \/ action r = Some (lit "signup"))
  /\ (exists e, email r = Some e /\ validateEmail e = true)
  /\ (exists p, password r = Some p /\ p <> []
                /\ (action r = Some (lit "signup") -> validatePassword p = true))
  /\ (forall ph, phoneNumber r = Some ph -> ph <> [] ->
                 validatePhoneNumber ph = true).
Proof.
  split.
  - intros H. apply input_validation_None in H
      as (Hact & Hem & Hve & Hpw & Hstrong & Hphone).
    split; [rewrite <- is_signin_iff, <- is_signup_iff; exact Hact |].
    split.
    { exists (or_else (email r) []). split; [apply truthy_or_else, Hem | exact Hve]. }
    split.
    { apply truthy_iff in Hpw as (p & Hp & Hne). exists p.
      split; [exact Hp |]. split; [exact Hne |].
      intros Ha. apply is_signup_iff in Ha. specialize (Hstrong Ha).
      rewrite Hp in Hstrong. destruct p; [congruence | exact Hstrong]. }
    intros ph Hph Hne.
    assert (Ht : Js.truthy (phoneNumber r) = true).
    { apply truthy_iff. eauto. }
    specialize (Hphone Ht). rewrite Hph in Hphone.
    destruct ph; [congruence | exact Hphone].
  - intros (Hact & (e & He & Hve) & (p & Hp & Hpne & Hstrong) & Hphone).
    unfold input_validation. cbv zeta.
    assert (Hene : e <> []).
    { intros ->. vm_compute in Hve. discriminate. }
    assert (Hta : Js.truthy (action r) = true).
    { destruct Hact as [-> | ->]; reflexivity. }
    assert (Hin : is_signin (action r) || is_signup (action r) = true).
    { apply orb_true_iff. rewrite is_signin_iff, is_signup_iff. exact Hact. }
    rewrite Hta, Hin. cbn [negb orb].
    rewrite He, Hp.
    destruct e as [| e0 es]; [congruence |]. destruct p as [| p0 ps]; [congruence |].
    cbn [Js.truthy or_else negb orb]. rewrite Hve. cbn [negb].
    destruct (is_signup (action r)) eqn:Hsu.
    + apply is_signup_iff in Hsu. rewrite (Hstrong Hsu). cbn [negb andb].
      destruct (phoneNumber r) as [[| h hs] |] eqn:Hph; cbn [Js.truthy andb];
        try reflexivity.
      cbn [or_else]. rewrite (Hphone _ eq_refl) by discriminate. reflexivity.
    + cbn [andb].
      destruct (phoneNumber r) as [[| h hs] |] eqn:Hph; cbn [Js.truthy andb];
        try reflexivity.
      cbn [or_else]. rewrite (Hphone _ eq_refl) by discriminate. reflexivity.
Qed.

(** *** The client address *)

Lemma hd_split_no_sep (sep : char) (s : jsstring) :
  ~ In sep (hd [] (split sep s)).
Proof.
  induction s as [| c s IH]; cbn [split hd]; [intros [] |].
  destruct (N.eqb c sep) eqn:E; cbn [hd]; [intros [] |].
  apply N.eqb_neq in E.
  destruct (split sep s) as [| w ws]; cbn [hd] in *.
  - intros [H | []]. congruence.
  - intros [H | H]; [congruence | contradiction].
Qed.

Lemma hd_split_In (sep : char) (s : jsstring) (c : char) :
  In c (hd [] (split sep s)) -> In c s.
Proof.
  revert c. induction s as [| x s IH]; intros c; cbn [split hd]; [intros [] |].
  destruct (N.eqb x sep); cbn [hd]; [intros [] |].
  destruct (split sep s) as [| w ws]; cbn [hd] in *.
  - intros [H | []]. left. exact H.
  - intros [H | H]; [left; exact H | right; apply IH; exact H].
Qed.

Lemma drop_while_suffix (p : char -> bool) (s : jsstring) :
  exists pre, s = pre ++ drop_while p s.
Proof.
  induction s as [| c s [pre IH]]; cbn [drop_while]; [exists []; reflexivity |].
  destruct (p c).
  - exists (c :: pre). cbn [app]. f_equal. exact IH.
  - exists []. reflexivity.
Qed.

Lemma drop_while_head (p : char -> bool) (s : jsstring) (c : char) (r : jsstring) :
  drop_while p s = c :: r -> p c = false.
Proof.
  induction s as [| x s IH]; cbn [drop_while]; [discriminate |].
  destruct (p x) eqn:E; [exact IH |]. intros H. injection H as <- <-. exact E.
Qed.

Lemma trim_In (s : jsstring) (c : char) : In c (trim s) -> In c s.
Proof.
  unfold trim. intros H. apply in_rev in H.
  destruct (drop_while_suffix is_space (rev (drop_while is_space s))) as [pre Hpre].
  assert (H1 : In c (rev (drop_while is_space s))).
  { rewrite Hpre. apply in_or_app. right. exact H. }
  apply in_rev in H1.
  destruct (drop_while_suffix is_space s) as [pre' Hpre'].
  rewrite Hpre'. apply in_or_app. right. exact H1.
Qed.

Lemma trim_no_leading_space (s : jsstring) (c : char) (r : jsstring) :
  trim s = c :: r -> is_space c = false.
Proof.
  unfold trim. intros H.
  destruct (drop_while_suffix is_space (rev (drop_while is_space s))) as [pre Hpre].
  apply (f_equal (@rev char)) in Hpre. rewrite rev_involutive, rev_app_distr in Hpre.
  rewrite H in Hpre. cbn [app] in Hpre.
  apply (drop_while_head is_space s Hpre).
Qed.

Lemma trim_no_trailing_space (s : jsstring) (init : jsstring) (c : char) :
  trim s = init ++ [c] -> is_space c = false.
Proof.
  unfold trim. intros H.
  apply (f_equal (@rev char)) in H. rewrite rev_involutive, rev_app_distr in H.
  cbn [rev app] in H. apply (drop_while_head is_space _ H).
Qed.

(** X13: when the request carries a non-empty x-forwarded-for header, the
    client address is taken from it, whatever the other two headers say:
    it is the part before the first comma with white space stripped at
    both ends, so it contains no comma, neither starts nor ends with white
    space, and is made of code units of the header only. *)
Theorem getClientIP_from_forwarded_for (req : Request) (fwd : jsstring) :
  x_forwarded_for req = Some fwd ->
  fwd <> [] ->
  getClientIP req = trim (hd [] (split 44%N fwd))
  /\ ~ In 44%N (getClientIP req)
  /\ (forall c rest, getClientIP req = c :: rest -> is_space c = false)
  /\ (forall init c, getClientIP req = init ++ [c] -> is_space c = false)
  /\ (forall c, In c (getClientIP req) -> In c fwd).
Proof.
  intros Hf Hne.
  assert (Hip : getClientIP req = trim (hd [] (split 44%N fwd))).
  { unfold getClientIP. cbv zeta. rewrite Hf.
    destruct fwd as [| f0 fs]; [congruence | reflexivity]. }
  rewrite Hip. split; [reflexivity |]. split.
  - intros H. apply trim_In in H. exact (hd_split_no_sep _ _ H).
  - split; [intros c rest; apply trim_no_leading_space |].
    split; [intros init c; apply trim_no_trailing_space |].
    intros c H. apply trim_In in H. exact (hd_split_In _ _ _ H).
Qed.

(** X14: without a usable x-forwarded-for header (absent or empty) the
    client address is the cf-connecting-ip header if that one is present
    and not empty, else the x-real-ip header if present and not empty,
    else the text "unknown"; it is never the empty string. *)
Theorem getClientIP_fallbacks (req : Request) :
  Js.truthy (x_forwarded_for req) = false ->
  getClientIP req <> []
  /\ (forall cf, cf_connecting_ip req = Some cf -> cf <> [] ->
                 getClientIP req = cf)
  /\ (Js.truthy (cf_connecting_ip req) = false ->
      forall ip, x_real_ip req = Some ip -> ip <> [] -> getClientIP req = ip)
  /\ (Js.truthy (cf_connecting_ip req) = false ->
      Js.truthy (x_real_ip req) = false ->
      getClientIP req = lit "unknown").
Proof.
  intros Hf. unfold getClientIP. cbv zeta. rewrite Hf.
  destruct (cf_connecting_ip req) as [[| c cs] |];
    destruct (x_real_ip req) as [[| i0 ips] |]; cbn [Js.truthy or_else];
    repeat split; try discriminate; try congruence;
    try (intros cf H; injection H as <-; congruence);
    try (intros _ ip H; injection H as <-; congruence);
    try (intros cf H Hn; injection H as <-; reflexivity);
    try (intros _ ip H Hn; injection H as <-; reflexivity).
Qed.

(** *** Every outcome of the handler *)

Section Outcomes.
Variables (ins : Settles) (env : Env) (req : Request).
Variables (action : option jsstring) (email password : jsstring).
Variables (phoneNumber timezone : option jsstring) (clientIP : jsstring).

Let go : JS World Response :=
  after_validation ins env req action email password phoneNumber timezone
    clientIP.

(** The sign-up call of this request. *)
Let su : SignUpArgs :=
  {| su_email := email;
     su_password := password;
     emailRedirectTo :=
       or_else (origin req) (lit "https://journalbytext.com") ++ lit "/";
     su_data :=
       Json.Obj (spread_if "phone_number" phoneNumber
                 ++ spread_if "timezone" timezone) |}.

(** The two kinds of event the handler writes. *)
Let is_refusal (ev : SecurityEvent) : Prop :=
  event_type ev = lit "rate_limit_exceeded" /\ severity ev = medium
  /\ user_id ev = None /\ identifier ev = clientIP ++ lit ":" ++ email.
Let is_signup_record (w : World) (ev : SecurityEvent) : Prop :=
  event_type ev = lit "user_signup" /\ severity ev = low
  /\ In (AuthSignUp su) (calls (fst (go w)))
  /\ su_error (auth_signUp env su) = None
  /\ (exists uid, data_user (auth_signUp env su) = Some uid
                   /\ user_id ev = Some uid)
  /\ identifier ev = email.

Lemma gate_answers (w : World) :
  (exists ex, snd (go w) = Throw ex)
  \/ exists resp,
       snd (go w) = Return resp
       /\ In (status resp) [200; 400; 423; 429]%Z
       /\ headers resp = json_headers.
Proof.
  subst go. step.
  destruct (check_rate_limit env _) as [rl |]; [| left; eexists; reflexivity].
  destruct (allowed rl); step.
  - destruct (is_signin action); step.
    + right.
      destruct (lock_active env (select_lockout env email)); step;
        eexists; (split; [reflexivity |]); split; [| reflexivity | | reflexivity];
        cbn; auto.
    + destruct (su_error (auth_signUp env _)); step.
      * right. eexists; (split; [reflexivity |]); split; [cbn; auto | reflexivity].
      * destruct (data_user (auth_signUp env _)); step.
        -- destruct (ins _) as [[err |] | ex]; step;
             [right | right | left; eexists; reflexivity];
             eexists; (split; [reflexivity |]); (split; [cbn; auto | reflexivity]).
        -- right. eexists; (split; [reflexivity |]); split; [cbn; auto | reflexivity].
  - destruct (ins _) as [[err |] | ex]; step;
      [right | right | left; eexists; reflexivity];
      eexists; (split; [reflexivity |]); (split; [cbn; auto | reflexivity]).
Qed.

Lemma gate_log (w : World) :
  exists new,
    security_events (fst (go w)) = security_events w ++ new
    /\ (List.length new <= 1)%nat
    /\ (forall ev, In ev new ->
          ins ev = Return None
          /\ In (InsertSecurityEvent ev) (calls (fst (go w)))
          /\ (is_refusal ev \/ is_signup_record w ev)).
Proof.
  assert (Hnone : forall (evs : list SecurityEvent) (P : SecurityEvent -> Prop),
             exists new, evs = evs ++ new /\ (List.length new <= 1)%nat
                         /\ (forall ev, In ev new -> P ev)).
  { intros evs P. exists []. rewrite app_nil_r. split; [reflexivity |].
    split; [cbn; lia | intros ev []]. }
  subst go is_refusal is_signup_record. cbv beta. step.
  destruct (check_rate_limit env _) as [rl |]; [| apply Hnone].
  destruct (allowed rl); step.
  - destruct (is_signin action); step.
    + destruct (lock_active env (select_lockout env email)); step; apply Hnone.
    + fold su.
      destruct (su_error (auth_signUp env su)) eqn:Herr; step; [apply Hnone |].
      destruct (data_user (auth_signUp env su)) as [uid |] eqn:Hu; step;
        [| apply Hnone].
      destruct (ins _) as [[err |] | ex] eqn:Hins; step;
        [apply Hnone | | apply Hnone].
      eexists. split; [reflexivity |]. split; [cbn; lia |].
      intros ev [<- | []]. split; [exact Hins |].
      split; [apply in_or_app; right; left; reflexivity |]. right.
      cbn [event_type severity user_id identifier].
      split; [reflexivity |]. split; [reflexivity |].
      split; [apply in_or_app; left; apply in_or_app; right; left; reflexivity |].
      split; [reflexivity |]. split; [exists uid; auto | reflexivity].
  - destruct (ins _) as [[err |] | ex] eqn:Hins; step;
      [apply Hnone | | apply Hnone].
    eexists. split; [reflexivity |]. split; [cbn; lia |].
    intros ev [<- | []]. split; [exact Hins |].
    split; [apply in_or_app; right; left; reflexivity |]. left.
    cbn [event_type severity user_id identifier]. auto.
Qed.

End Outcomes.

(** *** Whole requests *)

(** X15: the gateway answers every request: the handler never throws.
    The status is one of 200, 400, 423, 429 and 500; every response
    carries the CORS headers; and a 500 response is always the same
    generic one, whatever went wrong. *)
Theorem gateway_always_answers (env : Env) (events : list SecurityEvent)
    (req : Request) :
  exists resp,
    snd (run env events req) = Return resp
    /\ In (status resp) [200; 400; 423; 429; 500]%Z
    /\ (status resp = 500%Z -> resp = internal_error)
    /\ (forall h, In h corsHeaders -> In h (headers resp)).
Proof.
  unfold run, run_when, serve.
  destruct (Js.eqb (method req) (lit "OPTIONS")).
  { eexists. split; [reflexivity |]. cbn [status headers].
    split; [cbn; auto |]. split; [discriminate | auto]. }
  rewrite caught_answer. unfold handle.
  assert (Hjson : forall h, In h corsHeaders -> In h json_headers).
  { intros h Hh. unfold json_headers. apply in_or_app. left. exact Hh. }
  assert (H500 : exists resp,
             Return internal_error = Return resp
             /\ In (status resp) [200; 400; 423; 429; 500]%Z
             /\ (status resp = 500%Z -> resp = internal_error)
             /\ (forall h, In h corsHeaders -> In h (headers resp))).
  { eexists. split; [reflexivity |]. split; [cbn; auto 10 |]. split; [auto |].
    exact Hjson. }
  destruct (json req) as [| | r].
  - eexists. split; [reflexivity |]. split; [cbn; auto |].
    split; [discriminate | exact Hjson].
  - cbn [throw snd]. exact H500.
  - destruct (input_validation r) as [resp0 |] eqn:Hv.
    + apply input_validation_Some in Hv as [msg ->].
      eexists. split; [reflexivity |]. split; [cbn; auto |].
      split; [discriminate | exact Hjson].
    + destruct (gate_answers (resolving env) env req (action r)
                  (or_else (email r) [])
                  (or_else (password r) []) (phoneNumber r) (timezone r)
                  (getClientIP req) {| calls := []; security_events := events |})
        as [[ex Hthrow] | (resp & Hret & Hst & Hh)].
      * rewrite Hthrow. exact H500.
      * rewrite Hret. exists resp. split; [reflexivity |].
        split; [cbn in Hst |- *; intuition |].
        split; [| rewrite Hh; exact Hjson].
        intros H5. rewrite H5 in Hst. cbn in Hst.
        destruct Hst as [H | [H | [H | [H | []]]]]; discriminate.
Qed.

(** X16: the gateway reaches its collaborators only for a request that is
    not a preflight, has a JSON object body and passes input validation;
    and whenever it reaches them, the first call is the rate-limit check.
    A request rejected before that is answered without any call and
    without any log entry. *)
Theorem collaborators_are_reached_only_after_validation (env : Env)
    (req : Request) :
  (calls_of env req <> [] <->
     Js.eqb (method req) (lit "OPTIONS") = false
     /\ exists r, json req = Body r /\ input_validation r = None)
  /\ (forall c rest, calls_of env req = c :: rest ->
                     exists args, c = RpcCheckRateLimit args)
  /\ (calls_of env req = [] -> logged_by env req = []).
Proof.
  unfold calls_of, logged_by, run, run_when, serve.
  destruct (Js.eqb (method req) (lit "OPTIONS")) eqn:Hm.
  { cbn [ret fst calls security_events]. split; [| split].
    - split; [congruence | intros [H _]; discriminate].
    - intros c rest H. discriminate.
    - reflexivity. }
  rewrite caught_world. unfold handle.
  destruct (json req) as [| | r] eqn:Hj;
    try (cbn [ret throw fst calls security_events]; split; [| split];
         [ split; [congruence | intros [_ (r & H & _)]; discriminate]
         | intros c rest H; discriminate
         | reflexivity ]).
  destruct (input_validation r) as [resp0 |] eqn:Hv.
  { cbn [ret fst calls security_events]. split; [| split].
    - split; [congruence |]. intros [_ (r' & H & H')]. injection H as <-. congruence.
    - intros c rest H. discriminate.
    - reflexivity. }
  destruct (gate_first_call env req (action r) (or_else (email r) [])
              (or_else (password r) []) (phoneNumber r) (timezone r)
              (getClientIP req) {| calls := []; security_events := [] |})
    as [rest Hrest].
  cbn [calls app] in Hrest. rewrite Hrest. split; [| split].
  - split; [intros _; split; [reflexivity | eauto] | discriminate].
  - intros c rest' H. injection H as <- _. eauto.
  - discriminate.
Qed.

(** X17: the gateway only ever appends to the security log, however
    its inserts settle: serving a request leaves the stored events as
    they were and adds at most one, and only an event whose insert was
    requested and resolved without error. An added event is either a
    rate_limit_exceeded record of severity medium without user id, or a
    user_signup record of severity low that carries the id of the new
    user: the user that the identity provider returned, without error,
    for the sign-up call made while serving this request, under the email
    of that call. *)
Theorem security_log_is_append_only (ins : Settles) (env : Env)
    (events : list SecurityEvent) (req : Request) :
  let done := fst (run_when ins env events req) in
  exists new,
    security_events done = events ++ new
    /\ (List.length new <= 1)%nat
    /\ (forall ev, In ev new ->
          ins ev = Return None
          /\ In (InsertSecurityEvent ev) (calls done)
          /\ ((event_type ev = lit "rate_limit_exceeded"
               /\ severity ev = medium /\ user_id ev = None)
              \/ (event_type ev = lit "user_signup"
                  /\ severity ev = low
                  /\ exists su uid,
                       In (AuthSignUp su) (calls done)
                       /\ su_error (auth_signUp env su) = None
                       /\ data_user (auth_signUp env su) = Some uid
                       /\ user_id ev = Some uid
                       /\ identifier ev = su_email su))).
Proof.
  cbv zeta.
  assert (Hnone : forall P : SecurityEvent -> Prop,
             exists new : list SecurityEvent,
               events = events ++ new /\ (List.length new <= 1)%nat
               /\ (forall ev, In ev new -> P ev)).
  { intros P. exists []. rewrite app_nil_r. split; [reflexivity |].
    split; [cbn; lia | intros ev []]. }
  unfold run_when, serve.
  destruct (Js.eqb (method req) (lit "OPTIONS")); [apply Hnone |].
  rewrite caught_world. unfold handle.
  destruct (json req) as [| | r]; try apply Hnone.
  destruct (input_validation r); [apply Hnone |].
  destruct (gate_log ins env req (action r) (or_else (email r) [])
              (or_else (password r) []) (phoneNumber r) (timezone r)
              (getClientIP req) {| calls := []; security_events := events |})
    as (new & Hnew & Hlen & Hev).
  exists new. split; [exact Hnew |]. split; [exact Hlen |].
  intros ev Hin.
  destruct (Hev ev Hin)
    as (Hins & Hcall & [(H1 & H2 & H3 & _) | (H1 & H2 & H3 & H4 & (uid & H5 & H6) & H7)]).
  - split; [exact Hins |]. split; [exact Hcall |]. left. auto.
  - split; [exact Hins |]. split; [exact Hcall |]. right.
    split; [exact H1 |]. split; [exact H2 |].
    eexists _, uid. split; [exact H3 |]. split; [exact H4 |].
    split; [exact H5 |]. split; [exact H6 | exact H7].
Qed.

(** *** Sign-up, expired locks, a silent rate limiter *)

(** X18: a sign-up that passes input validation and the rate limit (three
    attempts per window) is never checked against the lockout table; the
    gateway calls [auth.signUp] once, with the email, the password, the
    redirect URL built from the request origin (or the site's address) and
    the phone number and timezone as metadata when given. An error of the
    identity provider is answered 400 with the provider's message and
    nothing is logged; otherwise the answer is 200 with the provider's
    data and the rate-limit counters, and a user_signup event of severity
    low is sent to the log when the provider returned a user. *)
Theorem sign_up_path (env : Env) (req : Request) (r : AuthRequest)
    (e p : jsstring) (rl : RateLimitCheck) :
  Js.eqb (method req) (lit "OPTIONS") = false ->
  json req = Body r ->
  input_validation r = None ->
  action r = Some (lit "signup") ->
  email r = Some e ->
  password r = Some p ->
  let args :=
    {| p_identifier := getClientIP req ++ lit ":" ++ e;
       p_endpoint := lit "auth_signup";
       p_max_attempts := 3;
       p_window_minutes := 15 |} in
  check_rate_limit env args = Some rl ->
  allowed rl = true ->
  let su :=
    {| su_email := e;
       su_password := p;
       emailRedirectTo :=
         or_else (origin req) (lit "https://journalbytext.com") ++ lit "/";
       su_data :=
         Json.Obj (spread_if "phone_number" (phoneNumber r)
                   ++ spread_if "timezone" (timezone r)) |} in
  let result := auth_signUp env su in
  (forall em, ~ In (SelectLockout em) (calls_of env req))
  /\ match su_error result with
     | Some message =>
         response_of env req =
           Return (json_response 400 (Json.Obj [ (lit "error", Json.Str message) ]))
         /\ calls_of env req = [RpcCheckRateLimit args; AuthSignUp su]
         /\ logged_by env req = []
     | None =>
         response_of env req =
           Return (json_response 200
                     (Json.Obj [ (lit "data", data_json result);
                                 (lit "rate_limit", rate_limit_json rl) ]))
         /\ match data_user result with
            | Some uid =>
                exists ev,
                  calls_of env req =
                    [RpcCheckRateLimit args; AuthSignUp su; InsertSecurityEvent ev]
                  /\ event_type ev = lit "user_signup"
                  /\ severity ev = low
                  /\ user_id ev = Some uid
                  /\ identifier ev = e
            | None => calls_of env req = [RpcCheckRateLimit args; AuthSignUp su]
            end
     end.
Proof.
  intros Hm Hj Hv Ha He Hp args Hc Hal su result.
  destruct (input_validation_None _ Hv) as (_ & Hem & _ & Hpw & _).
  assert (Hoe : or_else (email r) [] = e).
  { apply truthy_or_else in Hem. congruence. }
  assert (Hop : or_else (password r) [] = p).
  { apply truthy_or_else in Hpw. congruence. }
  unfold response_of, calls_of, logged_by, run, run_when.
  rewrite (serve_validated _ _ _ _ Hm Hj Hv), ?caught_world, ?caught_answer.
  rewrite Hoe, Hop, Ha.
  step. change (is_signin (Some (lit "signup"))) with false. cbv iota.
  fold args. rewrite Hc, Hal. step. fold su. fold result.
  destruct (su_error result) as [message |]; step.
  - split; [intros em [H | [H | []]]; discriminate |].
    repeat split; reflexivity.
  - destruct (data_user result) as [uid |]; step.
    + destruct (insert_security_event env _); step.
      * split; [intros em [H | [H | [H | []]]]; discriminate |].
        split; [reflexivity |]. eexists. split; [reflexivity |].
        repeat split; reflexivity.
      * split; [intros em [H | [H | [H | []]]]; discriminate |].
        split; [reflexivity |]. eexists. split; [reflexivity |].
        repeat split; reflexivity.
    + split; [intros em [H | [H | []]]; discriminate |].
      split; reflexivity.
Qed.

(** X19: a lock that is no longer in force does not block a sign-in: for
    a validated sign-in that the rate limiter allows, when the lockout row
    is missing, or has no locked_until, or its locked_until does not parse
    as a date, or lies at or before the current instant, the gateway
    answers with the validation-passed acknowledgment. *)
Theorem expired_lock_does_not_block (env : Env) (req : Request)
    (r : AuthRequest) (e : jsstring) (rl : RateLimitCheck) :
  Js.eqb (method req) (lit "OPTIONS") = false ->
  json req = Body r ->
  input_validation r = None ->
  is_signin (action r) = true ->
  email r = Some e ->
  check_rate_limit env
    {| p_identifier := getClientIP req ++ lit ":" ++ e;
       p_endpoint := lit "auth_signin";
       p_max_attempts := 5;
       p_window_minutes := 15 |} = Some rl ->
  allowed rl = true ->
  (select_lockout env e = None
   \/ exists row,
        select_lockout env e = Some row
        /\ (Js.truthy (locked_until row) = false
            \/ exists until,
                 locked_until row = Some until
                 /\ (parse_date env until = None
                     \/ exists t, parse_date env until = Some t
                                  /\ (t <= now env)%Z))) ->
  response_of env req = Return (json_response 200 (validation_passed_json rl))
  /\ status (json_response 200 (validation_passed_json rl)) = 200%Z.
Proof.
  intros Hm Hj Hv Hs He Hc Ha Hlock.
  assert (Hl : lock_active env (select_lockout env e) = false).
  { unfold lock_active.
    destruct Hlock as [-> | (row & -> & [Ht | (until & Hu & Hparse)])];
      [reflexivity | rewrite Ht; reflexivity |].
    rewrite Hu. destruct until as [| u0 us]; [reflexivity |].
    cbn [Js.truthy or_else andb].
    destruct Hparse as [-> | (t & -> & Hle)]; [reflexivity |].
    rewrite Z.gtb_ltb. apply Z.ltb_ge. exact Hle. }
  destruct (signin_acknowledged env req Hm Hj Hv Hs He Hc Ha Hl) as [Hans _].
  split; [exact Hans | reflexivity].
Qed.

(** X20: when the rate limiter gives no answer (the call returns no
    data), the gateway fails closed: the response is the generic 500, and
    after the rate-limit call nothing else is done: no lockout read, no
    sign-up, no log entry. *)
Theorem silent_rate_limiter_fails_closed (env : Env) (req : Request)
    (r : AuthRequest) (e : jsstring) :
  Js.eqb (method req) (lit "OPTIONS") = false ->
  json req = Body r ->
  input_validation r = None ->
  email r = Some e ->
  let args :=
    {| p_identifier := getClientIP req ++ lit ":" ++ e;
       p_endpoint :=
         if is_signin (action r) then lit "auth_signin" else lit "auth_signup";
       p_max_attempts := if is_signin (action r) then 5 else 3;
       p_window_minutes := 15 |} in
  check_rate_limit env args = None ->
  response_of env req = Return internal_error
  /\ calls_of env req = [RpcCheckRateLimit args]
  /\ logged_by env req = [].
Proof.
  intros Hm Hj Hv He args Hc.
  destruct (input_validation_None _ Hv) as (_ & Hem & _).
  assert (Hoe : or_else (email r) [] = e).
  { apply truthy_or_else in Hem. congruence. }
  pose proof (gate_no_answer env req (action r) e (or_else (password r) [])
                (phoneNumber r) (timezone r) (getClientIP req)
                {| calls := []; security_events := [] |} Hc) as Hgo.
  unfold response_of, calls_of, logged_by, run, run_when.
  rewrite (serve_validated _ _ _ _ Hm Hj Hv), ?caught_world, ?caught_answer.
  rewrite Hoe, Hgo. repeat split; reflexivity.
Qed.

End SecureAuthMore.

(* --------------------------------------------------------------------- *)
(** ** The client auth hook: session effect, route guard *)

Module UseAuthSessionFacts.
Import Js Effect UseAuth UseAuthSession.

#[local] Arguments lit : simpl never.

Ltac run_session :=
  cbv beta iota zeta
      delta [getInitialSession onAuthStateChange adopt setLoading
             signIn signUp signOut clearAuthState setSession setUser call
             await bind modify ret throw try_catch start after];
  cbn [fst snd state calls user session loading app negb orb
       gs_error gs_session session_user].

(** Clearing always ends in the signed-out, settled state. *)
Lemma clear_settles (w : World) :
  exists cs,
    bind clearAuthState (fun _ => setLoading false) w =
    ({| state := {| user := None; session := None; loading := false |};
        calls := cs |}, Return tt).
Proof. run_session. eexists. reflexivity. Qed.

Lemma adopt_settles (s : option Session) (w : World) :
  exists cs,
    bind (adopt s) (fun _ => setLoading false) w =
    ({| state :=
          match s with
          | Some s' =>
              match session_user s' with
              | Some u => {| user := Some u; session := Some s'; loading := false |}
              | None => {| user := None; session := None; loading := false |}
              end
          | None => {| user := None; session := None; loading := false |}
          end;
        calls := cs |}, Return tt).
Proof.
  destruct s as [[tok [u |]] |]; run_session; eexists; reflexivity.
Qed.

Lemma signIn_state (env : Env) (e p : jsstring) (w : World) :
  state (fst (signIn env e p w)) = state w.
Proof.
  run_session.
  destruct (functions_invoke env (lit "secure-auth") _) as [[d [ve |]] | ex];
    cbn [inv_error inv_data fst state]; try reflexivity.
  destruct (Json.truthy _); cbn [negb fst state]; try reflexivity.
  destruct (signInWithPassword env e p) as [[ad [m |]] | ex];
    cbn [auth_error auth_data fst state]; try reflexivity.
  destruct (functions_invoke env (lit "track-login-failure") _);
    reflexivity.
Qed.

Lemma signUp_state (env : Env) (e p : jsstring) (ph tz : option jsstring)
    (w : World) :
  state (fst (signUp env e p ph tz w)) = state w.
Proof.
  run_session.
  destruct (functions_invoke env (lit "secure-auth") _) as [[[d |] [ve |]] | ex];
    reflexivity.
Qed.

Lemma signOut_state (env : Env) (w : World) :
  state (fst (signOut env w)) =
  {| user := None; session := None; loading := loading (state w) |}.
Proof.
  run_session. destruct (auth_signOut env) as [[err |] | ex]; reflexivity.
Qed.

Lemma cleared_coherent (l : bool) :
  coherent {| user := None; session := None; loading := l |}.
Proof. reflexivity. Qed.

Lemma adopted_coherent (s : option Session) :
  coherent
    match s with
    | Some s' =>
        match session_user s' with
        | Some u => {| user := Some u; session := Some s'; loading := false |}
        | None => {| user := None; session := None; loading := false |}
        end
    | None => {| user := None; session := None; loading := false |}
    end.
Proof.
  destruct s as [[tok [u |]] |]; try reflexivity.
  exists u. split; reflexivity.
Qed.

(** The state after the initial session check of a mounted hook. *)
Lemma getInitialSession_state (o : Outcome SessionResult) (w : World) :
  snd (getInitialSession o true w) = Return tt
  /\ state (fst (getInitialSession o true w)) =
     match o with
     | Return {| gs_session := Some s; gs_error := None |} =>
         match session_user s with
         | Some u => {| user := Some u; session := Some s; loading := false |}
         | None => {| user := None; session := None; loading := false |}
         end
     | _ => {| user := None; session := None; loading := false |}
     end.
Proof.
  destruct o as [[[[tok [u |]] |] [err |]] | ex]; run_session;
    split; reflexivity.
Qed.

(** The state after an event reaches the listener of a mounted hook. *)
Lemma onAuthStateChange_state (event : jsstring) (s : option Session)
    (w : World) :
  snd (onAuthStateChange true event s w) = Return tt
  /\ state (fst (onAuthStateChange true event s w)) =
     match s with
     | None => {| user := None; session := None; loading := false |}
     | Some s' =>
         if Js.eqb event (lit "SIGNED_OUT")
         then {| user := None; session := None; loading := false |}
         else if Js.eqb event (lit "SIGNED_IN")
                 || Js.eqb event (lit "TOKEN_REFRESHED")
         then match session_user s' with
              | Some u => {| user := Some u; session := Some s'; loading := false |}
              | None => {| user := None; session := None; loading := false |}
              end
         else state w
     end.
Proof.
  unfold onAuthStateChange. cbn [negb].
  destruct s as [s' |].
  - destruct (Js.eqb event (lit "SIGNED_OUT")); cbn [orb negb].
    + destruct (clear_settles w) as [cs ->]. split; reflexivity.
    + destruct (Js.eqb event (lit "SIGNED_IN") || Js.eqb event (lit "TOKEN_REFRESHED")).
      * destruct (adopt_settles (Some s') w) as [cs ->]. split; reflexivity.
      * split; reflexivity.
  - rewrite Bool.orb_true_r.
    destruct (clear_settles w) as [cs ->]. split; reflexivity.
Qed.

Lemma after_coherent (env : Env) (op : Op) (w : World) :
  coherent (state w) -> coherent (state (after env op w)).
Proof.
  intros Hc. destruct op as [o [|] | [|] event s | e p | e p ph tz |];
    cbn [after].
  - destruct (getInitialSession_state o w) as [_ ->].
    destruct o as [[[s |] [err |]] | ex]; try apply cleared_coherent.
    apply (adopted_coherent (Some s)).
  - destruct o as [[s [err |]] | ex]; exact Hc.
  - destruct (onAuthStateChange_state event s w) as [_ ->].
    destruct s as [s' |]; [| apply cleared_coherent].
    destruct (Js.eqb event (lit "SIGNED_OUT")); [apply cleared_coherent |].
    destruct (_ || _); [apply (adopted_coherent (Some s')) | exact Hc].
  - exact Hc.
  - rewrite signIn_state. exact Hc.
  - rewrite signUp_state. exact Hc.
  - rewrite signOut_state. apply cleared_coherent.
Qed.

(** X21: the initial session check of a mounted hook settles for every
    behaviour of [getSession], a rejection included: it never throws,
    loading ends false, and the hook is authenticated exactly when
    [getSession] returned, without error, a session that carries a user;
    the state then holds that session and that user. *)
Theorem initial_session_check_settles (o : Outcome SessionResult) (w : World) :
  let st := state (fst (getInitialSession o true w)) in
  snd (getInitialSession o true w) = Return tt
  /\ loading st = false
  /\ (isAuthenticated st = true <->
      exists r s u,
        o = Return r /\ gs_error r = None
        /\ gs_session r = Some s /\ session_user s = Some u)
  /\ (forall r s u,
        o = Return r -> gs_error r = None ->
        gs_session r = Some s -> session_user s = Some u ->
        user st = Some u /\ session st = Some s)
  /\ (isAuthenticated st = false -> user st = None /\ session st = None).
Proof.
  cbv zeta. destruct (getInitialSession_state o w) as [Hret ->].
  split; [exact Hret |].
  destruct o as [[[[tok [u |]] |] [err |]] | ex];
    cbn [loading isAuthenticated user session session_user];
    (split; [reflexivity |]);
    (split; [split; [try discriminate | intros (r & s & u' & Ho & He & Hs & Hu)] |]);
    try (injection Ho as <-; cbn [gs_error gs_session] in *; try discriminate;
         injection Hs as <-; cbn [session_user] in *; discriminate);
    try discriminate.
  all: try (intros _; eexists _, _, _; repeat split; reflexivity).
  all: try reflexivity.
  all: split;
    [ intros r s u' Ho He Hs Hu; try discriminate;
      injection Ho as <-; cbn [gs_error gs_session] in *; try discriminate;
      injection Hs as <-; cbn [session_user] in *; try discriminate;
      injection Hu as <-; split; reflexivity
    | intros H; try discriminate; split; reflexivity ].
Qed.
(** X22: the listener writes state only while mounted and only for a
    sign-out, a missing session, a sign-in or a token refresh; any other
    event that carries a session (a user update, a password recovery)
    leaves user, session and loading as they were. When it does write,
    loading ends false and the hook is authenticated exactly when the
    event is not a sign-out and its session carries a user, which the
    state then holds. *)
Theorem listener_acts_only_on_sign_events (mounted : bool) (event : jsstring)
    (s : option Session) (w : World) :
  let acts :=
    mounted
    && (Js.eqb event (lit "SIGNED_OUT") || Js.eqb event (lit "SIGNED_IN")
        || Js.eqb event (lit "TOKEN_REFRESHED")
        || match s with Some _ => false | None => true end) in
  let st := state (fst (onAuthStateChange mounted event s w)) in
  snd (onAuthStateChange mounted event s w) = Return tt
  /\ (acts = false -> fst (onAuthStateChange mounted event s w) = w)
  /\ (acts = true ->
      loading st = false
      /\ (isAuthenticated st = true <->
          Js.eqb event (lit "SIGNED_OUT") = false
          /\ exists s' u, s = Some s' /\ session_user s' = Some u
                          /\ user st = Some u /\ session st = Some s')).
Proof.
  cbv zeta. destruct mounted; [| repeat split; discriminate].
  cbn [andb]. destruct (onAuthStateChange_state event s w) as [Hret Hst].
  split; [exact Hret |]. rewrite Hst. clear Hret Hst.
  destruct s as [s' |].
  - destruct (Js.eqb event (lit "SIGNED_OUT")) eqn:Hout; cbn [orb].
    + split; [discriminate | intros _].
      split; [reflexivity |]. split; [discriminate | intros [H _]; discriminate].
    + rewrite Bool.orb_false_r.
      destruct (Js.eqb event (lit "SIGNED_IN") || Js.eqb event (lit "TOKEN_REFRESHED"))
        eqn:Hin.
      * split; [discriminate | intros _].
        destruct (session_user s') as [u |] eqn:Hu; cbn [loading].
        -- split; [reflexivity |]. split.
           ++ intros _. split; [reflexivity |]. exists s', u. auto.
           ++ reflexivity.
        -- split; [reflexivity |]. split; [discriminate |].
           intros [_ (s0 & u & Hs & Hu' & _)]. injection Hs as <-. congruence.
      * split; [| discriminate]. intros _.
        unfold onAuthStateChange. cbn [negb orb]. rewrite Hout, Hin.
        reflexivity.
  - rewrite !Bool.orb_true_r. split; [discriminate | intros _].
    split; [reflexivity |]. split; [discriminate |].
    intros [_ (s0 & u & Hs & _)]. discriminate.
Qed.

(** X23: once the component is unmounted, the hook writes nothing: for
    any run of session checks and listener events that find the mounted
    flag cleared, whatever [getSession] answers and whatever the events
    are, the state and the call log are those before the run. *)
Theorem unmounted_hook_is_inert (env : Env) (ops : list Op) (w : World) :
  Forall (fun op =>
            match op with
            | InitialSession _ mounted => mounted = false
            | AuthStateChange mounted _ _ => mounted = false
            | _ => False
            end) ops ->
  after_all env ops w = w.
Proof.
  intros Hall. revert w.
  induction Hall as [| op ops Hop _ IH]; intros w; [reflexivity |].
  unfold after_all in *. cbn [fold_left]. rewrite IH.
  destruct op as [o m | m event s | | |]; try contradiction; subst m.
  - destruct o as [[s [err |]] | ex]; reflexivity.
  - reflexivity.
Qed.

(** X24: user and session stay together. From a state in which they do
    (both null, or a session and the user it carries), every run of the
    hook's operations (session checks, listener events, sign-in, sign-up,
    sign-out, mounted or not, with any answers of the remote services)
    ends in such a state; so [isAuthenticated] holds exactly when there
    is a session, and exactly when there is a user. *)
Theorem user_and_session_stay_together (env : Env) (ops : list Op) (w : World) :
  coherent (state w) ->
  let st := state (after_all env ops w) in
  coherent st
  /\ (isAuthenticated st = true <-> session st <> None)
  /\ (isAuthenticated st = true <-> user st <> None).
Proof.
  intros Hc. cbv zeta.
  assert (Hfin : coherent (state (after_all env ops w))).
  { revert w Hc. induction ops as [| op ops IH]; intros w Hc; [exact Hc |].
    unfold after_all in *. cbn [fold_left]. apply IH, after_coherent, Hc. }
  split; [exact Hfin |].
  unfold coherent, isAuthenticated in *.
  destruct (session (state (after_all env ops w))) as [s |].
  - destruct Hfin as (u & _ & ->). repeat split; discriminate.
  - rewrite Hfin. repeat split; try discriminate; intros H; contradiction.
Qed.

(** X27: [signIn] always resolves, never rejects, and by itself leaves
    user, session and loading untouched. Its result carries either data
    or an error, never both and never neither; data is reported only when
    [signInWithPassword] was called and returned without error, and is
    then what that call returned. *)
Theorem signIn_always_resolves (env : Env) (e p : jsstring) (w : World) :
  exists r,
    snd (signIn env e p w) = Return r
    /\ state (fst (signIn env e p w)) = state w
    /\ (data r = None <-> error r <> None)
    /\ (forall d, data r = Some d ->
        In (SignInWithPassword e p) (calls (fst (signIn env e p w)))
        /\ exists a, signInWithPassword env e p = Return a
                     /\ auth_error a = None /\ d = auth_data a).
Proof.
  run_session.
  destruct (functions_invoke env (lit "secure-auth") _) as [[d [ve |]] | ex];
    cbn [inv_error inv_data fst snd state].
  1, 3: eexists; split; [reflexivity |]; split; [reflexivity |];
    cbn [data error]; split; [split; [discriminate | reflexivity] | discriminate].
  destruct (Json.truthy _); cbn [negb fst snd state].
  2:{ eexists; split; [reflexivity |]; split; [reflexivity |];
      cbn [data error]; split; [split; [discriminate | reflexivity] | discriminate]. }
  destruct (signInWithPassword env e p) as [[ad [m |]] | ex];
    cbn [auth_error auth_data fst snd state].
  - destruct (functions_invoke env (lit "track-login-failure") _);
      eexists; (split; [reflexivity |]); (split; [reflexivity |]);
      cbn [data error]; (split; [split; [discriminate | reflexivity] | discriminate]).
  - eexists; split; [reflexivity |]; split; [reflexivity |]. cbn [data error calls].
    split; [split; [discriminate | intros H; contradiction] |].
    intros d0 Hd. injection Hd as <-. split.
    + apply in_or_app. right. left. reflexivity.
    + eexists. repeat split; reflexivity.
  - eexists; split; [reflexivity |]; split; [reflexivity |];
      cbn [data error]; split; [split; [discriminate | reflexivity] | discriminate].
Qed.

(** X28: a failed password check is reported to track-login-failure on a
    best-effort basis. When the gateway acknowledged the sign-in and
    [signInWithPassword] returned an error, [signIn] makes one
    track-login-failure call with the email and the error's message and
    resolves to that error; whether the tracking call succeeds, returns an
    error or rejects makes no difference to the result or to the calls
    made. *)
Theorem failed_login_is_tracked_best_effort (env : Env) (e p : jsstring)
    (w : World) (v : InvokeResult) (d : Json.value) (a : AuthResult)
    (m : jsstring) :
  let body :=
    Json.Obj [ (lit "action", Json.Str (lit "signin"));
               (lit "email", Json.Str e);
               (lit "password", Json.Str p) ] in
  functions_invoke env (lit "secure-auth") body = Return v ->
  inv_error v = None ->
  inv_data v = Some d ->
  Json.truthy (Json.get (lit "validation_passed") d) = true ->
  signInWithPassword env e p = Return a ->
  auth_error a = Some m ->
  signIn env e p w =
  ({| state := state w;
      calls :=
        ((calls w ++ [FunctionsInvoke (lit "secure-auth") body])
           ++ [SignInWithPassword e p])
          ++ [FunctionsInvoke (lit "track-login-failure")
                (Json.Obj [ (lit "email", Json.Str e);
                            (lit "error", Json.Str m) ])] |},
   Return {| data := None; error := Some (Error m) |}).
Proof.
  intros body Hg He Hd Ht Ha Hm.
  run_session. fold body. rewrite Hg. cbn [fst snd state calls].
  rewrite He, Hd, Ht. cbn [negb fst snd state calls]. rewrite Ha.
  cbn [fst snd state calls]. rewrite Hm.
  destruct (functions_invoke env (lit "track-login-failure") _); reflexivity.
Qed.

End UseAuthSessionFacts.

(* --------------------------------------------------------------------- *)
(** ** The route guard over the hook *)

Module ProtectedRouteFacts.
Import Js Effect UseAuth UseAuthSession ProtectedRoute.

#[local] Arguments lit : simpl never.

Lemma missing_auth_isAuthenticated (st : AuthState) :
  missing_auth st = negb (isAuthenticated st).
Proof.
  unfold missing_auth, isAuthenticated.
  destruct (user st), (session st); reflexivity.
Qed.

(** X25: the guard shows its children only when the hook has finished
    loading and is authenticated, and then it does not navigate; it
    navigates exactly when loading has finished and user or session is
    missing, always to /sign-in, and then renders nothing; while loading
    it shows the loading view and does not navigate. *)
Theorem guard_shows_children_only_when_authenticated (st : AuthState) :
  (render st = Children <-> loading st = false /\ isAuthenticated st = true)
  /\ (render st = Children -> navigate st = None)
  /\ (forall target, navigate st = Some target <->
        target = lit "/sign-in"
        /\ loading st = false /\ isAuthenticated st = false)
  /\ (forall target, navigate st = Some target -> render st = Nothing)
  /\ (loading st = true -> render st = LoadingView /\ navigate st = None).
Proof.
  unfold render, navigate. rewrite missing_auth_isAuthenticated.
  destruct (loading st), (isAuthenticated st); cbn [negb andb];
    repeat split; try discriminate; try reflexivity; intros;
    repeat match goal with
           | H : _ /\ _ |- _ => destruct H
           | H : Some _ = Some _ |- _ => injection H as <-
           end;
    try discriminate; try reflexivity; subst; reflexivity.
Qed.

(** X26: the guard follows its own hook. [ProtectedRoute] calls
    [useAuth] itself, so the state it reads is written by the session
    check and the listener of that instance. After the initial session
    check of the mounted hook the guard is past the loading view: it
    shows its children when [getSession] returned, without error, a
    session that carries a user, and otherwise renders nothing and
    navigates to /sign-in. After its listener hears a sign-out, or any
    event without a session, it renders nothing and navigates to
    /sign-in; after it hears a sign-in or a token refresh with a session
    that carries a user, it shows its children and does not navigate. *)
Theorem guard_follows_the_hook (o : Outcome SessionResult) (event : jsstring)
    (s : option Session) (w : World) :
  let checked := state (fst (getInitialSession o true w)) in
  let heard := state (fst (onAuthStateChange true event s w)) in
  ((exists r s0 u,
      o = Return r /\ gs_error r = None
      /\ gs_session r = Some s0 /\ session_user s0 = Some u) ->
   render checked = Children /\ navigate checked = None)
  /\ (~ (exists r s0 u,
           o = Return r /\ gs_error r = None
           /\ gs_session r = Some s0 /\ session_user s0 = Some u) ->
      render checked = Nothing /\ navigate checked = Some (lit "/sign-in"))
  /\ (Js.eqb event (lit "SIGNED_OUT") = true \/ s = None ->
      render heard = Nothing /\ navigate heard = Some (lit "/sign-in"))
  /\ (Js.eqb event (lit "SIGNED_OUT") = false ->
      Js.eqb event (lit "SIGNED_IN") || Js.eqb event (lit "TOKEN_REFRESHED")
      = true ->
      (exists s0 u, s = Some s0 /\ session_user s0 = Some u) ->
      render heard = Children /\ navigate heard = None).
Proof.
  cbv zeta.
  destruct (UseAuthSessionFacts.getInitialSession_state o w) as [_ ->].
  destruct (UseAuthSessionFacts.onAuthStateChange_state event s w) as [_ ->].
  split; [| split; [| split]].
  - intros (r & s0 & u & -> & He & Hs & Hu). destruct r as [gs ge].
    cbn [gs_error gs_session] in *. subst. rewrite Hu.
    split; reflexivity.
  - intros Hno.
    destruct o as [[[s0 |] [err |]] | ex]; try (split; reflexivity).
    destruct (session_user s0) as [u |] eqn:Hu; [| split; reflexivity].
    exfalso. apply Hno. eexists _, s0, u.
    split; [reflexivity |]. repeat split. exact Hu.
  - intros [Hout | ->]; [| split; reflexivity].
    destruct s as [s0 |]; [| split; reflexivity].
    rewrite Hout. split; reflexivity.
  - intros Hout Hin (s0 & u & -> & Hu). rewrite Hout, Hin, Hu.
    split; reflexivity.
Qed.

End ProtectedRouteFacts.

(* --------------------------------------------------------------------- *)
(** ** The sign-up form: phone numbers *)

Module SignUpFormFacts.
Import Js SignUpForm.

Lemma keep_all (p : char -> bool) (s : jsstring) :
  Forall (fun c => p c = true) s -> keep p s = s.
Proof.
  induction 1 as [| c s Hc _ IH]; [reflexivity |].
  unfold keep in *. cbn [filter]. rewrite Hc, IH. reflexivity.
Qed.

Lemma keep_Forall (p : char -> bool) (s : jsstring) :
  Forall (fun c => p c = true) (keep p s).
Proof.
  apply Forall_forall. intros c Hc. apply filter_In in Hc. apply Hc.
Qed.

Lemma keep_plus_one (d : jsstring) :
  Forall (fun c => is_digit c = true) d ->
  keep is_digit (lit "+1" ++ d) = 49%N :: d.
Proof.
  intros Hd. change (lit "+1") with [43%N; 49%N].
  unfold keep. cbn [app filter].
  change (is_digit 43%N) with false. change (is_digit 49%N) with true.
  cbv iota. f_equal. apply keep_all, Hd.
Qed.

Lemma cleanDigits_digits (input : jsstring) :
  Forall (fun c => is_digit c = true) (cleanDigits (keep is_digit input)).
Proof.
  unfold cleanDigits.
  pose proof (keep_Forall is_digit input) as H.
  destruct (_ && _); [| exact H].
  destruct (keep is_digit input); [exact H |].
  inversion H; assumption.
Qed.

Lemma formatPhoneNumber_Some (input r : jsstring) :
  formatPhoneNumber input = Some r ->
  r = lit "+1" ++ cleanDigits (keep is_digit input)
  /\ List.length (cleanDigits (keep is_digit input)) = 10%nat.
Proof.
  unfold formatPhoneNumber. cbv zeta.
  destruct (Js.length (cleanDigits (keep is_digit input)) =? 10)%Z eqn:Hlen;
    [| discriminate].
  intros H. injection H as <-. split; [reflexivity |].
  apply Z.eqb_eq in Hlen. unfold Js.length in Hlen. lia.
Qed.

(** X29: a phone number that [formatPhoneNumber] accepts comes out as
    +1 followed by ten digits; the gateway's [validatePhoneNumber]
    accepts every such number, and formatting it again gives it back
    unchanged. *)
Theorem formatted_phone_is_accepted_by_gateway (input r : jsstring) :
  formatPhoneNumber input = Some r ->
  (exists d, r = lit "+1" ++ d
             /\ List.length d = 10%nat
             /\ Forall (fun c => is_digit c = true) d)
  /\ SecureAuth.validatePhoneNumber r = true
  /\ formatPhoneNumber r = Some r.
Proof.
  intros H. apply formatPhoneNumber_Some in H. destruct H as [-> Hlen].
  pose proof (cleanDigits_digits input) as Hd.
  set (d := cleanDigits (keep is_digit input)) in *. clearbody d.
  split; [exists d; auto |].
  split.
  - unfold SecureAuth.validatePhoneNumber. cbv zeta.
    rewrite (keep_plus_one Hd). unfold Js.length. cbn [List.length].
    rewrite Hlen. reflexivity.
  - unfold formatPhoneNumber, cleanDigits. cbv zeta.
    rewrite (keep_plus_one Hd). unfold Js.length.
    cbn [startsWith_1 List.length tl]. rewrite Hlen.
    change ((49 =? 49)%N && (Z.of_nat 11 =? 11)%Z) with true. cbv iota.
    rewrite Hlen. reflexivity.
Qed.

(** X30: [formatPhoneNumber] accepts an input exactly when it holds ten
    digits, or eleven digits of which the first is 1; every other count
    of digits, eleven digits with another first digit included, gives
    null. Characters that are not digits play no part. *)
Theorem formatPhoneNumber_accepts (input : jsstring) :
  let digits := keep is_digit input in
  (formatPhoneNumber input <> None <->
   List.length digits = 10%nat
   \/ (List.length digits = 11%nat /\ hd_error digits = Some 49%N))
  /\ formatPhoneNumber input = formatPhoneNumber digits.
Proof.
  cbv zeta. split.
  - unfold formatPhoneNumber, cleanDigits. cbv zeta. unfold Js.length.
    destruct (keep is_digit input) as [| c ds]; cbn [startsWith_1 tl List.length hd_error].
    + cbn. split; [intros H; contradiction | intros [H | [H _]]; discriminate].
    + destruct (N.eqb c 49) eqn:Hc; cbn [andb].
      * apply N.eqb_eq in Hc. subst c.
        destruct (Z.of_nat (S (List.length ds)) =? 11)%Z eqn:H11.
        -- apply Z.eqb_eq in H11.
           assert (Hl : List.length ds = 10%nat) by lia.
           rewrite Hl. cbn. split; [intros _; right; auto | discriminate].
        -- apply Z.eqb_neq in H11. cbn [List.length].
           destruct (Z.of_nat (S (List.length ds)) =? 10)%Z eqn:H10.
           ++ apply Z.eqb_eq in H10. split; [intros _; left; lia | discriminate].
           ++ apply Z.eqb_neq in H10.
              split; [intros H; contradiction | intros [H | [H _]]; lia].
      * apply N.eqb_neq in Hc. cbn [List.length].
        destruct (Z.of_nat (S (List.length ds)) =? 10)%Z eqn:H10.
        -- apply Z.eqb_eq in H10. split; [intros _; left; lia | discriminate].
        -- apply Z.eqb_neq in H10.
           split; [intros H; contradiction |].
           intros [H | [_ H]]; [lia | congruence].
  - unfold formatPhoneNumber. cbv zeta.
    rewrite (@keep_all is_digit _ (keep_Forall is_digit input)). reflexivity.
Qed.

(** The phone field never holds more than eleven digits. *)
Lemma handlePhoneChange_bound (phoneNumber value : jsstring) :
  (List.length (keep is_digit phoneNumber) <= 11)%nat ->
  (List.length (keep is_digit (handlePhoneChange phoneNumber value)) <= 11)%nat.
Proof.
  intros H. unfold handlePhoneChange, Js.length.
  destruct (Z.of_nat (List.length (keep is_digit value)) <=? 11)%Z eqn:Hv;
    [apply Z.leb_le in Hv; lia | exact H].
Qed.

End SignUpFormFacts.

(* --------------------------------------------------------------------- *)
(** ** The added theorems at concrete inputs *)

Module MoreWitnesses.
Import Js Effect.

(** *** The journal service *)

Lemma toy_cipher_round_trip (plain u cipher : jsstring) :
  Scenario.toy_encrypt plain u = Return cipher ->
  Scenario.toy_decrypt cipher u = Return plain.
Proof. intros H. injection H as <-. reflexivity. Defined.

(** The two entries of [u1] come newest first. *)
Lemma fetch_of_u1_is_newest_first :
  exists entries,
    snd (JournalService.fetchJournalEntries Scenario.journal_env (lit "u1")
           Scenario.journal_world) = Return entries
    /\ List.length entries = 2%nat
    /\ StronglySorted
         (fun a b : JournalService.Entry =>
            (JournalService.e_timestamp b <= JournalService.e_timestamp a)%Z)
         entries.
Proof.
  destruct (@JournalServiceMore.fetch_returns_own_entries_newest_first
              Scenario.journal_env (lit "u1") Scenario.journal_world
              ltac:(discriminate) eq_refl)
    as (entries & Hret & _ & _ & Hlen & Hsorted).
  exists entries. split; [exact Hret |]. split; [exact Hlen | exact Hsorted].
Defined.

(** A profile timezone that the runtime does not know: the create
    throws and stores nothing. *)
Lemma create_with_stray_timezone :
  let run :=
    JournalService.createJournalEntry Scenario.journal_env (lit "Hello")
      (lit "Title") [] [] (lit "u1") MoreScenarios.stray_world in
  (exists ex, snd run = Throw ex)
  /\ JournalService.journal_entries (fst run)
     = JournalService.journal_entries MoreScenarios.stray_world.
Proof.
  cbv zeta.
  destruct (@JournalServiceMore.create_fails_on_unknown_timezone
              Scenario.journal_env (lit "Hello") (lit "Title") [] [] (lit "u1")
              MoreScenarios.stray_world ltac:(discriminate) eq_refl)
    as (Hthrow & Hrows & _).
  split; [exact Hthrow | exact Hrows].
Defined.

(** User [u2] has no profile row: the new entry is dated in UTC. *)
Lemma create_without_profile :
  exists row,
    snd (JournalService.createJournalEntry Scenario.journal_env (lit "Hello")
           (lit "Title") [] [] (lit "u2") Scenario.journal_world) = Return row
    /\ JournalService.entry_date row = lit "2024-01-01".
Proof.
  assert (Hrow : { row | snd (JournalService.createJournalEntry
                                Scenario.journal_env (lit "Hello") (lit "Title")
                                [] [] (lit "u2") Scenario.journal_world)
                         = Return row })
    by (eexists; vm_compute; reflexivity).
  destruct Hrow as [row Hrow]. exists row. split; [exact Hrow |].
  pose proof (@JournalServiceMore.create_defaults_to_UTC
                Scenario.journal_env (lit "Hello") (lit "Title") [] [] (lit "u2")
                Scenario.journal_world row Hrow
                (or_intror (or_introl eq_refl))) as Hdate.
  injection Hdate as <-. reflexivity.
Defined.

(** An entry created with padded text is fetched back trimmed. *)
Lemma create_then_fetch_for_u1 :
  exists entries e,
    snd (JournalService.fetchJournalEntries Scenario.journal_env (lit "u1")
           (fst (JournalService.createJournalEntry Scenario.journal_env
                   (lit "  Hello ") (lit " Title") [] [] (lit "u1")
                   Scenario.journal_world))) = Return entries
    /\ In e entries
    /\ JournalService.e_content e = lit "Hello"
    /\ JournalService.e_title e = lit "Title"
    /\ JournalService.e_source e = lit "web".
Proof.
  assert (Hrow : { row | snd (JournalService.createJournalEntry
                                Scenario.journal_env (lit "  Hello ") (lit " Title")
                                [] [] (lit "u1") Scenario.journal_world)
                         = Return row })
    by (eexists; vm_compute; reflexivity).
  destruct Hrow as [row Hrow].
  destruct (@JournalServiceMore.create_then_fetch
              Scenario.journal_env (lit "  Hello ") (lit " Title") [] [] (lit "u1")
              Scenario.journal_world row toy_cipher_round_trip eq_refl Hrow)
    as (entries & e & Hret & Hin & _ & Hc & Ht & Hs & _).
  exists entries, e. repeat split; assumption.
Defined.

(** User [u2] addresses entry-1 of [u1]: no row changes. *)
Lemma update_by_u2_of_entry_1 :
  JournalService.journal_entries
    (fst (JournalService.updateJournalEntry Scenario.journal_env
            (lit "entry-1") (lit "Mine now") None None None (lit "u2")
            Scenario.journal_world))
  = JournalService.journal_entries Scenario.journal_world.
Proof.
  apply (@JournalServiceMore.update_of_foreign_entry_changes_nothing
           Scenario.journal_env (lit "entry-1") (lit "Mine now") None None None
           (lit "u2") Scenario.journal_world).
  intros r [<- | [<- | []]] _; discriminate.
Defined.

(** User [u1] rewrites entry-1: the fetch shows the new content under
    the old title and date. *)
Lemma update_then_fetch_for_u1 :
  exists entries e,
    snd (JournalService.fetchJournalEntries Scenario.journal_env (lit "u1")
           (fst (JournalService.updateJournalEntry Scenario.journal_env
                   (lit "entry-1") (lit " Rewritten ") None None None (lit "u1")
                   Scenario.journal_world))) = Return entries
    /\ In e entries
    /\ JournalService.e_id e = lit "entry-1"
    /\ JournalService.e_content e = lit "Rewritten"
    /\ JournalService.e_title e = lit "Monday"
    /\ JournalService.e_entry_date e = lit "2023-12-25".
Proof.
  destruct (@JournalServiceMore.update_then_fetch
              Scenario.journal_env (lit "entry-1") (lit " Rewritten ") None None
              None (lit "u1") Scenario.journal_world
              (hd (JournalService.Build_EntryRow [] [] [] [] [] [] None 0)
                  (JournalService.journal_entries Scenario.journal_world))
              (lit "Monday")
              toy_cipher_round_trip ltac:(discriminate) eq_refl
              (or_introl eq_refl) eq_refl eq_refl eq_refl eq_refl)
    as (entries & e & Hret & Hin & Hid & Hc & Ht & Hd & _).
  exists entries, e. repeat split; assumption.
Defined.

(** User [u1] deletes entry-1: the fetch lists entry-2 only. *)
Lemma delete_then_fetch_for_u1 :
  exists entries,
    snd (JournalService.fetchJournalEntries Scenario.journal_env (lit "u1")
           (fst (JournalServiceDelete.deleteJournalEntry MoreScenarios.delete_env
                   (lit "entry-1") (lit "u1") Scenario.journal_world)))
    = Return entries
    /\ (forall e, In e entries -> JournalService.e_id e <> lit "entry-1")
    /\ (exists e, In e entries /\ JournalService.e_id e = lit "entry-2").
Proof.
  destruct (@JournalServiceDeleteFacts.delete_then_fetch
              Scenario.journal_env MoreScenarios.delete_env (lit "entry-1")
              (lit "u1") Scenario.journal_world
              ltac:(discriminate) eq_refl eq_refl)
    as (entries & Hret & Hgone & Hkept).
  exists entries. split; [exact Hret |]. split; [exact Hgone |].
  apply (Hkept (nth 1 (JournalService.journal_entries Scenario.journal_world)
                  (JournalService.Build_EntryRow [] [] [] [] [] [] None 0))).
  - right. left. reflexivity.
  - reflexivity.
  - discriminate.
Defined.

(** *** The gateway *)

(** The first of two forwarded addresses, without the blank. *)
Lemma client_address_of_forwarded_request :
  let req := Scenario.post (Scenario.auth_request "signin" "ann@example.com" "pw") in
  SecureAuth.getClientIP req = lit "203.0.113.9"
  /\ ~ In 44%N (SecureAuth.getClientIP req).
Proof.
  cbv zeta.
  destruct (@SecureAuthMore.getClientIP_from_forwarded_for
              (Scenario.post (Scenario.auth_request "signin" "ann@example.com" "pw"))
              (lit "203.0.113.9, 10.0.0.1") eq_refl ltac:(discriminate))
    as (Hip & Hcomma & _).
  split; [exact Hip | exact Hcomma].
Defined.

(** Without x-forwarded-for, cf-connecting-ip wins over x-real-ip. *)
Lemma client_address_of_direct_request :
  let req := MoreScenarios.direct (Scenario.auth_request "signin" "ann@example.com" "pw") in
  SecureAuth.getClientIP req = lit "198.51.100.7".
Proof.
  cbv zeta.
  destruct (@SecureAuthMore.getClientIP_fallbacks
              (MoreScenarios.direct
                 (Scenario.auth_request "signin" "ann@example.com" "pw"))
              eq_refl)
    as (_ & Hcf & _).
  apply (Hcf (lit "198.51.100.7") eq_refl). discriminate.
Defined.

(** A sign-up that the provider accepts: 200, three calls, no lockout
    read. *)
Lemma sign_up_of_new_user :
  let req := Scenario.post (Scenario.auth_request "signup" "new@example.com" "Abcdefg1") in
  (forall em, ~ In (SecureAuth.SelectLockout em)
                   (SecureAuth.calls_of Scenario.gateway_env req))
  /\ exists resp,
       SecureAuth.response_of Scenario.gateway_env req = Return resp
       /\ SecureAuth.status resp = 200%Z.
Proof.
  cbv zeta.
  destruct (@SecureAuthMore.sign_up_path Scenario.gateway_env
              (Scenario.post (Scenario.auth_request "signup" "new@example.com" "Abcdefg1"))
              (Scenario.auth_request "signup" "new@example.com" "Abcdefg1")
              (lit "new@example.com") (lit "Abcdefg1")
              {| SecureAuth.allowed := true; SecureAuth.attempts := 1;
                 SecureAuth.max_attempts := 3; SecureAuth.blocked_until := None |}
              eq_refl eq_refl eq_refl eq_refl eq_refl eq_refl eq_refl eq_refl)
    as (Hnever & Hans & _).
  split; [exact Hnever |]. eexists. split; [exact Hans | reflexivity].
Defined.

(** At 08:00 the lock that ran until 07:00 no longer blocks. *)
Lemma sign_in_after_the_lock_ran_out :
  let req := Scenario.post (Scenario.auth_request "signin" "locked@example.com" "pw") in
  exists resp,
    SecureAuth.response_of MoreScenarios.later_env req = Return resp
    /\ SecureAuth.status resp = 200%Z.
Proof.
  cbv zeta.
  destruct (@SecureAuthMore.expired_lock_does_not_block MoreScenarios.later_env
              (Scenario.post (Scenario.auth_request "signin" "locked@example.com" "pw"))
              (Scenario.auth_request "signin" "locked@example.com" "pw")
              (lit "locked@example.com")
              {| SecureAuth.allowed := true; SecureAuth.attempts := 1;
                 SecureAuth.max_attempts := 5; SecureAuth.blocked_until := None |}
              eq_refl eq_refl eq_refl eq_refl eq_refl eq_refl eq_refl)
    as (Hans & Hstatus).
  - right. eexists. split; [reflexivity |]. right. eexists.
    split; [reflexivity |]. right. exists 1704092400000%Z.
    split; [reflexivity | discriminate].
  - eexists. split; [exact Hans | exact Hstatus].
Defined.

(** The rate limiter is down: 500 after its one call. *)
Lemma sign_in_with_silent_rate_limiter :
  let req := Scenario.post (Scenario.auth_request "signin" "ann@example.com" "pw") in
  SecureAuth.response_of MoreScenarios.silent_env req = Return SecureAuth.internal_error
  /\ List.length (SecureAuth.calls_of MoreScenarios.silent_env req) = 1%nat.
Proof.
  cbv zeta.
  destruct (@SecureAuthMore.silent_rate_limiter_fails_closed MoreScenarios.silent_env
              (Scenario.post (Scenario.auth_request "signin" "ann@example.com" "pw"))
              (Scenario.auth_request "signin" "ann@example.com" "pw")
              (lit "ann@example.com")
              eq_refl eq_refl eq_refl eq_refl eq_refl)
    as (Hans & Hcalls & _).
  split; [exact Hans |]. rewrite Hcalls. reflexivity.
Defined.

(** *** The client hook and the sign-up form *)

(** What arrives after the unmount changes nothing. *)
Lemma events_after_unmount :
  UseAuthSession.after_all Scenario.client_env MoreScenarios.after_unmount
    (UseAuth.start Scenario.signed_in)
  = UseAuth.start Scenario.signed_in.
Proof.
  apply (@UseAuthSessionFacts.unmounted_hook_is_inert Scenario.client_env
           MoreScenarios.after_unmount (UseAuth.start Scenario.signed_in)).
  repeat constructor.
Defined.

(** A visit, from mount to sign-out. *)
Lemma a_visit_stays_coherent :
  let st :=
    UseAuth.state
      (UseAuthSession.after_all Scenario.client_env MoreScenarios.a_visit
         (UseAuth.start UseAuthSession.initial)) in
  UseAuthSession.coherent st
  /\ UseAuthSession.isAuthenticated st = false.
Proof.
  cbv zeta.
  destruct (@UseAuthSessionFacts.user_and_session_stay_together Scenario.client_env
              MoreScenarios.a_visit (UseAuth.start UseAuthSession.initial) eq_refl)
    as (Hc & _).
  split; [exact Hc | reflexivity].
Defined.

(** A wrong password, with track-login-failure unreachable. *)
Lemma wrong_password :
  snd (UseAuth.signIn MoreScenarios.rejecting_env (lit "ann@example.com")
         (lit "pw") (UseAuth.start UseAuthSession.initial))
  = Return {| UseAuth.data := None;
              UseAuth.error := Some (Error (lit "Invalid login credentials")) |}.
Proof.
  rewrite (@UseAuthSessionFacts.failed_login_is_tracked_best_effort
             MoreScenarios.rejecting_env (lit "ann@example.com") (lit "pw")
             (UseAuth.start UseAuthSession.initial)
             {| UseAuth.inv_data :=
                  Some (SecureAuth.validation_passed_json
                          {| SecureAuth.allowed := true;
                             SecureAuth.attempts := 1;
                             SecureAuth.max_attempts := 5;
                             SecureAuth.blocked_until := None |});
                UseAuth.inv_error := None |}
             (SecureAuth.validation_passed_json
                {| SecureAuth.allowed := true;
                   SecureAuth.attempts := 1;
                   SecureAuth.max_attempts := 5;
                   SecureAuth.blocked_until := None |})
             {| UseAuth.auth_data := None;
                UseAuth.auth_error := Some (lit "Invalid login credentials") |}
             (lit "Invalid login credentials")
             eq_refl eq_refl eq_refl eq_refl eq_refl eq_refl).
  reflexivity.
Defined.

(** A phone number as people type it. *)
Lemma a_typed_phone_number :
  SignUpForm.formatPhoneNumber (lit "(555) 123-4567") = Some (lit "+15551234567")
  /\ SecureAuth.validatePhoneNumber (lit "+15551234567") = true
  /\ SignUpForm.formatPhoneNumber (lit "+15551234567") = Some (lit "+15551234567").
Proof.
  split; [reflexivity |].
  destruct (@SignUpFormFacts.formatted_phone_is_accepted_by_gateway
              (lit "(555) 123-4567") (lit "+15551234567") eq_refl)
    as (_ & Hvalid & Hagain).
  split; [exact Hvalid | exact Hagain].
Defined.

End MoreWitnesses.
